(** * Portfolio front end (js/main.js): color model, typewriter engine,
      timeline pager and detail modal.

    The development embeds the functions of [js/main.js] the specification
    talks about and proves, or refutes, what the specification says about
    them.  JavaScript strings are sequences of UTF-16 code units, integer
    valued numbers are integers of [Z] with the 32-bit wrap-around written
    out where the source applies it, and the DOM the pager and the modal
    mutate is an explicit store that every operation threads. *)

From Stdlib Require Import ZArith QArith Lia Bool List Ascii String DecimalString.
From Stdlib Require Import Floats.
From stdpp Require Import base option list strings gmap.
From Equations Require Import Equations.

Local Open Scope Z_scope.

(** ** JavaScript strings *)

(** A string is the list of its UTF-16 code units, each in [0, 65535]. *)
Abbreviation jsstring := (list Z).

Definition code_unit (a : ascii) : Z := Z.of_nat (nat_of_ascii a).

(** [js "text"]: the code units of an ASCII literal of the source. *)
Definition js (s : string) : jsstring :=
  map code_unit (list_ascii_of_string s).

Definition wf_string (s : jsstring) : Prop :=
  Forall (fun c => 0 <= c < 65536) s.

Definition str_eqb (s t : jsstring) : bool := bool_decide (s = t).

(** [String.prototype.startsWith]. *)
Fixpoint startsWith (s p : jsstring) {struct p} : bool :=
  match p, s with
  | [], _ => true
  | _ :: _, [] => false
  | c :: p', d :: s' => (c =? d) && startsWith s' p'
  end.

(** [String.prototype.slice] with indices already within range and
    non-negative, the only way the source calls it. *)
Definition slice (s : jsstring) (from to : nat) : jsstring :=
  take (to - from) (drop from s).

Definition sliceFrom (s : jsstring) (from : nat) : jsstring := drop from s.

(** White space and line terminators removed by [String.prototype.trim]
    (ECMAScript WhiteSpace and LineTerminator productions). *)
Definition isWhiteSpace (c : Z) : bool :=
  (c =? 9) || (c =? 10) || (c =? 11) || (c =? 12) || (c =? 13) || (c =? 32)
  || (c =? 160) || (c =? 5760) || ((8192 <=? c) && (c <=? 8202))
  || (c =? 8232) || (c =? 8233) || (c =? 8239) || (c =? 8287)
  || (c =? 12288) || (c =? 65279).

Fixpoint trimStart (s : jsstring) : jsstring :=
  match s with
  | c :: s' => if isWhiteSpace c then trimStart s' else s
  | [] => []
  end.

Definition trimEnd (s : jsstring) : jsstring := rev (trimStart (rev s)).

Definition trim (s : jsstring) : jsstring := trimEnd (trimStart s).

(** The template literal of a non-negative integer: its decimal digits. *)
Definition decimalString (n : nat) : jsstring :=
  js (NilZero.string_of_uint (Nat.to_uint n)).

(** ** 32-bit integer operators *)

(** [ToInt32]: wrap into [-2^31, 2^31). *)
Definition toInt32 (z : Z) : Z := (z + 2 ^ 31) mod 2 ^ 32 - 2 ^ 31.

(** [x << n]. *)
Definition shl32 (x n : Z) : Z := toInt32 (Z.shiftl (toInt32 x) (n mod 32)).

(** [x | y]. *)
Definition or32 (x y : Z) : Z := toInt32 (Z.lor (toInt32 x) (toInt32 y)).

(** [x % y] on integer operands: the remainder takes the sign of the
    dividend; a zero divisor gives NaN, which no caller below produces. *)
Definition jsrem (x y : Z) : Z := Z.rem x y.

(** ** Color model: parsing *)

Module ColorModel.

(** A number the parsers produce: NaN, or the rational a numeric text
    denotes; the JavaScript value is the double nearest to it (integers up
    to 255 are themselves, and negative zero is not told from zero). *)
Inductive jsnum :=
| NaN
| Num (q : Q).

Definition isNaN (x : jsnum) : bool :=
  match x with NaN => true | Num _ => false end.

(** Rationals from [2^1024 - 2^970] on round to [Infinity]. *)
Definition isFinite (x : jsnum) : bool :=
  match x with
  | NaN => false
  | Num q =>
      negb (Qle_bool (inject_Z (2 ^ 1024 - 2 ^ 970)) q)
      && negb (Qle_bool q (inject_Z (- (2 ^ 1024 - 2 ^ 970))))
  end.

Definition ofZ (z : Z) : jsnum := Num (inject_Z z).

(** [x / 255]. *)
Definition div255 (x : jsnum) : jsnum :=
  match x with
  | NaN => NaN
  | Num q => Num (q / inject_Z 255)%Q
  end.

Record Color := { r : jsnum; g : jsnum; b : jsnum; a : jsnum }.

Fixpoint takeWhileB (f : Z -> bool) (s : jsstring) : jsstring :=
  match s with
  | c :: s' => if f c then c :: takeWhileB f s' else []
  | [] => []
  end.

Fixpoint dropWhileB (f : Z -> bool) (s : jsstring) : jsstring :=
  match s with
  | c :: s' => if f c then dropWhileB f s' else s
  | [] => []
  end.

Definition nonEmpty (s : jsstring) : bool :=
  match s with [] => false | _ => true end.

Definition isDigit (c : Z) : bool := (48 <=? c) && (c <=? 57).

Definition isNumChar (c : Z) : bool := isDigit c || (c =? 46).

Definition isHexDigit (c : Z) : bool :=
  isDigit c || ((65 <=? c) && (c <=? 70)) || ((97 <=? c) && (c <=? 102)).

Definition hexValue (c : Z) : Z :=
  if isDigit c then c - 48
  else if (65 <=? c) && (c <=? 70) then c - 55
  else c - 87.

Definition hexDigitsValue (digits : jsstring) : Z :=
  fold_left (fun acc c => 16 * acc + hexValue c) digits 0.

Definition decimalDigitsValue (digits : jsstring) : Z :=
  fold_left (fun acc c => 10 * acc + (c - 48)) digits 0.

(** [Number.parseInt(string, 16)]: leading white space, an optional sign,
    an optional [0x] or [0X], then the longest run of hexadecimal digits;
    NaN when that run is empty. *)
Definition parseInt16 (string : jsstring) : jsnum :=
  let text := trimStart string in
  let '(sign, text) :=
    match text with
    | c :: text' =>
        if c =? 45 then (-1, text') else if c =? 43 then (1, text') else (1, text)
    | [] => (1, text)
    end in
  let text :=
    match text with
    | z :: x :: text' =>
        if (z =? 48) && ((x =? 120) || (x =? 88)) then text' else text
    | _ => text
    end in
  match takeWhileB isHexDigit text with
  | [] => NaN
  | digits => ofZ (sign * hexDigitsValue digits)
  end.

(** [hex[i]]: the one-character string at [i]. *)
Definition charAt (s : jsstring) (i : nat) : jsstring := slice s i (i + 1).

(** [parseHexColor(color)]. *)
Definition parseHexColor (color : jsstring) : option Color :=
  let value := trim color in
  if negb (startsWith value (js "#")) then None
  else
    let hex := sliceFrom value 1 in
    if (length hex =? 3)%nat then
      Some {| r := parseInt16 (charAt hex 0 ++ charAt hex 0);
              g := parseInt16 (charAt hex 1 ++ charAt hex 1);
              b := parseInt16 (charAt hex 2 ++ charAt hex 2);
              a := ofZ 1 |}
    else if (length hex =? 6)%nat || (length hex =? 8)%nat then
      let alpha :=
        if (length hex =? 8)%nat then div255 (parseInt16 (slice hex 6 8))
        else ofZ 1 in
      Some {| r := parseInt16 (slice hex 0 2);
              g := parseInt16 (slice hex 2 4);
              b := parseInt16 (slice hex 4 6);
              a := if isNaN alpha then ofZ 1 else alpha |}
    else None.

(** Case folding of the [/i] flag, on what can fold to an ASCII letter. *)
Definition fold (c : Z) : Z :=
  if (97 <=? c) && (c <=? 122) then c - 32 else c.

(** [/^rgba?\(([^)]+)\)$/i.exec(s)]: the first capture group. *)
Definition execRgb (s : jsstring) : option jsstring :=
  match s with
  | c1 :: c2 :: c3 :: rest =>
      if (fold c1 =? 82) && (fold c2 =? 71) && (fold c3 =? 66) then
        let rest :=
          match rest with
          | c4 :: rest4 => if fold c4 =? 65 then rest4 else rest
          | [] => rest
          end in
        match rest with
        | c5 :: body =>
            if c5 =? 40 then
              let inner := takeWhileB (fun c => negb (c =? 41)) body in
              let after := dropWhileB (fun c => negb (c =? 41)) body in
              if nonEmpty inner && str_eqb after [41] then Some inner
              else None
            else None
        | [] => None
        end
      else None
  | _ => None
  end.

(** The digit-and-dot runs of [inner]: [inner.match(/[\d.]+/g) ?? []].
    [cur] is the run being read. *)
Fixpoint numberRuns (cur : jsstring) (inner : jsstring) : list jsstring :=
  match inner with
  | [] => if nonEmpty cur then [cur] else []
  | c :: inner' =>
      if isNumChar c then numberRuns (cur ++ [c]) inner'
      else if nonEmpty cur then cur :: numberRuns [] inner'
      else numberRuns [] inner'
  end.

(** [Number.parseFloat] on a run of digits and dots: the longest prefix
    that is a decimal literal (digits, then optionally a dot and digits; or
    a dot and digits), NaN when there is none. *)
Definition parseFloat (run : jsstring) : jsnum :=
  let intPart := takeWhileB isDigit run in
  let fracPart :=
    match dropWhileB isDigit run with
    | c :: rest => if c =? 46 then takeWhileB isDigit rest else []
    | [] => []
    end in
  match intPart ++ fracPart with
  | [] => NaN
  | digits =>
      Num (decimalDigitsValue digits
             # Z.to_pos (10 ^ Z.of_nat (length fracPart)))
  end.

(** [parseRgbColor(color)]. *)
Definition parseRgbColor (color : jsstring) : option Color :=
  match execRgb (trim color) with
  | None => None
  | Some inner =>
      let channels := map parseFloat (numberRuns [] inner) in
      if (length channels <? 3)%nat || existsb isNaN (take 3 channels) then None
      else
        Some {| r := default NaN (channels !! 0%nat);
                g := default NaN (channels !! 1%nat);
                b := default NaN (channels !! 2%nat);
                a := match channels !! 3%nat with
                     | Some alpha => if isFinite alpha then alpha else ofZ 1
                     | None => ofZ 1
                     end |}
  end.

(** [parseColor(color)]; [None] for the argument is [undefined]. *)
Definition parseColor (color : option jsstring) : option Color :=
  match parseHexColor (default [] color) with
  | Some c => Some c
  | None => parseRgbColor (default [] color)
  end.

End ColorModel.

(** ** Color forms as the specification words them *)

Module ColorSpec.
Import ColorModel.

(** The value of a hexadecimal digit, read off the digit table. *)
Fixpoint indexOf (c : Z) (table : jsstring) : option Z :=
  match table with
  | [] => None
  | d :: table' => if c =? d then Some 0 else Z.succ <$> indexOf c table'
  end.

Definition refDigit (c : Z) : option Z :=
  match indexOf c (js "0123456789abcdef") with
  | Some v => Some v
  | None => indexOf c (js "0123456789ABCDEF")
  end.

Definition refByte (hi lo : Z) : option Z :=
  h ← refDigit hi; l ← refDigit lo; Some (16 * h + l).

(** The reference decoder of the digits after [#]: the three channels,
    and the alpha of the 8-digit form as a count of 255ths. *)
Definition refDecode (digits : jsstring) : option (Z * Z * Z * option Z) :=
  match digits with
  | [r1; g1; b1] =>
      rr ← refByte r1 r1; gg ← refByte g1 g1; bb ← refByte b1 b1;
      Some (rr, gg, bb, None)
  | [r1; r2; g1; g2; b1; b2] =>
      rr ← refByte r1 r2; gg ← refByte g1 g2; bb ← refByte b1 b2;
      Some (rr, gg, bb, None)
  | [r1; r2; g1; g2; b1; b2; a1; a2] =>
      rr ← refByte r1 r2; gg ← refByte g1 g2; bb ← refByte b1 b2;
      aa ← refByte a1 a2;
      Some (rr, gg, bb, Some aa)
  | _ => None
  end.

(** The color a decoded hex form stands for. *)
Definition refColor (d : Z * Z * Z * option Z) : Color :=
  let '(rr, gg, bb, aa) := d in
  {| r := ofZ rr; g := ofZ gg; b := ofZ bb;
     a := match aa with
          | Some n => Num (inject_Z n / inject_Z 255)%Q
          | None => ofZ 1
          end |}.

(** A 3-, 6- or 8-digit hex form: [#] and that many hexadecimal digits. *)
Definition hexForm (v : jsstring) : bool :=
  match v with
  | c :: digits =>
      (c =? 35) && forallb isHexDigit digits
      && ((length digits =? 3) || (length digits =? 6) || (length digits =? 8))%nat
  | [] => false
  end.

Definition isSeparator (c : Z) : bool := (c =? 44) || (c =? 32).

(** The pieces of [inner] between commas and spaces. *)
Fixpoint splitChannels (cur : jsstring) (inner : jsstring) : list jsstring :=
  match inner with
  | [] => if nonEmpty cur then [cur] else []
  | c :: inner' =>
      if isSeparator c
      then if nonEmpty cur then cur :: splitChannels [] inner'
           else splitChannels [] inner'
      else splitChannels (cur ++ [c]) inner'
  end.

(** An unsigned decimal number: digits, optionally a dot and more digits,
    or a dot and digits. *)
Definition isNumberToken (t : jsstring) : bool :=
  match dropWhileB isDigit t with
  | [] => nonEmpty (takeWhileB isDigit t)
  | c :: frac => (c =? 46) && nonEmpty frac && forallb isDigit frac
  end.

(** The text between [rgb(] or [rgba(], in any letter case, and a final
    [)]. *)
Definition rgbBody (v : jsstring) : option jsstring :=
  let body :=
    if str_eqb (map fold (take 4 v)) (js "RGB(") then Some (drop 4 v)
    else if str_eqb (map fold (take 5 v)) (js "RGBA(") then Some (drop 5 v)
    else None in
  match body with
  | Some rest =>
      match rev rest with
      | c :: inner_rev => if c =? 41 then Some (rev inner_rev) else None
      | [] => None
      end
  | None => None
  end.

(** An [rgb()] or [rgba()] form with three or four numeric channels
    separated by commas or spaces. *)
Definition rgbForm (v : jsstring) : bool :=
  match rgbBody v with
  | Some inner =>
      let pieces := splitChannels [] inner in
      forallb isNumberToken pieces
      && ((length pieces =? 3) || (length pieces =? 4))%nat
  | None => false
  end.

(** The forms the specification lists, on the trimmed text. *)
Definition validForm (text : jsstring) : bool :=
  hexForm (trim text) || rgbForm (trim text).

(** Shaped [rgb(...)] or [rgba(...)], whatever is inside: a function name
    in any letter case, a non-empty argument text free of [)], and the
    closing [)]. *)
Definition rgbShaped (v : jsstring) : Prop :=
  exists name inner,
    v = name ++ [40] ++ inner ++ [41]
    /\ (map fold name = js "RGB" \/ map fold name = js "RGBA")
    /\ inner <> [] /\ ~ In 41 inner.

(** The maximal runs of digits and dots of a text, in order. *)
Fixpoint numberGroups (text : jsstring) : list jsstring :=
  match text with
  | [] => []
  | c :: rest =>
      if isNumChar c then
        match rest with
        | d :: _ =>
            if isNumChar d then
              match numberGroups rest with
              | group :: groups => (c :: group) :: groups
              | [] => [[c]]
              end
            else [c] :: numberGroups rest
        | [] => [[c]]
        end
      else numberGroups rest
  end.

(** A run begins a decimal number: a digit first, or a dot and a digit. *)
Definition startsNumber (run : jsstring) : bool :=
  match run with
  | c :: rest =>
      isDigit c
      || ((c =? 46) && match rest with d :: _ => isDigit d | [] => false end)
  | [] => false
  end.

(** The argument text of an [rgb(...)] holds three channels: at least
    three runs of digits and dots, the first three each beginning a
    decimal number. *)
Definition holdsThreeNumbers (inner : jsstring) : bool :=
  (3 <=? length (numberGroups inner))%nat
  && forallb startsNumber (take 3 (numberGroups inner)).

End ColorSpec.

(** ** Color model: luminance and contrast *)

(** Numbers are IEEE 754 binary64 values here, the kernel's floats; a
    decimal constant of the source denotes the same double in both
    languages. *)
Module Contrast.

Set Warnings "-inexact-float".

Record Rgb := { r : float; g : float; b : float }.

(** [Math.max(x, y)]: NaN when either is NaN, and positive zero above
    negative zero. *)
Definition mathMax (x y : float) : float :=
  if is_nan x || is_nan y then nan
  else if (x <? y)%float then y
  else if (y <? x)%float then x
  else if get_sign x then y else x.

(** [Math.min(x, y)]. *)
Definition mathMin (x y : float) : float :=
  if is_nan x || is_nan y then nan
  else if (x <? y)%float then x
  else if (y <? x)%float then y
  else if get_sign x then x else y.

Section Exponentiation.

(** The [**] operator; its value is the engine's. *)
Variable pow : float -> float -> float.

(** [toLinearChannel(channel)]. *)
Definition toLinearChannel (channel : float) : float :=
  let normalized := (channel / 255)%float in
  if (normalized <=? 0.03928)%float
  then (normalized / 12.92)%float
  else pow ((normalized + 0.055) / 1.055)%float 2.4%float.

(** [relativeLuminance(color)]. *)
Definition relativeLuminance (color : Rgb) : float :=
  ((0.2126 * toLinearChannel (r color))
   + (0.7152 * toLinearChannel (g color))
   + (0.0722 * toLinearChannel (b color)))%float.

(** [contrastRatio(first, second)]. *)
Definition contrastRatio (first second : Rgb) : float :=
  let firstLuminance := relativeLuminance first in
  let secondLuminance := relativeLuminance second in
  let lighter := mathMax firstLuminance secondLuminance in
  let darker := mathMin firstLuminance secondLuminance in
  ((lighter + 0.05) / (darker + 0.05))%float.

End Exponentiation.


End Contrast.

(** ** Project tiles: hashing and palette choice *)

Module Projects.

Record Palette := { primary : jsstring; secondary : jsstring }.

Definition PROJECT_GRADIENT_PALETTE : list Palette :=
  [ {| primary := js "#007aff"; secondary := js "#5ac8fa" |};
    {| primary := js "#34c759"; secondary := js "#30d158" |};
    {| primary := js "#ff9500"; secondary := js "#ffcc00" |};
    {| primary := js "#af52de"; secondary := js "#bf5af2" |};
    {| primary := js "#5856d6"; secondary := js "#5e5ce6" |};
    {| primary := js "#ff3b30"; secondary := js "#ff6961" |} ].

Definition HOBBY_PROJECT_GRADIENT_PALETTE : list Palette :=
  [ {| primary := js "#34c759"; secondary := js "#30d158" |};
    {| primary := js "#2fd45c"; secondary := js "#7be495" |};
    {| primary := js "#22c55e"; secondary := js "#86efac" |};
    {| primary := js "#16c784"; secondary := js "#5eead4" |} ].

(** One round of the loop body of [hashString]:
    [hash = ((hash << 5) - hash) + value.charCodeAt(index); hash |= 0]. *)
Definition hashStep (hash c : Z) : Z := or32 ((shl32 hash 5 - hash) + c) 0.

(** [hashString(value)]. *)
Definition hashString (value : jsstring) : Z :=
  Z.abs (fold_left hashStep value 0).

(** An array read [array[k]]: [undefined] off the array. *)
Definition arrayAt {A} (l : list A) (k : Z) : option A :=
  if k <? 0 then None else l !! Z.to_nat k.

(** The [options] argument of [decorateProjectTiles]. *)
Record DecorateOptions := {
  opt_gradientPalette : option (list Palette);
  opt_enableGradients : option bool }.

(** [Array.isArray(options.gradientPalette) && options.gradientPalette.length > 0
     ? options.gradientPalette : PROJECT_GRADIENT_PALETTE]. *)
Definition resolvePalette (options : DecorateOptions) : list Palette :=
  match opt_gradientPalette options with
  | Some p => if (0 <? Z.of_nat (length p)) then p else PROJECT_GRADIENT_PALETTE
  | None => PROJECT_GRADIENT_PALETTE
  end.

(** The theme fields [decorateProjectTiles] writes on a tile. *)
Record TileTheme := {
  tile_gradient : bool;
  use_contrast_text : bool;
  tile_primary_color : option jsstring;
  tile_secondary_color : option jsstring }.

(** The text hashed for the tile at [projectIndex]:
    [`${project.heading ?? "project"}-${projectIndex}`]. *)
Definition hashKey (heading : option jsstring) (projectIndex : nat) : jsstring :=
  default (js "project") heading ++ js "-" ++ decimalString projectIndex.

(** The gradient part of the inner loop body of [decorateProjectTiles], for
    the tile at [projectIndex] in a row pattern of [patternLength] slots.
    [None] is the TypeError of reading [palette.primary] off [undefined]. *)
Definition decorateTheme (options : DecorateOptions) (heading : option jsstring)
    (projectIndex patternLength : nat) : option TileTheme :=
  let enableGradients := default true (opt_enableGradients options) in
  let gradientPalette := resolvePalette options in
  let projectHash := hashString (hashKey heading projectIndex) in
  let useGradient :=
    enableGradients && ((jsrem projectHash 3 =? 0) || (patternLength =? 3)%nat) in
  if useGradient then
    match arrayAt gradientPalette
            (jsrem projectHash (Z.of_nat (length gradientPalette))) with
    | Some palette =>
        Some {| tile_gradient := true; use_contrast_text := true;
                tile_primary_color := Some (primary palette);
                tile_secondary_color := Some (secondary palette) |}
    | None => None
    end
  else
    Some {| tile_gradient := false; use_contrast_text := false;
            tile_primary_color := None; tile_secondary_color := None |}.

End Projects.

(** ** Typewriter engine: markup *)

Module Typewriter.

(** [value.replaceAll(c, by)] for a one-character search string [c]: every
    occurrence of the code unit is replaced, left to right. *)
Definition replaceAllChar (c : Z) (by_ : jsstring) (value : jsstring) : jsstring :=
  flat_map (fun d => if d =? c then by_ else [d]) value.

Definition AMP : Z := 38.
Definition LT : Z := 60.
Definition GT : Z := 62.
Definition QUOT : Z := 34.
Definition APOS : Z := 39.

(** [escapeHTML(value)]: five successive [replaceAll] passes. *)
Definition escapeHTML (value : jsstring) : jsstring :=
  replaceAllChar APOS (js "&#39;")
    (replaceAllChar QUOT (js "&quot;")
      (replaceAllChar GT (js "&gt;")
        (replaceAllChar LT (js "&lt;")
          (replaceAllChar AMP (js "&amp;") value)))).

(** One result of [line.matchAll(regex)]: [match.index] and [match[0]]. *)
Record Match := { m_index : nat; m_term : jsstring }.

(** A highlight pattern is represented by what
    [line.matchAll(new RegExp(pattern.source, "gi"))] yields on a line. *)
Definition HighlightPattern := jsstring -> list Match.

Definition ACCENT_OPEN : jsstring :=
  js "<span class=" ++ [QUOT] ++ js "hero-typewriter-accent" ++ [QUOT] ++ js ">".
Definition SPAN_CLOSE : jsstring := js "</span>".

(** The body of [matches.forEach(match => ...)] in [highlightHeroLine]; the
    state is [(currentIndex, highlighted)]. *)
Definition highlightStep (line : jsstring) (st : nat * jsstring) (m : Match)
  : nat * jsstring :=
  let '(currentIndex, highlighted) := st in
  let index := m_index m in
  let term := m_term m in
  (index + length term,
   highlighted ++ escapeHTML (slice line currentIndex index)
     ++ ACCENT_OPEN ++ escapeHTML term ++ SPAN_CLOSE)%nat.

(** [highlightHeroLine] once the matches are known. *)
Definition highlightMatches (line : jsstring) (matches : list Match) : jsstring :=
  match matches with
  | [] => escapeHTML line
  | _ =>
      let '(currentIndex, highlighted) :=
        fold_left (highlightStep line) matches (0%nat, []) in
      highlighted ++ escapeHTML (sliceFrom line currentIndex)
  end.

(** [highlightHeroLine(line, highlightPattern)]. *)
Definition highlightHeroLine (line : jsstring) (highlightPattern : HighlightPattern)
  : jsstring :=
  highlightMatches line (highlightPattern line).

(** *** The built-in pattern *)

(** Case folding of a [/i] regular expression without the [u] flag, on the
    code units that can equal the folding of an ASCII pattern character. *)
Definition canonicalize (c : Z) : Z :=
  if (97 <=? c) && (c <=? 122) then c - 32 else c.

Fixpoint literalAt (alt s : jsstring) {struct alt} : bool :=
  match alt, s with
  | [], _ => true
  | _ :: _, [] => false
  | a :: alt', d :: s' => (canonicalize a =? canonicalize d) && literalAt alt' s'
  end.

(** The text matched at the head of [s] by an ordered alternation of
    literals: the first alternative that matches wins. *)
Definition alternationAt (alts : list jsstring) (s : jsstring) : option jsstring :=
  match find (fun alt => literalAt alt s) alts with
  | Some alt => Some (take (length alt) s)
  | None => None
  end.

(** [matchAll] of a global alternation of non-empty literals: the leftmost
    match from the current position, then on from the end of that match.
    [skip] counts the characters of the last match still to pass. *)
Fixpoint scanAlternation (alts : list jsstring) (s : jsstring) (pos skip : nat)
  : list Match :=
  match s with
  | [] => []
  | _ :: r =>
      match skip with
      | S k => scanAlternation alts r (S pos) k
      | O =>
          match alternationAt alts s with
          | Some t =>
              {| m_index := pos; m_term := t |}
                :: scanAlternation alts r (S pos) (length t - 1)
          | None => scanAlternation alts r (S pos) 0
          end
      end
  end.

(** The alternatives of [HERO_HIGHLIGHT_PATTERN], optional parts expanded in
    the order the greedy matcher tries them. *)
Definition HERO_HIGHLIGHT_ALTERNATIVES : list jsstring :=
  map js
    [ "127.0.0.1"; "merge conflict"; "edge cases"; "force unwraps"; "swiftui";
      "xcode"; "spinner"; "deploy"; "tests"; "test"; "builds"; "build";
      "source"; "refactor"; "shipping"; "shipped"; "ship"; "app"; "ci"; "qa";
      "swift"; "merge"; "ios"; "engineers"; "engineer"; "coverage";
      "memory leaks"; "memory leak"; "race condition"; "rollback";
      "hotfixes"; "hotfixe"; "production" ]%string.

Definition HERO_HIGHLIGHT_PATTERN : HighlightPattern :=
  fun line => scanAlternation HERO_HIGHLIGHT_ALTERNATIVES line 0 0.

(** *** Lines and pairs *)

Record Pair := { question : jsstring; answer : jsstring }.

(** [lines[index]] as the template literal reads it: the empty string when
    the index is off the array. *)
Definition lineAt (lines : list jsstring) (index : nat) : jsstring :=
  default [] (lines !! index).

(** A string in a boolean position: the empty string is falsy. *)
Definition truthy (s : jsstring) : bool :=
  match s with [] => false | _ => true end.

(** The [for] loop of [buildTypewriterPairs], entered at [index] with the
    pairs pushed so far. *)
Equations? pairsLoop (lines : list jsstring) (index : nat) (pairs : list Pair)
  : list Pair by wf (length lines - index)%nat lt :=
  pairsLoop lines index pairs with decide (index < length lines)%nat => {
    | left _ =>
        if negb (truthy (trim (lineAt lines index)))
           && negb (truthy (trim (lineAt lines (index + 1))))
        then pairsLoop lines (index + 2) pairs
        else pairsLoop lines (index + 2)
               (pairs ++ [ {| question := trim (lineAt lines index);
                              answer := trim (lineAt lines (index + 1)) |} ]);
    | right _ => pairs }.
Proof. all: lia. Qed.

(** [buildTypewriterPairs(lines)]. *)
Definition buildTypewriterPairs (lines : list jsstring) : list Pair :=
  pairsLoop lines 0 [].

(** [buildTypewriterCursorMarkup()]. *)
Definition buildTypewriterCursorMarkup : jsstring :=
  js "<span class=" ++ [QUOT] ++ js "hero-typewriter-cursor" ++ [QUOT]
    ++ js " aria-hidden=" ++ [QUOT] ++ js "true" ++ [QUOT] ++ js ">|</span>".

(** [renderTypewriterLine(line, highlightPattern)]. *)
Definition renderTypewriterLine (line : jsstring) (highlightPattern : HighlightPattern)
  : jsstring :=
  highlightHeroLine line highlightPattern ++ buildTypewriterCursorMarkup.

Inductive CursorTarget := CursorQuestion | CursorAnswer | CursorNone.

(** [renderTypewriterPair(question, answer, highlightPattern, cursorTarget)]. *)
Definition renderTypewriterPair (question answer : jsstring)
    (highlightPattern : HighlightPattern) (cursorTarget : CursorTarget) : jsstring :=
  let questionCursor :=
    match cursorTarget with CursorQuestion => buildTypewriterCursorMarkup | _ => [] end in
  let answerCursor :=
    match cursorTarget with CursorAnswer => buildTypewriterCursorMarkup | _ => [] end in
  let questionMarkup :=
    if truthy question
    then js "<span class=" ++ [QUOT] ++ js "hero-typewriter-question" ++ [QUOT] ++ js ">"
           ++ highlightHeroLine question highlightPattern ++ questionCursor
           ++ js "</span>"
    else [] in
  let answerMarkup :=
    if truthy answer
    then js "<br><span class=" ++ [QUOT] ++ js "hero-typewriter-answer" ++ [QUOT] ++ js ">"
           ++ highlightHeroLine answer highlightPattern ++ answerCursor
           ++ js "</span>"
    else [] in
  questionMarkup ++ answerMarkup.

End Typewriter.

(** ** Typewriter pairs as the specification words them *)

Module PairsSpec.
Import Typewriter.

(** A flat sequence grouped two at a time; an odd trailing element becomes
    a question with an empty answer. *)
Fixpoint groupTwo (lines : list jsstring) : list Pair :=
  match lines with
  | [] => []
  | [q] => [ {| question := q; answer := [] |} ]
  | q :: a :: rest => {| question := q; answer := a |} :: groupTwo rest
  end.

Definition trimPair (p : Pair) : Pair :=
  {| question := trim (question p); answer := trim (answer p) |}.

Definition bothEmpty (p : Pair) : bool :=
  negb (truthy (question p)) && negb (truthy (answer p)).

(** Both parts trimmed, and a pair empty on both sides dropped. *)
Definition specPairs (lines : list jsstring) : list Pair :=
  List.filter (fun p => negb (bothEmpty p)) (map trimPair (groupTwo lines)).

End PairsSpec.

(** ** Reading typewriter markup back *)

(** What a browser makes of the highlighter's output, restricted to the
    markup the highlighter can emit: text with the five character entities
    and accent spans.  Any other tag, a bare ampersand, or a raw [<], [>],
    double or single quote is refused. *)
Module Markup.
Import Typewriter.

Inductive Node :=
| Text (s : jsstring)
| Accent (s : jsstring).

(** The character an entity denotes and the number of code units after the
    ampersand it occupies. *)
Definition entityAt (r : jsstring) : option (Z * nat) :=
  if startsWith r (js "amp;") then Some (AMP, 4%nat)
  else if startsWith r (js "lt;") then Some (LT, 3%nat)
  else if startsWith r (js "gt;") then Some (GT, 3%nat)
  else if startsWith r (js "quot;") then Some (QUOT, 5%nat)
  else if startsWith r (js "#39;") then Some (APOS, 4%nat)
  else None.

Definition consText (c : Z) (ns : list Node) : option (list Node) :=
  match ns with
  | Text t :: ns' => Some (Text (c :: t) :: ns')
  | _ => None
  end.

Definition openAccent (ns : list Node) : option (list Node) :=
  match ns with
  | Text t :: rest => Some (Text [] :: Accent t :: rest)
  | _ => None
  end.

(** [skip] code units of an entity or tag already recognised remain to be
    passed; [inAccent] tells whether an accent span is open.  The result
    alternates text and accent nodes, starting and ending with text. *)
Fixpoint parseMarkup (skip : nat) (inAccent : bool) (s : jsstring)
  : option (list Node) :=
  match s with
  | [] =>
      match skip, inAccent with
      | O, false => Some [Text []]
      | _, _ => None
      end
  | c :: r =>
      match skip with
      | S k => parseMarkup k inAccent r
      | O =>
          if c =? AMP then
            match entityAt r with
            | Some (d, n) => parseMarkup n inAccent r ≫= consText d
            | None => None
            end
          else if c =? LT then
            if inAccent then
              if startsWith s SPAN_CLOSE
              then parseMarkup (length SPAN_CLOSE - 1) false r
                     ≫= (fun ns => Some (Text [] :: ns))
              else None
            else
              if startsWith s ACCENT_OPEN
              then parseMarkup (length ACCENT_OPEN - 1) true r ≫= openAccent
              else None
          else if (c =? GT) || (c =? QUOT) || (c =? APOS) then None
          else parseMarkup 0 inAccent r ≫= consText c
      end
  end.

(** The entity, or the character itself, that stands for [c]. *)
Definition entityOf (c : Z) : jsstring :=
  if c =? AMP then js "&amp;"
  else if c =? LT then js "&lt;"
  else if c =? GT then js "&gt;"
  else if c =? QUOT then js "&quot;"
  else if c =? APOS then js "&#39;"
  else [c].

(** The nodes a highlighted line should consist of: the text between the
    matches as text, each match as an accent. *)
Fixpoint segments (line : jsstring) (cur : nat) (ms : list Match) : list Node :=
  match ms with
  | [] => [Text (sliceFrom line cur)]
  | m :: ms' =>
      Text (slice line cur (m_index m))
        :: Accent (m_term m)
        :: segments line (m_index m + length (m_term m)) ms'
  end.

Definition nodeText (n : Node) : jsstring :=
  match n with Text s | Accent s => s end.

Definition textContent (ns : list Node) : jsstring := concat (map nodeText ns).

Definition accentTexts (ns : list Node) : list jsstring :=
  omap (fun n => match n with Accent s => Some s | Text _ => None end) ns.

Definition renderNode (n : Node) : jsstring :=
  match n with
  | Text s => escapeHTML s
  | Accent s => ACCENT_OPEN ++ escapeHTML s ++ SPAN_CLOSE
  end.

Definition renderNodes (ns : list Node) : jsstring := concat (map renderNode ns).

(** What [matchAll] guarantees of its results whatever the pattern: they
    come in text order without overlap, and each term is the text of the
    line at its index. *)
Fixpoint matchAll_ok_from (line : jsstring) (cur : nat) (ms : list Match) : bool :=
  match ms with
  | [] => true
  | m :: ms' =>
      (cur <=? m_index m)%nat
      && (m_index m + length (m_term m) <=? length line)%nat
      && str_eqb (slice line (m_index m) (m_index m + length (m_term m))) (m_term m)
      && matchAll_ok_from line (m_index m + length (m_term m)) ms'
  end.

Definition matchAll_ok (line : jsstring) (ms : list Match) : bool :=
  matchAll_ok_from line 0 ms.

End Markup.

(** ** Timeline pager and detail modal *)

Module Timeline.
Import Typewriter.

(** [icon.style.animation] of an expand control. *)
Inductive IconAnimation :=
| AnimationUnset
| AnimationMakeX      (* make_x 0.45s cubic-bezier(0.7, 0, 0.2, 1) both *)
| AnimationMakePlus   (* make_plus 0.36s cubic-bezier(0.7, 0, 0.2, 1) both *)
| AnimationNone.      (* none *)

(** An expand control: the checkbox, its label, the container around the
    label and the icon inside it, as the timeline markup nests them. *)
Record PlusControl := {
  checked : bool;
  ariaExpanded : bool;
  labelChecked : bool;
  containerOpen : bool;
  iconAnimating : bool;
  iconAnimation : IconAnimation }.

(** The visual state [setTimelinePlusState] leaves on a control. *)
Definition plusState (isOpen animate : bool) : PlusControl :=
  {| checked := isOpen;
     ariaExpanded := isOpen;
     labelChecked := isOpen;
     containerOpen := isOpen;
     iconAnimating := false;
     iconAnimation :=
       if animate then (if isOpen then AnimationMakeX else AnimationMakePlus)
       else AnimationNone |}.

Record Entry := {
  title : option jsstring;
  subtitle : option jsstring;
  date : option jsstring;
  description : option jsstring }.

Record SlideAttrs := {
  slideActive : bool;        (* class is-active *)
  slideAriaHidden : bool;    (* aria-hidden *)
  slideTabindex : Z }.

Record TriggerAttrs := {
  triggerActive : bool;      (* class is-active *)
  triggerAriaSelected : bool;
  triggerTabindex : Z;
  triggerAriaCurrent : bool }.

Inductive Element :=
| CheckboxElement (c : nat)
| TriggerElement (i : nat).

(** Which of the modal's elements the page has: [openTimelineJobModal]
    needs the modal with its title, meta and description elements,
    [closeTimelineJobModal] the modal alone. *)
Inductive ModalElements := ModalAbsent | ModalBare | ModalComplete.

(** What rendering fixes: the checkboxes matched by [.plus-go-x > input]
    inside each slide (the slide's [data-index] is its position), the
    entries behind [renderedTimelineEntries], and the modal's elements. *)
Record Layout := {
  slides : list (list nat);
  renderedTimelineEntries : list Entry;
  modalElements : ModalElements }.

(** What the pager and the modal mutate.  Controls are held by reference
    (a number); scrolling is not part of the state. *)
Record Page := {
  controls : gmap nat PlusControl;
  slideAttrs : list SlideAttrs;
  triggerAttrs : list TriggerAttrs;
  activeIndex : Z;
  previousDisabled : bool;
  nextDisabled : bool;
  timelineSingle : bool;
  activeTimelineModalCheckbox : option nat;
  modalOpen : bool;          (* class is-open on the modal *)
  modalAriaHidden : bool;
  bodyModalOpen : bool;      (* class timeline-modal-open on the body *)
  modalTitle : jsstring;
  modalMeta : jsstring;
  modalDescription : jsstring;
  focus : option Element }.

Definition withControls (p : Page) (cs : gmap nat PlusControl) : Page :=
  {| controls := cs; slideAttrs := slideAttrs p; triggerAttrs := triggerAttrs p;
     activeIndex := activeIndex p; previousDisabled := previousDisabled p;
     nextDisabled := nextDisabled p; timelineSingle := timelineSingle p;
     activeTimelineModalCheckbox := activeTimelineModalCheckbox p;
     modalOpen := modalOpen p; modalAriaHidden := modalAriaHidden p;
     bodyModalOpen := bodyModalOpen p; modalTitle := modalTitle p;
     modalMeta := modalMeta p; modalDescription := modalDescription p;
     focus := focus p |}.

Definition withFocus (p : Page) (f : option Element) : Page :=
  {| controls := controls p; slideAttrs := slideAttrs p;
     triggerAttrs := triggerAttrs p;
     activeIndex := activeIndex p; previousDisabled := previousDisabled p;
     nextDisabled := nextDisabled p; timelineSingle := timelineSingle p;
     activeTimelineModalCheckbox := activeTimelineModalCheckbox p;
     modalOpen := modalOpen p; modalAriaHidden := modalAriaHidden p;
     bodyModalOpen := bodyModalOpen p; modalTitle := modalTitle p;
     modalMeta := modalMeta p; modalDescription := modalDescription p;
     focus := f |}.

(** [setTimelinePlusState(checkbox, isOpen, animate)]: every attribute of
    the control is written. *)
Definition setTimelinePlusState (p : Page) (checkbox : nat) (isOpen animate : bool)
  : Page :=
  withControls p (<[checkbox := plusState isOpen animate]> (controls p)).

(** [clearTimelinePlusInSlide(slide, animate)]. *)
Definition clearTimelinePlusInSlide (p : Page) (slide : list nat) (animate : bool)
  : Page :=
  fold_left (fun q checkbox => setTimelinePlusState q checkbox false animate)
    slide p.

(** [closeTimelineJobModal({restoreFocus})]. *)
Definition closeTimelineJobModal (L : Layout) (p : Page) (restoreFocus : bool)
  : Page :=
  match modalElements L with
  | ModalAbsent => p
  | _ =>
      let hidden :=
        {| controls := controls p; slideAttrs := slideAttrs p;
           triggerAttrs := triggerAttrs p; activeIndex := activeIndex p;
           previousDisabled := previousDisabled p;
           nextDisabled := nextDisabled p; timelineSingle := timelineSingle p;
           activeTimelineModalCheckbox := None;
           modalOpen := false; modalAriaHidden := true; bodyModalOpen := false;
           modalTitle := modalTitle p; modalMeta := modalMeta p;
           modalDescription := modalDescription p; focus := focus p |} in
      match activeTimelineModalCheckbox p with
      | None => hidden
      | Some previousCheckbox =>
          let q := setTimelinePlusState hidden previousCheckbox false false in
          if restoreFocus
          then withFocus q (Some (CheckboxElement previousCheckbox))
          else q
      end
  end.

(** A template-literal read of an optional field, trimmed. *)
Definition fieldText (f : option jsstring) : jsstring := trim (default [] f).

(** [text.split("\n")]. *)
Fixpoint splitLines (cur : jsstring) (text : jsstring) : list jsstring :=
  match text with
  | [] => [cur]
  | c :: text' =>
      if c =? 10 then cur :: splitLines [] text'
      else splitLines (cur ++ [c]) text'
  end.

(** [parts.join(separator)]. *)
Fixpoint join (separator : jsstring) (parts : list jsstring) : jsstring :=
  match parts with
  | [] => []
  | [x] => x
  | x :: rest => x ++ separator ++ join separator rest
  end.

(** The trimmed, non-empty lines of a description. *)
Definition descriptionLines (entry : Entry) : list jsstring :=
  List.filter truthy (map trim (splitLines [] (default [] (description entry)))).

(** [openTimelineJobModal(entry, triggerCheckbox)]. *)
Definition openTimelineJobModal (L : Layout) (p : Page) (entry : Entry)
    (triggerCheckbox : nat) : Page :=
  match modalElements L with
  | ModalComplete =>
      let p1 :=
        match activeTimelineModalCheckbox p with
        | Some active =>
            if bool_decide (active = triggerCheckbox) then p
            else setTimelinePlusState p active false false
        | None => p
        end in
      let p2 := setTimelinePlusState p1 triggerCheckbox true true in
      {| controls := controls p2; slideAttrs := slideAttrs p2;
         triggerAttrs := triggerAttrs p2; activeIndex := activeIndex p2;
         previousDisabled := previousDisabled p2;
         nextDisabled := nextDisabled p2; timelineSingle := timelineSingle p2;
         activeTimelineModalCheckbox := Some triggerCheckbox;
         modalOpen := true; modalAriaHidden := false; bodyModalOpen := true;
         modalTitle := fieldText (title entry);
         modalMeta :=
           join (js " " ++ [183] ++ js " ")
             (List.filter truthy [fieldText (subtitle entry); fieldText (date entry)]);
         modalDescription :=
           concat (map (fun line => js "<p>" ++ escapeHTML line ++ js "</p>")
                     (descriptionLines entry));
         focus := focus p2 |}
  | _ => p
  end.

(** [slide.contains(checkbox)]. *)
Definition slideContains (slide : list nat) (checkbox : nat) : bool :=
  bool_decide (checkbox ∈ slide).

(** The position of the slide [checkbox.closest(".timeline-pager-slide")]
    finds. *)
Fixpoint closestSlide (slides : list (list nat)) (checkbox : nat) (i : nat)
  : option nat :=
  match slides with
  | [] => None
  | slide :: rest =>
      if slideContains slide checkbox then Some i
      else closestSlide rest checkbox (S i)
  end.

(** [setActiveSlide(index, shouldFocusTrigger, scrollBehavior)] of the
    pager set up over the layout's slides, one trigger per slide.  Indices
    are integers; the sum [index + slides.length] is the integer sum, as
    the sum of the two doubles is while it stays within 2^53 in absolute
    value (beyond that the double sum rounds, which is not modelled). *)
Definition setActiveSlide (L : Layout) (p : Page) (index : Z)
    (shouldFocusTrigger : bool) : Page :=
  let n := Z.of_nat (length (slides L)) in
  let active := jsrem (index + n) n in
  let isActive (i : nat) := Z.of_nat i =? active in
  let cleared :=
    fold_left
      (fun q '(i, slide) =>
         if isActive i then q else clearTimelinePlusInSlide q slide false)
      (imap (fun i slide => (i, slide)) (slides L)) p in
  let p1 :=
    {| controls := controls cleared;
       slideAttrs :=
         imap (fun i _ =>
                 {| slideActive := isActive i;
                    slideAriaHidden := negb (isActive i);
                    slideTabindex := if isActive i then 0 else -1 |})
              (slides L);
       triggerAttrs :=
         imap (fun i _ =>
                 {| triggerActive := isActive i;
                    triggerAriaSelected := isActive i;
                    triggerTabindex := if isActive i then 0 else -1;
                    triggerAriaCurrent := isActive i |})
              (slides L);
       activeIndex := active;
       previousDisabled := (n <=? 1);
       nextDisabled := (n <=? 1);
       timelineSingle := (n <=? 1);
       activeTimelineModalCheckbox := activeTimelineModalCheckbox p;
       modalOpen := modalOpen p; modalAriaHidden := modalAriaHidden p;
       bodyModalOpen := bodyModalOpen p; modalTitle := modalTitle p;
       modalMeta := modalMeta p; modalDescription := modalDescription p;
       focus := focus p |} in
  let activeSlide := Projects.arrayAt (slides L) active in
  let p2 :=
    match activeTimelineModalCheckbox p1 with
    | Some owner =>
        if match activeSlide with
           | Some slide => slideContains slide owner
           | None => false
           end
        then p1
        else closeTimelineJobModal L p1 false
    | None => p1
    end in
  if shouldFocusTrigger then
    match activeSlide with
    | Some _ => withFocus p2 (Some (TriggerElement (Z.to_nat active)))
    | None => p2
    end
  else p2.

(** [timelinePlusGoXHandler(event)] for a change event on [checkbox]. *)
Definition timelinePlusGoXHandler (L : Layout) (p : Page) (checkbox : nat) : Page :=
  match closestSlide (slides L) checkbox 0 with
  | None => p
  | Some index =>
      match renderedTimelineEntries L !! index with
      | None => setTimelinePlusState p checkbox false false
      | Some entry =>
          let hasDescription := truthy (trim (default [] (description entry))) in
          if negb hasDescription then setTimelinePlusState p checkbox false false
          else
            match controls p !! checkbox with
            | Some {| checked := true |} => openTimelineJobModal L p entry checkbox
            | _ =>
                setTimelinePlusState (closeTimelineJobModal L p false)
                  checkbox false true
            end
      end
  end.

(** What the user can do to the pager and the modal. *)
Inductive Event :=
| ClickTrigger (i : nat)
| ClickPrevious
| ClickNext
| KeyArrowLeft
| KeyArrowRight
| KeyEscape
| ClickModalClose
| ToggleControl (c : nat).

(** The browser flips the checkbox before the change event is delivered. *)
Definition flipChecked (p : Page) (c : nat) : Page :=
  withControls p
    (alter (fun st =>
              {| checked := negb (checked st); ariaExpanded := ariaExpanded st;
                 labelChecked := labelChecked st;
                 containerOpen := containerOpen st;
                 iconAnimating := iconAnimating st;
                 iconAnimation := iconAnimation st |}) c (controls p)).

(** The listeners [setupTimelinePager], [initTimelineModalBehavior] and the
    change delegation install. *)
Definition handle (L : Layout) (p : Page) (e : Event) : Page :=
  match e with
  | ClickTrigger i => setActiveSlide L p (Z.of_nat i) true
  | ClickPrevious => setActiveSlide L p (activeIndex p - 1) false
  | ClickNext => setActiveSlide L p (activeIndex p + 1) false
  | KeyArrowLeft => setActiveSlide L p (activeIndex p - 1) true
  | KeyArrowRight => setActiveSlide L p (activeIndex p + 1) true
  | KeyEscape => closeTimelineJobModal L p true
  | ClickModalClose => closeTimelineJobModal L p true
  | ToggleControl c => timelinePlusGoXHandler L (flipChecked p c) c
  end.

(** A control as [renderIntro] writes it: unchecked, [aria-expanded]
    false, no class set, no animation. *)
Definition renderedControl : PlusControl :=
  {| checked := false; ariaExpanded := false; labelChecked := false;
     containerOpen := false; iconAnimating := false;
     iconAnimation := AnimationUnset |}.

(** [hasDetails] of [renderIntro]: the description is not blank. *)
Definition hasDetails (entry : Entry) : bool :=
  truthy (trim (default [] (description entry))).

(** The slides [renderIntro] writes for the entries: slide [i] holds one
    expand control, named [i] here, when entry [i] has details. *)
Definition renderIntroLayout (entries : list Entry) (modal : ModalElements)
  : Layout :=
  {| slides := imap (fun i entry => if hasDetails entry then [i] else []) entries;
     renderedTimelineEntries := entries;
     modalElements := modal |}.

(** The page once the timeline markup is written, before the pager is set
    up: the first slide active, the modal closed and not owned. *)
Definition renderedPage (L : Layout) : Page :=
  {| controls := list_to_map ((fun c => (c, renderedControl)) <$> concat (slides L));
     slideAttrs :=
       imap (fun i _ =>
               {| slideActive := bool_decide (i = 0%nat);
                  slideAriaHidden := negb (bool_decide (i = 0%nat));
                  slideTabindex := if bool_decide (i = 0%nat) then 0 else -1 |})
            (slides L);
     triggerAttrs := [];
     activeIndex := 0;
     previousDisabled := false;
     nextDisabled := false;
     timelineSingle := false;
     activeTimelineModalCheckbox := None;
     modalOpen := false;
     modalAriaHidden := true;
     bodyModalOpen := false;
     modalTitle := [];
     modalMeta := [];
     modalDescription := [];
     focus := None |}.

(** [setupTimelinePager()]: nothing without slides; else the slide marked
    active, the first, is made the active slide. *)
Definition setupTimelinePager (L : Layout) : Page :=
  match slides L with
  | [] => renderedPage L
  | _ => setActiveSlide L (renderedPage L) 0 false
  end.

(** The page after a sequence of user events. *)
Definition run (L : Layout) (events : list Event) : Page :=
  fold_left (handle L) events (setupTimelinePager L).

End Timeline.

(** ** Typewriter engine: waits, loops and sessions *)

Module Engine.
Import Typewriter.

Definition HERO_TYPING_DELAY_MS : Z := 52.
Definition HERO_TYPING_JITTER_MS : Z := 26.
Definition HERO_ERASE_DELAY_MS : Z := 16.
Definition HERO_HOLD_DELAY_MS : Z := 3600.
Definition HERO_ANSWER_START_DELAY_MS : Z := 2000.
Definition HERO_BETWEEN_LINES_DELAY_MS : Z := 120.
Definition HERO_ANIMATION_START_DELAY_MS : Z := 650.

Definition HERO_FALLBACK_ROTATING_LINES : list jsstring :=
  map js
    [ "May the source be with you.";
      "These are the builds you're looking for.";
      "Live long and refactor.";
      "Boldly shipping where no app has shipped before.";
      "One does not simply ship on Friday.";
      "So we let CI decide.";
      "Winter is coming. So are edge cases.";
      "Good thing tests travel in packs.";
      "Houston, we have a merge conflict.";
      "Resolving at T-minus deploy.";
      "The app awakens.";
      "SwiftUI strikes back.";
      "Keep calm and let Xcode index.";
      "I ship when the spinner stops.";
      "There is no place like 127.0.0.1.";
      "Until QA says otherwise.";
      "In Swift we trust.";
      "In CI we verify.";
      "With great power comes great merge responsibility.";
      "And fewer force unwraps." ]%string.

(** The message of the error a cancelled wait rejects with. *)
Definition ABORT_MESSAGE : jsstring := js "Hero typewriter aborted".

(** The message standing for the TypeError of reading [length] off
    [undefined]. *)
Definition TYPE_ERROR : jsstring := js "TypeError".

Inductive Settlement :=
| Pending
| Fulfilled
| Rejected (message : jsstring).

(** The promise [waitForDelay] returns, with the timer and the abort
    listener its executor installs. *)
Record Wait := {
  duration : Z;
  promise : Settlement;
  timerArmed : bool;
  abortListener : bool }.

(** A promise settles once. *)
Definition settle (current next : Settlement) : Settlement :=
  match current with Pending => next | _ => current end.

(** [waitForDelay(durationMs, signal)]; [signal] is [None] when no signal
    is given and else tells whether the signal is aborted at the call. *)
Definition waitForDelay (durationMs : Z) (signal : option bool) : Wait :=
  match signal with
  | None =>
      {| duration := durationMs; promise := Pending; timerArmed := true;
         abortListener := false |}
  | Some true =>
      {| duration := durationMs; promise := Rejected ABORT_MESSAGE;
         timerArmed := false; abortListener := false |}
  | Some false =>
      {| duration := durationMs; promise := Pending; timerArmed := true;
         abortListener := true |}
  end.

(** The timer callback: the listener is removed and the promise resolved. *)
Definition onTimeout (w : Wait) : Wait :=
  if timerArmed w then
    {| duration := duration w; promise := settle (promise w) Fulfilled;
       timerArmed := false; abortListener := false |}
  else w.

(** The [abort] listener: the timer is cleared, the listener removed and
    the promise rejected. *)
Definition onAbort (w : Wait) : Wait :=
  if abortListener w then
    {| duration := duration w;
       promise := settle (promise w) (Rejected ABORT_MESSAGE);
       timerArmed := false; abortListener := false |}
  else w.

(** Where a loop is suspended: the wait it awaits belongs to this step. *)
Inductive Phase :=
| Typing (count : nat)
| Holding
| Erasing (count : nat)
| BetweenLines
| TypingQuestion (count : nat)
| AnswerStartDelay
| TypingAnswer (count : nat)
| HoldingPair
| ErasingAnswer (count : nat)
| ErasingQuestion (count : nat)
| BetweenPairs.

(** A suspended loop: the line or pair index, the step, the content of the
    text element and the number of random draws made. *)
Record Runner := {
  index : nat;
  phase : Phase;
  innerHTML : jsstring;
  draws : nat }.

(** What running a loop up to its next [await] gives. *)
Inductive Progress :=
| Awaiting (r : Runner) (w : Wait)
| Returned (html : jsstring)
| Threw (message : jsstring) (html : jsstring).

Section Loops.

(** The lines, the pattern, the jitter [Math.floor(Math.random() *
    HERO_TYPING_JITTER_MS)] of each draw, and whether the signal is aborted
    while the code runs. *)
Variable lines : list jsstring.
Variable highlightPattern : HighlightPattern.
Variable jitter : nat -> Z.
Variable aborted : bool.

(** [await waitForDelay(durationMs, signal)] reached with the runner in
    state [r]: an already rejected promise throws at once. *)
Definition await (r : Runner) (durationMs : Z) : Progress :=
  let w := waitForDelay durationMs (Some aborted) in
  match promise w with
  | Rejected message => Threw message (innerHTML r)
  | _ => Awaiting r w
  end.

(** [lines[lineIndex % lines.length]]. *)
Definition currentLine (lineIndex : nat) : option jsstring :=
  match lines with
  | [] => None
  | _ => lines !! (lineIndex mod length lines)%nat
  end.

(** The typing [for] loop of [runHeroTypewriter] entered at [count]. *)
Definition typingFrom (lineIndex : nat) (line : jsstring) (count : nat)
    (html : jsstring) (n : nat) : Progress :=
  if (count <=? length line)%nat then
    if aborted then Returned html
    else
      let html' := renderTypewriterLine (take count line) highlightPattern in
      await {| index := lineIndex; phase := Typing count; innerHTML := html';
               draws := S n |}
            (HERO_TYPING_DELAY_MS + jitter n)
  else
    await {| index := lineIndex; phase := Holding; innerHTML := html; draws := n |}
          HERO_HOLD_DELAY_MS.

(** The erasing [for] loop entered at [count]; [None] is -1. *)
Definition erasingFrom (lineIndex : nat) (line : jsstring) (count : option nat)
    (html : jsstring) (n : nat) : Progress :=
  match count with
  | Some count =>
      if aborted then Returned html
      else
        let html' := renderTypewriterLine (take count line) highlightPattern in
        await {| index := lineIndex; phase := Erasing count; innerHTML := html';
                 draws := n |}
              HERO_ERASE_DELAY_MS
  | None =>
      await {| index := lineIndex; phase := BetweenLines; innerHTML := html;
               draws := n |}
            HERO_BETWEEN_LINES_DELAY_MS
  end.

(** [count - 1] of a loop counting down to 0. *)
Definition countDown (count : nat) : option nat :=
  match count with O => None | S k => Some k end.

(** The head of the [while] loop of [runHeroTypewriter]. *)
Definition lineLoop (lineIndex : nat) (html : jsstring) (n : nat) : Progress :=
  if aborted then Returned html
  else
    match currentLine lineIndex with
    | None => Threw TYPE_ERROR html
    | Some line => typingFrom lineIndex line 1 html n
    end.

(** [runHeroTypewriter] resumed after the wait of its phase is fulfilled. *)
Definition resumeLine (r : Runner) : Progress :=
  let html := innerHTML r in
  let n := draws r in
  match currentLine (index r) with
  | None => Threw TYPE_ERROR html
  | Some line =>
      match phase r with
      | Typing count => typingFrom (index r) line (S count) html n
      | Holding => erasingFrom (index r) line (countDown (length line)) html n
      | Erasing count => erasingFrom (index r) line (countDown count) html n
      | _ => lineLoop ((index r + 1) mod length lines)%nat html n
      end
  end.

(** The pairs of [runHeroPairTypewriter]. *)
Definition pairs : list Pair := buildTypewriterPairs lines.

Definition currentPair (pairIndex : nat) : option Pair :=
  match pairs with
  | [] => None
  | _ => pairs !! (pairIndex mod length pairs)%nat
  end.

Definition typingAnswerFrom (pairIndex : nat) (p : Pair) (count : nat)
    (html : jsstring) (n : nat) : Progress :=
  if (count <=? length (answer p))%nat then
    if aborted then Returned html
    else
      let html' :=
        renderTypewriterPair (question p) (take count (answer p))
          highlightPattern CursorAnswer in
      await {| index := pairIndex; phase := TypingAnswer count;
               innerHTML := html'; draws := S n |}
            (HERO_TYPING_DELAY_MS + jitter n)
  else
    await {| index := pairIndex; phase := HoldingPair; innerHTML := html;
             draws := n |}
          HERO_HOLD_DELAY_MS.

Definition typingQuestionFrom (pairIndex : nat) (p : Pair) (count : nat)
    (html : jsstring) (n : nat) : Progress :=
  if (count <=? length (question p))%nat then
    if aborted then Returned html
    else
      let html' :=
        renderTypewriterPair (take count (question p)) [] highlightPattern
          CursorQuestion in
      await {| index := pairIndex; phase := TypingQuestion count;
               innerHTML := html'; draws := S n |}
            (HERO_TYPING_DELAY_MS + jitter n)
  else if (0 <? length (question p))%nat && (0 <? length (answer p))%nat then
    await {| index := pairIndex; phase := AnswerStartDelay; innerHTML := html;
             draws := n |}
          HERO_ANSWER_START_DELAY_MS
  else typingAnswerFrom pairIndex p 1 html n.

Definition erasingQuestionFrom (pairIndex : nat) (p : Pair) (count : option nat)
    (html : jsstring) (n : nat) : Progress :=
  match count with
  | Some count =>
      if aborted then Returned html
      else
        let html' :=
          renderTypewriterPair (take count (question p)) [] highlightPattern
            CursorQuestion in
        await {| index := pairIndex; phase := ErasingQuestion count;
                 innerHTML := html'; draws := n |}
              HERO_ERASE_DELAY_MS
  | None =>
      await {| index := pairIndex; phase := BetweenPairs; innerHTML := html;
               draws := n |}
            HERO_BETWEEN_LINES_DELAY_MS
  end.

Definition erasingAnswerFrom (pairIndex : nat) (p : Pair) (count : option nat)
    (html : jsstring) (n : nat) : Progress :=
  match count with
  | Some count =>
      if aborted then Returned html
      else
        let html' :=
          renderTypewriterPair (question p) (take count (answer p))
            highlightPattern CursorAnswer in
        await {| index := pairIndex; phase := ErasingAnswer count;
                 innerHTML := html'; draws := n |}
              HERO_ERASE_DELAY_MS
  | None =>
      erasingQuestionFrom pairIndex p (countDown (length (question p))) html n
  end.

(** The head of the [while] loop of [runHeroPairTypewriter]. *)
Definition pairLoop (pairIndex : nat) (html : jsstring) (n : nat) : Progress :=
  if aborted then Returned html
  else
    match currentPair pairIndex with
    | None => Threw TYPE_ERROR html
    | Some p => typingQuestionFrom pairIndex p 1 html n
    end.

(** [runHeroPairTypewriter] with pairs, resumed after the wait of its
    phase is fulfilled. *)
Definition resumePair (r : Runner) : Progress :=
  let html := innerHTML r in
  let n := draws r in
  match currentPair (index r) with
  | None => Threw TYPE_ERROR html
  | Some p =>
      match phase r with
      | TypingQuestion count => typingQuestionFrom (index r) p (S count) html n
      | AnswerStartDelay => typingAnswerFrom (index r) p 1 html n
      | TypingAnswer count => typingAnswerFrom (index r) p (S count) html n
      | HoldingPair =>
          erasingAnswerFrom (index r) p (countDown (length (answer p))) html n
      | ErasingAnswer count =>
          erasingAnswerFrom (index r) p (countDown count) html n
      | ErasingQuestion count =>
          erasingQuestionFrom (index r) p (countDown count) html n
      | _ => pairLoop ((index r + 1) mod length pairs)%nat html n
      end
  end.

(** The runner [startHeroTypewriter] picks, from its first statement;
    without pairs the pair runner hands over to the line runner. *)
Definition startRunner (renderAsPairs : bool) (html : jsstring) : Progress :=
  if renderAsPairs && (0 <? length pairs)%nat then pairLoop 0 html 0
  else lineLoop 0 html 0.

(** The loop a suspended runner belongs to is told by its phase. *)
Definition resume (r : Runner) : Progress :=
  match phase r with
  | Typing _ | Holding | Erasing _ | BetweenLines => resumeLine r
  | _ => resumePair r
  end.

End Loops.

(** How the promise of a runner ended, as the [setTimeout] callback and the
    [catch] handler of [startHeroTypewriter] see it. *)
Inductive Ending :=
| NeverRan          (* the signal was aborted before the start delay ran out *)
| LoopReturned      (* the runner returned *)
| AbortSwallowed    (* rejected with the abort message: the handler returns *)
| ErrorLogged (message : jsstring).   (* any other rejection: console.error *)

Inductive SessionState :=
| Starting
| Running (r : Runner) (w : Wait)
| Ended (e : Ending).

(** One call of [startHeroTypewriter] past the reduced-motion check: its
    lines, options, abort signal and text element. *)
Record Session := {
  sessionLines : list jsstring;
  sessionPattern : HighlightPattern;
  sessionPairs : bool;
  sessionJitter : nat -> Z;
  signalAborted : bool;
  sessionState : SessionState;
  textHTML : jsstring }.

(** The [catch] handler: [error instanceof Error && error.message ===
    "Hero typewriter aborted"]. *)
Definition catchRunner (message : jsstring) : Ending :=
  if str_eqb message ABORT_MESSAGE then AbortSwallowed else ErrorLogged message.

Definition withState (s : Session) (aborted : bool) (st : SessionState)
    (html : jsstring) : Session :=
  {| sessionLines := sessionLines s; sessionPattern := sessionPattern s;
     sessionPairs := sessionPairs s; sessionJitter := sessionJitter s;
     signalAborted := aborted; sessionState := st; textHTML := html |}.

(** The session after its runner has run up to the next [await]. *)
Definition advance (s : Session) (pr : Progress) : Session :=
  match pr with
  | Awaiting r w => withState s (signalAborted s) (Running r w) (innerHTML r)
  | Returned html => withState s (signalAborted s) (Ended LoopReturned) html
  | Threw message html =>
      withState s (signalAborted s) (Ended (catchRunner message)) html
  end.

Inductive SessionEvent :=
| TimerFired      (* the pending timer of the session runs out *)
| AbortCalled.    (* [controller.abort()] *)

(** One event delivered to a session. *)
Definition sessionStep (s : Session) (e : SessionEvent) : Session :=
  match e with
  | AbortCalled =>
      match sessionState s with
      | Running r w =>
          if signalAborted s then s
          else
            let w' := onAbort w in
            match promise w' with
            | Rejected message =>
                withState s true (Ended (catchRunner message)) (textHTML s)
            | _ => withState s true (Running r w') (textHTML s)
            end
      | st => withState s true st (textHTML s)
      end
  | TimerFired =>
      match sessionState s with
      | Starting =>
          if signalAborted s
          then withState s true (Ended NeverRan) (textHTML s)
          else
            advance s
              (startRunner (sessionLines s) (sessionPattern s) (sessionJitter s)
                 (signalAborted s) (sessionPairs s) (textHTML s))
      | Running r w =>
          match promise (onTimeout w) with
          | Fulfilled =>
              advance s
                (resume (sessionLines s) (sessionPattern s) (sessionJitter s)
                   (signalAborted s) r)
          | Rejected message =>
              withState s (signalAborted s) (Ended (catchRunner message))
                (textHTML s)
          | Pending => s
          end
      | Ended _ => s
      end
  end.

Definition sessionRun (s : Session) (events : list SessionEvent) : Session :=
  fold_left sessionStep events s.

(** The session [startHeroTypewriter] registers: a new controller, the
    start delay pending, an empty text element. *)
Definition freshSession (lines : list jsstring) (pattern : HighlightPattern)
    (asPairs : bool) (jitter : nat -> Z) : Session :=
  {| sessionLines := lines; sessionPattern := pattern; sessionPairs := asPairs;
     sessionJitter := jitter; signalAborted := false; sessionState := Starting;
     textHTML := [] |}.

(** The [options] of [startHeroTypewriter]. *)
Record TypewriterOptions := {
  accentColor : option jsstring;
  highlightPattern : option HighlightPattern;
  renderAsPairs : option bool }.

Definition DEFAULT_TYPEWRITER_ACCENT : jsstring := js "var(--azure)".

(** The heading an animation is mounted on: its classes, accent variable
    and label, the text element now attached with its content, the
    session registered in [typewriterControllers], and the sessions whose
    text elements were detached by later starts. *)
Record Heading := {
  typewriterTarget : bool;
  typewriterStatic : bool;
  typewriterAccent : option jsstring;
  ariaLabel : option jsstring;
  ariaLive : option jsstring;
  attachedText : jsstring;
  controller : option Session;
  detached : list Session }.

(** [startHeroTypewriter(headingElement, lines, options)];
    [reducedMotion] is what the media query answers. *)
Definition startHeroTypewriter (h : Heading) (lines : list jsstring)
    (options : TypewriterOptions) (jitter : nat -> Z) (reducedMotion : bool)
  : Heading :=
  let superseded :=
    match controller h with
    | Some existing => sessionStep existing AbortCalled :: detached h
    | None => detached h
    end in
  let accent := default DEFAULT_TYPEWRITER_ACCENT (accentColor options) in
  let pattern := default HERO_HIGHLIGHT_PATTERN (highlightPattern options) in
  let asPairs := default false (renderAsPairs options) in
  let resolvedLines :=
    match lines with [] => HERO_FALLBACK_ROTATING_LINES | _ => lines end in
  let firstPair := head (buildTypewriterPairs resolvedLines) in
  let firstLine : option jsstring :=
    if asPairs then
      match firstPair with
      | Some p =>
          if truthy (question p) then Some (question p)
          else if truthy (answer p) then Some (answer p)
          else head resolvedLines
      | None => head resolvedLines
      end
    else head resolvedLines in
  let label := default [] firstLine in
  if reducedMotion then
    {| typewriterTarget := true; typewriterStatic := true;
       typewriterAccent := Some accent; ariaLabel := Some label;
       ariaLive := Some (js "off");
       attachedText :=
         if asPairs then
           match firstPair with
           | Some p =>
               renderTypewriterPair (question p) (answer p) pattern CursorNone
           | None => renderTypewriterPair label [] pattern CursorNone
           end
         else highlightHeroLine label pattern;
       controller := None; detached := superseded |}
  else
    {| typewriterTarget := true; typewriterStatic := false;
       typewriterAccent := Some accent; ariaLabel := Some label;
       ariaLive := Some (js "off");
       attachedText := [];
       controller := Some (freshSession resolvedLines pattern asPairs jitter);
       detached := superseded |}.

(** An event of the registered session; the attached text element is the
    one that session writes. *)
Definition headingStep (h : Heading) (e : SessionEvent) : Heading :=
  match controller h with
  | Some s =>
      let s' := sessionStep s e in
      {| typewriterTarget := typewriterTarget h;
         typewriterStatic := typewriterStatic h;
         typewriterAccent := typewriterAccent h; ariaLabel := ariaLabel h;
         ariaLive := ariaLive h; attachedText := textHTML s';
         controller := Some s'; detached := detached h |}
  | None => h
  end.

End Engine.

(** ** Hero lines *)

Module Hero.
Import Typewriter Engine.

(** The [content] object of a section: [typewriter_lines] when it is an
    array, its items strings or missing, and [heading]. *)
Record Content := {
  typewriter_lines : option (list (option jsstring));
  heading : option jsstring }.

(** [resolveHeroRotatingLines(content)]. *)
Definition resolveHeroRotatingLines (content : Content) : list jsstring :=
  let configuredLines :=
    match typewriter_lines content with
    | Some lines =>
        List.filter truthy (map (fun line => trim (default [] line)) lines)
    | None => []
    end in
  if (0 <? length configuredLines)%nat then configuredLines
  else
    let headingText := trim (default [] (heading content)) in
    if truthy headingText then [headingText]
    else HERO_FALLBACK_ROTATING_LINES.

End Hero.

(** * Part II: properties *)

Lemma toInt32_range z : - 2 ^ 31 <= toInt32 z < 2 ^ 31.
Proof.
  unfold toInt32.
  pose proof (Z.mod_pos_bound (z + 2 ^ 31) (2 ^ 32) ltac:(lia)). lia.
Qed.

Lemma toInt32_id z : - 2 ^ 31 <= z < 2 ^ 31 -> toInt32 z = z.
Proof.
  intros Hz. unfold toInt32. rewrite Z.mod_small; lia.
Qed.

Lemma or32_zero z : or32 z 0 = toInt32 z.
Proof.
  unfold or32. rewrite (toInt32_id 0) by lia.
  rewrite Z.lor_0_r. apply toInt32_id, toInt32_range.
Qed.

Module ProjectsFacts.
Import Projects.

Lemma hashStep_range hash c : - 2 ^ 31 <= hashStep hash c < 2 ^ 31.
Proof. unfold hashStep. rewrite or32_zero. apply toInt32_range. Qed.

Lemma fold_left_keeps {A B} (P : A -> Prop) (f : A -> B -> A) (l : list B) :
  (forall a b, P (f a b)) -> forall a, P a -> P (fold_left f l a).
Proof.
  intros Hf. induction l as [|b l IH]; intros a Ha; [exact Ha|].
  apply IH, Hf.
Qed.

Lemma hash_fold_range value : forall hash,
  - 2 ^ 31 <= hash < 2 ^ 31 ->
  - 2 ^ 31 <= fold_left hashStep value hash < 2 ^ 31.
Proof.
  intros hash Hh.
  exact (fold_left_keeps (fun h => - 2 ^ 31 <= h < 2 ^ 31) hashStep value
           hashStep_range hash Hh).
Qed.

Lemma hashString_bounds value : 0 <= hashString value <= 2 ^ 31.
Proof.
  unfold hashString.
  pose proof (hash_fold_range value 0 ltac:(lia)). lia.
Qed.

Lemma resolvePalette_nonempty options : (0 < length (resolvePalette options))%nat.
Proof.
  unfold resolvePalette.
  destruct (opt_gradientPalette options) as [p|]; [|simpl; lia].
  destruct (0 <? Z.of_nat (length p)) eqn:E; [|simpl; lia].
  apply Z.ltb_lt in E. lia.
Qed.

Lemma arrayAt_in_range {A} (l : list A) (h : Z) :
  0 <= h -> (0 < length l)%nat ->
  is_Some (arrayAt l (jsrem h (Z.of_nat (length l)))).
Proof.
  intros Hh Hl. unfold arrayAt, jsrem.
  pose proof (Z.rem_bound_pos h (Z.of_nat (length l)) Hh ltac:(lia)) as Hb.
  destruct (Z.rem h (Z.of_nat (length l)) <? 0) eqn:E.
  - apply Z.ltb_lt in E. lia.
  - apply lookup_lt_is_Some. lia.
Qed.

(** C10: [hashString] returns a non-negative integer, the absolute value of
    the accumulator wrapped to 32 bits, for every string; hence the palette
    read [gradientPalette[projectHash % gradientPalette.length]] of
    [decorateProjectTiles] is inside the palette for every options object,
    heading and tile position, and the tile theme is always produced. *)
Theorem hashString_palette_in_bounds :
  forall (value : jsstring) (options : DecorateOptions)
         (heading : option jsstring) (projectIndex patternLength : nat),
    0 <= hashString value
    /\ (exists acc, - 2 ^ 31 <= acc < 2 ^ 31 /\ hashString value = Z.abs acc)
    /\ (let palette := resolvePalette options in
        let k := jsrem (hashString (hashKey heading projectIndex))
                       (Z.of_nat (length palette)) in
        0 <= k < Z.of_nat (length palette) /\ is_Some (arrayAt palette k))
    /\ is_Some (decorateTheme options heading projectIndex patternLength).
Proof.
  intros value options heading projectIndex patternLength.
  pose proof (resolvePalette_nonempty options) as Hne.
  pose proof (hashString_bounds (hashKey heading projectIndex)) as Hk.
  split; [apply hashString_bounds|].
  split.
  { exists (fold_left hashStep value 0). split; [|reflexivity].
    apply hash_fold_range. lia. }
  split.
  { cbv zeta. split.
    - unfold jsrem. apply Z.rem_bound_pos; lia.
    - apply arrayAt_in_range; lia. }
  unfold decorateTheme. cbv zeta.
  destruct (default true (opt_enableGradients options) && _); [|eauto].
  destruct (arrayAt_in_range (resolvePalette options)
              (hashString (hashKey heading projectIndex))) as [p Hp]; [lia|lia|].
  rewrite Hp. eauto.
Qed.

End ProjectsFacts.

(** ** Typewriter pairs *)

Module PairsFacts.
Import Typewriter PairsSpec.

Lemma trim_nil : trim [] = [].
Proof. reflexivity. Qed.

Lemma drop_two_step (lines : list jsstring) (index : nat) :
  (index < length lines)%nat ->
  groupTwo (drop index lines)
  = {| question := lineAt lines index; answer := lineAt lines (index + 1) |}
      :: groupTwo (drop (index + 2) lines).
Proof.
  revert index. induction lines as [|l lines IH]; intros index Hlt; simpl in Hlt.
  - lia.
  - destruct index as [|index].
    + destruct lines as [|l' lines]; reflexivity.
    + simpl. rewrite IH by lia. reflexivity.
Qed.

Lemma pairsLoop_spec (lines : list jsstring) (index : nat) (pairs : list Pair) :
  pairsLoop lines index pairs = pairs ++ specPairs (drop index lines).
Proof.
  funelim (pairsLoop lines index pairs).
  - unfold specPairs. rewrite drop_two_step by assumption.
    cbn [map List.filter]. unfold bothEmpty at 1, trimPair at 1 2.
    cbn [question answer].
    destruct (negb (truthy (trim (lineAt lines index)))
              && negb (truthy (trim (lineAt lines (index + 1))))) eqn:E;
      cbn [negb].
    + match goal with IH : pairsLoop _ _ pairs = _ ++ _ |- _ => rewrite IH end.
      reflexivity.
    + match goal with IH : pairsLoop _ _ (_ ++ _) = _ ++ _ |- _ => rewrite IH end.
      rewrite <- app_assoc. reflexivity.
  - rewrite drop_ge by lia. unfold specPairs. simpl. rewrite app_nil_r.
    reflexivity.
Qed.

(** C8: [buildTypewriterPairs] groups the lines two at a time into
    question/answer pairs with both parts trimmed, an odd trailing line
    becoming a question with an empty answer, and drops a pair whose trimmed
    question and answer are both empty; on [["Q1","A1","Q2"]] it yields
    [[{Q1, A1}, {Q2, empty}]]. *)
Theorem buildTypewriterPairs_groups :
  (forall lines : list jsstring, buildTypewriterPairs lines = specPairs lines)
  /\ (forall q : jsstring,
        buildTypewriterPairs [q] = if truthy (trim q)
                                   then [ {| question := trim q; answer := [] |} ]
                                   else [])
  /\ buildTypewriterPairs [js "Q1"; js "A1"; js "Q2"]
     = [ {| question := js "Q1"; answer := js "A1" |};
         {| question := js "Q2"; answer := [] |} ].
Proof.
  assert (H : forall lines, buildTypewriterPairs lines = specPairs lines).
  { intros lines. unfold buildTypewriterPairs. rewrite pairsLoop_spec.
    reflexivity. }
  split; [exact H|]. split.
  - intros q. rewrite H. unfold specPairs. simpl.
    unfold bothEmpty. simpl. destruct (truthy (trim q)); reflexivity.
  - rewrite H. reflexivity.
Qed.

End PairsFacts.

(** ** Typewriter markup *)

Module MarkupFacts.
Import Typewriter Markup.

Lemma replaceAllChar_app c by_ a b :
  replaceAllChar c by_ (a ++ b) = replaceAllChar c by_ a ++ replaceAllChar c by_ b.
Proof. unfold replaceAllChar. apply flat_map_app. Qed.

Lemma escapeHTML_app a b : escapeHTML (a ++ b) = escapeHTML a ++ escapeHTML b.
Proof. unfold escapeHTML. rewrite !replaceAllChar_app. reflexivity. Qed.

Lemma escapeHTML_one c : escapeHTML [c] = entityOf c.
Proof.
  unfold entityOf, AMP, LT, GT, QUOT, APOS.
  destruct (Z.eqb_spec c 38) as [->|N1]; [reflexivity|].
  destruct (Z.eqb_spec c 60) as [->|N2]; [reflexivity|].
  destruct (Z.eqb_spec c 62) as [->|N3]; [reflexivity|].
  destruct (Z.eqb_spec c 34) as [->|N4]; [reflexivity|].
  destruct (Z.eqb_spec c 39) as [->|N5]; [reflexivity|].
  apply Z.eqb_neq in N1, N2, N3, N4, N5.
  unfold escapeHTML, replaceAllChar, AMP, LT, GT, QUOT, APOS.
  cbn [flat_map]. rewrite N1. cbn [app flat_map]. rewrite N2. cbn [app flat_map].
  rewrite N3. cbn [app flat_map]. rewrite N4. cbn [app flat_map].
  rewrite N5. reflexivity.
Qed.

Lemma escapeHTML_cons c s : escapeHTML (c :: s) = entityOf c ++ escapeHTML s.
Proof.
  change (c :: s) with ([c] ++ s). rewrite escapeHTML_app, escapeHTML_one.
  reflexivity.
Qed.

(** Every occurrence of the five reserved characters is replaced by its
    entity and every other character is kept. *)
Lemma escapeHTML_charwise s : escapeHTML s = flat_map entityOf s.
Proof.
  induction s as [|c s IH]; [reflexivity|].
  rewrite escapeHTML_cons, IH. reflexivity.
Qed.

Lemma startsWith_app p x : startsWith (p ++ x) p = true.
Proof.
  induction p as [|c p IH]; [destruct x; reflexivity|].
  simpl. rewrite Z.eqb_refl, IH. reflexivity.
Qed.

Lemma parseMarkup_skip p : forall b r,
  parseMarkup (length p) b (p ++ r) = parseMarkup 0 b r.
Proof.
  induction p as [|c p IH]; intros b r; [reflexivity|].
  simpl. apply IH.
Qed.

(** Replace the literals of the goal by their code units. *)
Ltac eval_js :=
  repeat match goal with
    | |- context [js ?s] =>
        let v := eval vm_compute in (js s) in change (js s) with v
    end.

Lemma parseMarkup_amp b body d rest :
  entityAt (body ++ rest) = Some (d, length body) ->
  parseMarkup 0 b (AMP :: body ++ rest) = parseMarkup 0 b rest ≫= consText d.
Proof.
  intros He. cbn [parseMarkup]. rewrite Z.eqb_refl, He, parseMarkup_skip.
  reflexivity.
Qed.

Lemma parseMarkup_entity c b rest t ns :
  parseMarkup 0 b rest = Some (Text t :: ns) ->
  parseMarkup 0 b (entityOf c ++ rest) = Some (Text (c :: t) :: ns).
Proof.
  intros Hrest. unfold entityOf.
  destruct (Z.eqb_spec c AMP) as [->|N1].
  { change (js "&amp;" ++ rest) with (AMP :: js "amp;" ++ rest).
    rewrite (parseMarkup_amp b (js "amp;") AMP rest eq_refl), Hrest.
    reflexivity. }
  destruct (Z.eqb_spec c LT) as [->|N2].
  { change (js "&lt;" ++ rest) with (AMP :: js "lt;" ++ rest).
    rewrite (parseMarkup_amp b (js "lt;") LT rest eq_refl), Hrest.
    reflexivity. }
  destruct (Z.eqb_spec c GT) as [->|N3].
  { change (js "&gt;" ++ rest) with (AMP :: js "gt;" ++ rest).
    rewrite (parseMarkup_amp b (js "gt;") GT rest eq_refl), Hrest.
    reflexivity. }
  destruct (Z.eqb_spec c QUOT) as [->|N4].
  { change (js "&quot;" ++ rest) with (AMP :: js "quot;" ++ rest).
    rewrite (parseMarkup_amp b (js "quot;") QUOT rest eq_refl), Hrest.
    reflexivity. }
  destruct (Z.eqb_spec c APOS) as [->|N5].
  { change (js "&#39;" ++ rest) with (AMP :: js "#39;" ++ rest).
    rewrite (parseMarkup_amp b (js "#39;") APOS rest eq_refl), Hrest.
    reflexivity. }
  apply Z.eqb_neq in N1, N2, N3, N4, N5.
  cbn [app parseMarkup]. rewrite N1, N2, N3, N4, N5. cbn [orb].
  rewrite Hrest. reflexivity.
Qed.

Lemma parseMarkup_escaped s : forall b rest t ns,
  parseMarkup 0 b rest = Some (Text t :: ns) ->
  parseMarkup 0 b (escapeHTML s ++ rest) = Some (Text (s ++ t) :: ns).
Proof.
  induction s as [|c s IH]; intros b rest t ns Hrest; [exact Hrest|].
  rewrite escapeHTML_cons, <- app_assoc.
  apply parseMarkup_entity, IH, Hrest.
Qed.

Lemma parseMarkup_close rest u ns :
  parseMarkup 0 false rest = Some (Text u :: ns) ->
  parseMarkup 0 true (SPAN_CLOSE ++ rest) = Some (Text [] :: Text u :: ns).
Proof.
  intros Hrest.
  change (SPAN_CLOSE ++ rest) with (60 :: (js "/span>" ++ rest)).
  cbn [parseMarkup]. change (60 =? AMP) with false. change (60 =? LT) with true.
  cbn iota.
  change (60 :: (js "/span>" ++ rest)) with (SPAN_CLOSE ++ rest).
  rewrite startsWith_app.
  change (length SPAN_CLOSE - 1)%nat with (length (js "/span>")).
  rewrite parseMarkup_skip, Hrest. reflexivity.
Qed.

Lemma parseMarkup_accent term rest u ns :
  parseMarkup 0 false rest = Some (Text u :: ns) ->
  parseMarkup 0 false (ACCENT_OPEN ++ escapeHTML term ++ SPAN_CLOSE ++ rest)
  = Some (Text [] :: Accent term :: Text u :: ns).
Proof.
  intros Hrest.
  pose proof (parseMarkup_escaped term true _ _ _ (parseMarkup_close _ _ _ Hrest))
    as Hin.
  rewrite app_nil_r in Hin.
  set (inner := escapeHTML term ++ SPAN_CLOSE ++ rest) in *.
  pose (tl := js "span class=" ++ [QUOT] ++ js "hero-typewriter-accent"
                ++ [QUOT] ++ js ">").
  change (ACCENT_OPEN ++ inner) with (60 :: (tl ++ inner)).
  cbn [parseMarkup]. change (60 =? AMP) with false. change (60 =? LT) with true.
  cbn iota.
  change (60 :: (tl ++ inner)) with (ACCENT_OPEN ++ inner).
  rewrite startsWith_app.
  change (length ACCENT_OPEN - 1)%nat with (length tl).
  rewrite parseMarkup_skip, Hin. reflexivity.
Qed.

Lemma segments_head line cur ms :
  exists t ns, segments line cur ms = Text t :: ns.
Proof. destruct ms; simpl; eauto. Qed.

(** Rendering the expected nodes and reading the markup back gives the
    nodes again. *)
Lemma parseMarkup_renderNodes line ms : forall cur,
  parseMarkup 0 false (renderNodes (segments line cur ms))
  = Some (segments line cur ms).
Proof.
  induction ms as [|m ms IH]; intros cur.
  - unfold renderNodes. cbn [segments map concat renderNode].
    rewrite (parseMarkup_escaped _ false [] [] []) by reflexivity.
    rewrite app_nil_r. reflexivity.
  - unfold renderNodes in *. cbn [segments map concat renderNode].
    specialize (IH (m_index m + length (m_term m))%nat).
    destruct (segments_head line (m_index m + length (m_term m)) ms)
      as (u & ns & Hseg).
    rewrite Hseg in IH |- *.
    rewrite <- !app_assoc.
    rewrite (parseMarkup_escaped _ false _ [] _ (parseMarkup_accent _ _ _ _ IH)).
    rewrite app_nil_r. reflexivity.
Qed.

Lemma highlight_fold line ms : forall cur hl,
  (let '(cur', hl') := fold_left (highlightStep line) ms (cur, hl) in
   hl' ++ escapeHTML (sliceFrom line cur'))
  = hl ++ renderNodes (segments line cur ms).
Proof.
  induction ms as [|m ms IH]; intros cur hl.
  - unfold renderNodes. simpl. rewrite app_nil_r. reflexivity.
  - cbn [fold_left highlightStep]. rewrite IH.
    unfold renderNodes. cbn [segments map concat renderNode].
    rewrite <- !app_assoc. reflexivity.
Qed.

(** The code's output is the rendering of the expected nodes. *)
Lemma highlightMatches_render line ms :
  highlightMatches line ms = renderNodes (segments line 0 ms).
Proof.
  destruct ms as [|m ms].
  - unfold renderNodes. simpl. rewrite app_nil_r. reflexivity.
  - unfold highlightMatches.
    pose proof (highlight_fold line (m :: ms) 0 []) as H.
    destruct (fold_left (highlightStep line) (m :: ms) (0%nat, []))
      as [cur' hl']. exact H.
Qed.

Lemma take_take_drop (l : jsstring) (cur idx len : nat) :
  (cur <= idx)%nat ->
  slice l cur idx ++ slice l idx (idx + len) ++ drop (idx + len) l = drop cur l.
Proof.
  intros Hle. unfold slice.
  replace (idx + len - idx)%nat with len by lia.
  rewrite <- (drop_drop l len idx), (take_drop len (drop idx l)).
  replace (drop idx l) with (drop (idx - cur) (drop cur l)).
  - apply take_drop.
  - rewrite drop_drop. f_equal. lia.
Qed.

Lemma textContent_segments line ms : forall cur,
  matchAll_ok_from line cur ms = true ->
  textContent (segments line cur ms) = drop cur line.
Proof.
  induction ms as [|m ms IH]; intros cur Hok.
  - unfold textContent. simpl. apply app_nil_r.
  - cbn [matchAll_ok_from] in Hok.
    apply andb_prop in Hok as [Hok Hrest].
    apply andb_prop in Hok as [Hok Hterm].
    apply andb_prop in Hok as [Hcur Hend].
    apply Nat.leb_le in Hcur.
    unfold str_eqb in Hterm. apply bool_decide_eq_true in Hterm.
    unfold textContent in *. cbn [segments map concat nodeText].
    rewrite (IH _ Hrest). rewrite <- Hterm at 1.
    apply take_take_drop, Hcur.
Qed.

Lemma accentTexts_segments line ms : forall cur,
  accentTexts (segments line cur ms) = map m_term ms.
Proof.
  induction ms as [|m ms IH]; intros cur; [reflexivity|].
  unfold accentTexts in *. cbn [segments omap]. simpl. f_equal. apply IH.
Qed.

(** C7: for every line and every highlight pattern (through the match list
    [matchAll] yields for it), the markup of [highlightHeroLine] replaces
    each of the five reserved characters of the line by its entity, in
    matched and unmatched text alike; read back, the markup consists of text
    and accent spans only, its text is the line itself, and the accent spans
    hold exactly the matches. *)
Theorem highlightHeroLine_escapes_text :
  forall (line : jsstring) (highlightPattern : HighlightPattern),
    matchAll_ok line (highlightPattern line) = true ->
    let nodes := segments line 0 (highlightPattern line) in
    highlightHeroLine line highlightPattern = renderNodes nodes
    /\ (forall text, escapeHTML text = flat_map entityOf text)
    /\ parseMarkup 0 false (highlightHeroLine line highlightPattern) = Some nodes
    /\ textContent nodes = line
    /\ accentTexts nodes = map m_term (highlightPattern line).
Proof.
  intros line highlightPattern Hok nodes. subst nodes.
  unfold highlightHeroLine. rewrite highlightMatches_render.
  split; [reflexivity|]. split; [apply escapeHTML_charwise|].
  split; [apply parseMarkup_renderNodes|].
  split; [|apply accentTexts_segments].
  unfold matchAll_ok in Hok. rewrite (textContent_segments _ _ _ Hok).
  reflexivity.
Qed.

Lemma matchAll_ok_from_le line ms cur cur' :
  (cur <= cur')%nat ->
  matchAll_ok_from line cur' ms = true -> matchAll_ok_from line cur ms = true.
Proof.
  intros Hle. destruct ms as [|m ms]; [trivial|].
  cbn [matchAll_ok_from]. intros H.
  apply andb_prop in H as [H Hrest]. apply andb_prop in H as [H Hterm].
  apply andb_prop in H as [Hcur Hend]. apply Nat.leb_le in Hcur.
  rewrite Hrest, Hterm, Hend, !andb_true_r. apply Nat.leb_le. lia.
Qed.

Lemma literalAt_length alt : forall s,
  literalAt alt s = true -> (length alt <= length s)%nat.
Proof.
  induction alt as [|a alt IH]; intros s H; simpl; [lia|].
  destruct s as [|d s]; [discriminate|]. simpl in H.
  apply andb_prop in H as [_ H]. apply IH in H. simpl. lia.
Qed.

Lemma alternationAt_take alts s t :
  alternationAt alts s = Some t ->
  (length t <= length s)%nat /\ take (length t) s = t.
Proof.
  unfold alternationAt.
  destruct (find (fun alt => literalAt alt s) alts) as [alt|] eqn:E;
    [|discriminate].
  intros [= <-]. apply find_some in E as [_ E]. apply literalAt_length in E.
  rewrite length_take, Nat.min_l by lia. split; [lia|reflexivity].
Qed.

(** The scanner of an alternation of literals meets the [matchAll]
    contract on every line; so does the built-in pattern. *)
Lemma scanAlternation_ok alts line s : forall pos skip,
  drop pos line = s ->
  matchAll_ok_from line (pos + skip) (scanAlternation alts s pos skip) = true.
Proof.
  induction s as [|c r IH]; intros pos skip Hdrop; [reflexivity|].
  assert (Hr : drop (S pos) line = r).
  { replace (S pos) with (pos + 1)%nat by lia.
    rewrite <- (drop_drop line 1 pos), Hdrop. reflexivity. }
  assert (Hlen : (length (c :: r) + pos <= length line)%nat).
  { rewrite <- Hdrop, length_drop.
    destruct (decide (pos < length line)%nat); [lia|].
    rewrite drop_ge in Hdrop by lia. discriminate. }
  cbn [scanAlternation]. destruct skip as [|k].
  - destruct (alternationAt alts (c :: r)) as [t|] eqn:E.
    + apply alternationAt_take in E as [Ht Htake].
      cbn [matchAll_ok_from m_index m_term].
      rewrite (matchAll_ok_from_le line _ (pos + length t) (S pos + (length t - 1)))
        by (try lia; apply IH, Hr).
      unfold slice. replace (pos + length t - pos)%nat with (length t) by lia.
      rewrite Hdrop, Htake. unfold str_eqb. rewrite bool_decide_eq_true_2 by done.
      rewrite !andb_true_r. apply andb_true_intro. split; apply Nat.leb_le; lia.
    + apply (matchAll_ok_from_le line _ _ (S pos + 0)); [lia|]. apply IH, Hr.
  - replace (pos + S k)%nat with (S pos + k)%nat by lia. apply IH, Hr.
Qed.

Lemma HERO_HIGHLIGHT_PATTERN_ok line :
  matchAll_ok line (HERO_HIGHLIGHT_PATTERN line) = true.
Proof.
  unfold matchAll_ok, HERO_HIGHLIGHT_PATTERN.
  apply (scanAlternation_ok _ line line 0 0). reflexivity.
Qed.

Definition sample_line : jsstring :=
  js "<b>Ship & 'deploy' it</b> " ++ [QUOT] ++ js "x" ++ [QUOT] ++ js ">".

Lemma highlightHeroLine_escapes_text_witness :
  parseMarkup 0 false (highlightHeroLine sample_line HERO_HIGHLIGHT_PATTERN)
  = Some [ Text (js "<b>"); Accent (js "Ship"); Text (js " & '");
           Accent (js "deploy");
           Text (js "' it</b> " ++ [QUOT] ++ js "x" ++ [QUOT] ++ js ">") ].
Proof.
  exact (proj1 (proj2 (proj2
    (highlightHeroLine_escapes_text sample_line HERO_HIGHLIGHT_PATTERN
       eq_refl)))).
Defined.

End MarkupFacts.

(** ** Color parsing *)

Module ColorFacts.
Import ColorModel ColorSpec.

#[local] Instance Q_eq_dec : EqDecision Q.
Proof. solve_decision. Defined.

#[local] Instance jsnum_eq_dec : EqDecision jsnum.
Proof. solve_decision. Defined.

Definition hexDigits : jsstring := js "0123456789ABCDEFabcdef".

Lemma isHexDigit_In c : isHexDigit c = true -> In c hexDigits.
Proof.
  unfold isHexDigit, isDigit.
  rewrite !orb_true_iff, !andb_true_iff, !Z.leb_le.
  intros H. vm_compute. lia.
Qed.

(** [parseInt] of two hexadecimal digits agrees with the digit table. *)
Definition byteAgrees (hi lo : Z) : bool :=
  bool_decide (Some (parseInt16 [hi; lo]) = ofZ <$> refByte hi lo).

Lemma byteAgrees_all :
  forallb (fun hi => forallb (byteAgrees hi) hexDigits) hexDigits = true.
Proof. vm_compute. reflexivity. Qed.

Lemma parseInt16_ref hi lo :
  isHexDigit hi = true -> isHexDigit lo = true ->
  exists n, refByte hi lo = Some n /\ parseInt16 [hi; lo] = ofZ n.
Proof.
  intros Hhi Hlo. apply isHexDigit_In in Hhi, Hlo.
  pose proof byteAgrees_all as Hall.
  rewrite forallb_forall in Hall. specialize (Hall hi Hhi).
  rewrite forallb_forall in Hall. specialize (Hall lo Hlo).
  unfold byteAgrees in Hall. apply bool_decide_eq_true in Hall.
  destruct (refByte hi lo) as [n|]; [|discriminate].
  exists n. split; [reflexivity|]. simpl in Hall. congruence.
Qed.

Lemma hexForm_inv v :
  hexForm v = true ->
  exists digits, v = 35 :: digits /\ forallb isHexDigit digits = true
    /\ (length digits = 3 \/ length digits = 6 \/ length digits = 8)%nat.
Proof.
  destruct v as [|c digits]; [discriminate|]. simpl.
  rewrite !andb_true_iff, !orb_true_iff, !Nat.eqb_eq, Z.eqb_eq.
  intros [[-> Hd] Hl]. exists digits. split; [reflexivity|]. split; [exact Hd|lia].
Qed.

Ltac hex_byte hi lo H1 H2 n Hn Hp :=
  destruct (parseInt16_ref hi lo H1 H2) as (n & Hn & Hp).

(** Every hex form decodes to the channels of the reference decoder. *)
Lemma parseColor_hexForm text :
  hexForm (trim text) = true ->
  exists d, refDecode (drop 1 (trim text)) = Some d
            /\ parseColor (Some text) = Some (refColor d).
Proof.
  intros Hform. apply hexForm_inv in Hform as (digits & Hv & Hd & Hl).
  unfold parseColor, parseHexColor.
  change (default [] (Some text)) with text. rewrite Hv.
  change (startsWith (35 :: digits) (js "#")) with true.
  change (drop 1 (35 :: digits)) with digits.
  change (sliceFrom (35 :: digits) 1) with digits. cbn [negb].
  destruct digits as [|d0 [|d1 [|d2 [|d3 [|d4 [|d5 [|d6 [|d7 [|d8 ?]]]]]]]]];
    simpl in Hl; try lia; clear Hl;
    cbn [forallb] in Hd; rewrite ?andb_true_iff in Hd.
  - destruct Hd as (H0 & H1 & H2 & _).
    hex_byte d0 d0 H0 H0 n0 Hn0 Hp0. hex_byte d1 d1 H1 H1 n1 Hn1 Hp1.
    hex_byte d2 d2 H2 H2 n2 Hn2 Hp2.
    exists (n0, n1, n2, None). cbn [refDecode]. rewrite Hn0, Hn1, Hn2.
    split; [reflexivity|]. cbn. rewrite Hp0, Hp1, Hp2. reflexivity.
  - destruct Hd as (H0 & H1 & H2 & H3 & H4 & H5 & _).
    hex_byte d0 d1 H0 H1 n0 Hn0 Hp0. hex_byte d2 d3 H2 H3 n1 Hn1 Hp1.
    hex_byte d4 d5 H4 H5 n2 Hn2 Hp2.
    exists (n0, n1, n2, None). cbn [refDecode]. rewrite Hn0, Hn1, Hn2.
    split; [reflexivity|]. cbn. rewrite Hp0, Hp1, Hp2. reflexivity.
  - destruct Hd as (H0 & H1 & H2 & H3 & H4 & H5 & H6 & H7 & _).
    hex_byte d0 d1 H0 H1 n0 Hn0 Hp0. hex_byte d2 d3 H2 H3 n1 Hn1 Hp1.
    hex_byte d4 d5 H4 H5 n2 Hn2 Hp2. hex_byte d6 d7 H6 H7 n3 Hn3 Hp3.
    exists (n0, n1, n2, Some n3). cbn [refDecode]. rewrite Hn0, Hn1, Hn2, Hn3.
    split; [reflexivity|]. cbn. rewrite Hp0, Hp1, Hp2, Hp3. reflexivity.
Qed.

Lemma takeWhileB_dropWhileB f s : takeWhileB f s ++ dropWhileB f s = s.
Proof.
  induction s as [|c s IH]; [reflexivity|]. simpl.
  destruct (f c); [simpl; rewrite IH|]; reflexivity.
Qed.

Lemma takeWhileB_all f s : forallb f (takeWhileB f s) = true.
Proof.
  induction s as [|c s IH]; [reflexivity|]. simpl.
  destruct (f c) eqn:E; [simpl; rewrite E, IH|]; reflexivity.
Qed.

Lemma takeWhileB_id f s : forallb f s = true -> takeWhileB f s = s.
Proof.
  induction s as [|c s IH]; [reflexivity|]. simpl.
  intros H. apply andb_prop in H as [-> H]. rewrite IH; trivial.
Qed.

Lemma whileB_stop f s c rest :
  forallb f s = true -> f c = false ->
  takeWhileB f (s ++ c :: rest) = s /\ dropWhileB f (s ++ c :: rest) = c :: rest.
Proof.
  intros Hs Hc. induction s as [|d s IH]; simpl.
  - rewrite Hc. split; reflexivity.
  - simpl in Hs. apply andb_prop in Hs as [-> Hs].
    destruct (IH Hs) as [-> ->]. split; reflexivity.
Qed.

Lemma isDigit_isNumChar c : isDigit c = true -> isNumChar c = true.
Proof. unfold isNumChar. intros ->. reflexivity. Qed.

Lemma forallb_impl (f h : Z -> bool) s :
  (forall c, f c = true -> h c = true) ->
  forallb f s = true -> forallb h s = true.
Proof.
  intros Himp. induction s as [|c s IH]; [trivial|]. simpl.
  intros H. apply andb_prop in H as [Hc H]. rewrite (Himp _ Hc), IH; trivial.
Qed.

Lemma isNumberToken_chars t :
  isNumberToken t = true -> forallb isNumChar t = true.
Proof.
  unfold isNumberToken. intros H.
  rewrite <- (takeWhileB_dropWhileB isDigit t), forallb_app.
  rewrite (forallb_impl isDigit isNumChar _ isDigit_isNumChar
             (takeWhileB_all isDigit t)).
  destruct (dropWhileB isDigit t) as [|c frac]; [reflexivity|].
  apply andb_prop in H as [H Hfrac]. apply andb_prop in H as [Hc _].
  simpl. unfold isNumChar at 1. rewrite Hc, orb_true_r.
  apply (forallb_impl isDigit isNumChar _ isDigit_isNumChar Hfrac).
Qed.

(** A number token parses to a number. *)
Lemma isNumberToken_parseFloat t :
  isNumberToken t = true -> exists q, parseFloat t = Num q.
Proof.
  unfold isNumberToken, parseFloat. intros H.
  destruct (dropWhileB isDigit t) as [|c frac].
  - rewrite app_nil_r. destruct (takeWhileB isDigit t); [discriminate|eauto].
  - apply andb_prop in H as [H Hfrac]. apply andb_prop in H as [-> Hne].
    rewrite (takeWhileB_id _ _ Hfrac).
    destruct frac as [|d frac]; [discriminate|].
    destruct (takeWhileB isDigit t); simpl; eauto.
Qed.

(** On a character of a form a separator is what is not a digit or dot. *)
Definition okChar (c : Z) : Prop := isNumChar c = negb (isSeparator c).

Lemma separator_not_num c : isSeparator c = true -> isNumChar c = false.
Proof.
  unfold isSeparator. rewrite orb_true_iff, !Z.eqb_eq.
  intros [-> | ->]; reflexivity.
Qed.

Lemma splitChannels_chars inner : forall cur,
  forallb (forallb isNumChar) (splitChannels cur inner) = true ->
  forallb isNumChar cur = true /\ Forall okChar inner.
Proof.
  induction inner as [|c inner IH]; intros cur H; simpl in H.
  - split; [|constructor]. destruct cur; [reflexivity|].
    simpl in H. rewrite andb_true_r in H. exact H.
  - destruct (isSeparator c) eqn:Hsep.
    + assert (Hc : okChar c).
      { unfold okChar. rewrite Hsep. apply separator_not_num, Hsep. }
      destruct cur as [|d cur]; simpl in H.
      * destruct (IH [] H) as [_ Hin]. split; [reflexivity|]. constructor; trivial.
      * apply andb_prop in H as [Hcur H]. destruct (IH [] H) as [_ Hin].
        split; [exact Hcur|]. constructor; trivial.
    + destruct (IH _ H) as [Hcur Hin]. rewrite forallb_app in Hcur.
      apply andb_prop in Hcur as [Hcur Hc]. simpl in Hc.
      rewrite andb_true_r in Hc. split; [exact Hcur|].
      constructor; [|exact Hin]. unfold okChar. rewrite Hsep, Hc. reflexivity.
Qed.

(** On the text of a form, the digit-and-dot runs the code extracts are
    the pieces between the separators. *)
Lemma splitChannels_numberRuns inner : forall cur,
  Forall okChar inner -> splitChannels cur inner = numberRuns cur inner.
Proof.
  induction inner as [|c inner IH]; intros cur Hok; [reflexivity|].
  inversion Hok as [|? ? Hc Hin]; subst. simpl. unfold okChar in Hc.
  rewrite Hc. destruct (isSeparator c); simpl; rewrite !IH by assumption;
    reflexivity.
Qed.

Lemma fold_paren c : fold c = 40 -> c = 40.
Proof.
  unfold fold. destruct ((97 <=? c) && (c <=? 122)) eqn:E; [|trivial].
  apply andb_prop in E as [E1 E2]. apply Z.leb_le in E1, E2. lia.
Qed.

Lemma rev_last_inv (l : jsstring) c l' : rev l = c :: l' -> l = rev l' ++ [c].
Proof.
  intros H. rewrite <- (rev_involutive l), H. reflexivity.
Qed.

Lemma rgbBody_inv v inner :
  rgbBody v = Some inner ->
  exists name, v = name ++ [40] ++ inner ++ [41]
               /\ (map fold name = js "RGB" \/ map fold name = js "RGBA").
Proof.
  unfold rgbBody, str_eqb.
  destruct (bool_decide (map fold (take 4 v) = js "RGB(")) eqn:E3.
  - apply bool_decide_eq_true in E3.
    destruct v as [|c1 [|c2 [|c3 [|c4 rest]]]]; try discriminate E3.
    injection E3 as E1 E2 E3 E4. apply fold_paren in E4. subst c4.
    change (drop 4 (c1 :: c2 :: c3 :: 40 :: rest)) with rest.
    destruct (rev rest) as [|c inner_rev] eqn:Er; [discriminate|].
    destruct (Z.eqb_spec c 41) as [->|]; [|discriminate].
    intros [= <-]. apply rev_last_inv in Er. subst rest.
    exists [c1; c2; c3]. split; [reflexivity|]. left. simpl.
    rewrite E1, E2, E3. reflexivity.
  - destruct (bool_decide (map fold (take 5 v) = js "RGBA(")) eqn:E4;
      [|discriminate].
    apply bool_decide_eq_true in E4.
    destruct v as [|c1 [|c2 [|c3 [|c4 [|c5 rest]]]]]; try discriminate E4.
    injection E4 as E1 E2 E3' E4 E5. apply fold_paren in E5. subst c5.
    change (drop 5 (c1 :: c2 :: c3 :: c4 :: 40 :: rest)) with rest.
    destruct (rev rest) as [|c inner_rev] eqn:Er; [discriminate|].
    destruct (Z.eqb_spec c 41) as [->|]; [|discriminate].
    intros [= <-]. apply rev_last_inv in Er. subst rest.
    exists [c1; c2; c3; c4]. split; [reflexivity|]. right. simpl.
    rewrite E1, E2, E3', E4. reflexivity.
Qed.

Lemma not_paren_all inner :
  ~ In 41 inner -> forallb (fun c => negb (c =? 41)) inner = true.
Proof.
  induction inner as [|c inner IH]; [trivial|]. simpl. intros H.
  destruct (Z.eqb_spec c 41) as [->|]; [tauto|]. simpl. apply IH. tauto.
Qed.

(** The regular expression accepts exactly the [rgb(...)] shape. *)
Lemma execRgb_complete name inner :
  (map fold name = js "RGB" \/ map fold name = js "RGBA") ->
  inner <> [] -> ~ In 41 inner ->
  execRgb (name ++ [40] ++ inner ++ [41]) = Some inner.
Proof.
  intros Hname Hne Hparen. apply not_paren_all in Hparen.
  destruct (whileB_stop (fun c => negb (c =? 41)) inner 41 [] Hparen eq_refl)
    as [Htake Hdrop].
  destruct Hname as [Hname|Hname].
  - destruct name as [|c1 [|c2 [|c3 [|? ?]]]]; try discriminate Hname.
    injection Hname as E1 E2 E3. cbn [app execRgb].
    rewrite E1, E2, E3. change (code_unit "R" =? 82) with true.
    change (code_unit "G" =? 71) with true.
    change (code_unit "B" =? 66) with true.
    change (fold 40 =? 65) with false. cbn [andb]. change (40 =? 40) with true.
    cbn iota. rewrite Htake, Hdrop. destruct inner; [congruence|reflexivity].
  - destruct name as [|c1 [|c2 [|c3 [|c4 [|? ?]]]]]; try discriminate Hname.
    injection Hname as E1 E2 E3 E4. cbn [app execRgb].
    rewrite E1, E2, E3, E4. change (code_unit "R" =? 82) with true.
    change (code_unit "G" =? 71) with true.
    change (code_unit "B" =? 66) with true.
    change (code_unit "A" =? 65) with true.
    cbn [andb]. change (40 =? 40) with true.
    cbn iota. rewrite Htake, Hdrop. destruct inner; [congruence|reflexivity].
Qed.

Lemma execRgb_sound v inner : execRgb v = Some inner -> rgbShaped v.
Proof.
  unfold execRgb.
  destruct v as [|c1 [|c2 [|c3 rest]]]; try discriminate.
  destruct ((fold c1 =? 82) && (fold c2 =? 71) && (fold c3 =? 66)) eqn:E;
    [|discriminate].
  apply andb_prop in E as [E E3]. apply andb_prop in E as [E1 E2].
  apply Z.eqb_eq in E1, E2, E3.
  assert (Hbody : forall name body,
    map fold name = js "RGB" \/ map fold name = js "RGBA" ->
    (let inner' := takeWhileB (fun c => negb (c =? 41)) body in
     let after := dropWhileB (fun c => negb (c =? 41)) body in
     if nonEmpty inner' && str_eqb after [41] then Some inner' else None)
    = Some inner ->
    rgbShaped (name ++ [40] ++ body)).
  { intros name body Hname. cbv zeta.
    pose proof (takeWhileB_dropWhileB (fun c => negb (c =? 41)) body) as Hsplit.
    pose proof (takeWhileB_all (fun c => negb (c =? 41)) body) as Hall.
    destruct (takeWhileB (fun c => negb (c =? 41)) body) as [|i0 inner'] eqn:Et;
      [discriminate|].
    cbn [nonEmpty andb]. unfold str_eqb.
    destruct (bool_decide (dropWhileB (fun c => negb (c =? 41)) body = [41]))
      eqn:Ed; [|discriminate].
    apply bool_decide_eq_true in Ed. rewrite Ed in Hsplit. intros _.
    exists name, (i0 :: inner'). rewrite Hsplit.
    split; [reflexivity|]. split; [exact Hname|]. split; [discriminate|].
    intros Hin. rewrite forallb_forall in Hall. apply Hall in Hin.
    discriminate Hin. }
  destruct rest as [|c4 rest4]; [discriminate|].
  destruct (fold c4 =? 65) eqn:E4.
  - apply Z.eqb_eq in E4. destruct rest4 as [|c5 body]; [discriminate|].
    destruct (Z.eqb_spec c5 40) as [->|]; [|discriminate].
    intros H. apply (Hbody [c1; c2; c3; c4] body); [|exact H].
    right. simpl. rewrite E1, E2, E3, E4. reflexivity.
  - destruct (Z.eqb_spec c4 40) as [->|]; [|discriminate].
    intros H. apply (Hbody [c1; c2; c3] rest4); [|exact H].
    left. simpl. rewrite E1, E2, E3. reflexivity.
Qed.

Lemma fold_not_hash c : fold c = 82 -> (c =? 35) = false.
Proof.
  unfold fold. destruct ((97 <=? c) && (c <=? 122)) eqn:E; intros H.
  - apply Z.eqb_neq. lia.
  - subst c. reflexivity.
Qed.

Lemma rgbShaped_not_hash v : rgbShaped v -> startsWith v (js "#") = false.
Proof.
  intros (name & inner & -> & Hname & _).
  destruct Hname as [Hname|Hname];
    (destruct name as [|c1 name]; [discriminate Hname|]);
    injection Hname as E1 _;
    change (startsWith ((c1 :: name) ++ [40] ++ inner ++ [41]) (js "#"))
      with ((35 =? c1) && true);
    rewrite Z.eqb_sym, (fold_not_hash c1 E1); reflexivity.
Qed.

(** The alpha channel for the pieces after the third: the fourth piece when
    it is a finite number, else 1. *)
Definition alphaOf (rest : list jsstring) : jsnum :=
  match rest with
  | p4 :: _ => if isFinite (parseFloat p4) then parseFloat p4 else ofZ 1
  | [] => ofZ 1
  end.

(** Every [rgb()]/[rgba()] form is accepted, its channels being the
    numbers between the separators. *)
Lemma parseColor_rgbForm text :
  rgbForm (trim text) = true ->
  exists inner p1 p2 p3 rest q1 q2 q3,
    rgbBody (trim text) = Some inner
    /\ splitChannels [] inner = p1 :: p2 :: p3 :: rest
    /\ parseFloat p1 = Num q1 /\ parseFloat p2 = Num q2 /\ parseFloat p3 = Num q3
    /\ parseColor (Some text)
       = Some {| r := Num q1; g := Num q2; b := Num q3; a := alphaOf rest |}.
Proof.
  unfold rgbForm. destruct (rgbBody (trim text)) as [inner|] eqn:Hbody;
    [|discriminate].
  cbv zeta. intros H. apply andb_prop in H as [Htok Hlen].
  assert (Hchars : forallb (forallb isNumChar) (splitChannels [] inner) = true).
  { apply forallb_forall. intros t Ht. rewrite forallb_forall in Htok.
    apply isNumberToken_chars, Htok, Ht. }
  destruct (splitChannels_chars inner [] Hchars) as [_ Hok].
  pose proof (splitChannels_numberRuns inner [] Hok) as Hruns.
  destruct (rgbBody_inv _ _ Hbody) as (name & Hv & Hname).
  assert (Hne : inner <> []).
  { intros ->. simpl in Hlen. discriminate. }
  assert (Hparen : ~ In 41 inner).
  { intros Hin. rewrite Forall_forall in Hok.
    apply list_elem_of_In, Hok in Hin. discriminate Hin. }
  assert (Hshape : rgbShaped (trim text)).
  { exists name, inner. auto. }
  destruct (splitChannels [] inner) as [|p1 [|p2 [|p3 rest]]] eqn:Hsplit;
    try discriminate Hlen.
  cbn [forallb] in Htok. rewrite !andb_true_iff in Htok.
  destruct Htok as (T1 & T2 & T3 & Trest).
  destruct (isNumberToken_parseFloat p1 T1) as [q1 Hq1].
  destruct (isNumberToken_parseFloat p2 T2) as [q2 Hq2].
  destruct (isNumberToken_parseFloat p3 T3) as [q3 Hq3].
  exists inner, p1, p2, p3, rest, q1, q2, q3.
  repeat (split; [reflexivity || assumption|]).
  unfold parseColor, parseHexColor, parseRgbColor.
  change (default [] (Some text)) with text.
  rewrite (rgbShaped_not_hash _ Hshape). cbn [negb].
  rewrite Hv, (execRgb_complete name inner Hname Hne Hparen), <- Hruns.
  cbn [map length take existsb Nat.ltb Nat.leb orb].
  rewrite Hq1, Hq2, Hq3. cbn [isNaN orb].
  destruct rest as [|p4 rest]; reflexivity.
Qed.

(** Text that is neither [#]-prefixed nor shaped [rgb(...)] is refused. *)
Lemma parseColor_unshaped text :
  startsWith (trim text) (js "#") = false ->
  ~ rgbShaped (trim text) ->
  parseColor (Some text) = None.
Proof.
  intros Hhash Hshape. unfold parseColor, parseHexColor, parseRgbColor.
  change (default [] (Some text)) with text. rewrite Hhash. cbn [negb].
  destruct (execRgb (trim text)) as [inner|] eqn:E; [|reflexivity].
  destruct Hshape. apply (execRgb_sound _ _ E).
Qed.

(** [#]-prefixed text with other than 3, 6 or 8 characters after the [#]
    is refused. *)
Lemma parseColor_hash_length text :
  startsWith (trim text) (js "#") = true ->
  length (trim text) <> 4%nat -> length (trim text) <> 7%nat ->
  length (trim text) <> 9%nat ->
  parseColor (Some text) = None.
Proof.
  intros Hhash H4 H7 H9. unfold parseColor, parseHexColor, parseRgbColor.
  change (default [] (Some text)) with text. rewrite Hhash. cbn [negb].
  destruct (trim text) as [|c v]; [discriminate|].
  change (startsWith (c :: v) (js "#")) with ((35 =? c) && true) in Hhash.
  rewrite andb_true_r in Hhash. apply Z.eqb_eq in Hhash. subst c.
  change (sliceFrom (35 :: v) 1) with v. simpl in H4, H7, H9.
  destruct (Nat.eqb_spec (length v) 3); [lia|].
  destruct (Nat.eqb_spec (length v) 6); [lia|].
  destruct (Nat.eqb_spec (length v) 8); [lia|].
  cbn [orb]. destruct v as [|c2 [|c3 ?]]; reflexivity.
Qed.

(** How a run in progress joins the groups of the text that follows. *)
Definition attach (cur text : jsstring) (groups : list jsstring) : list jsstring :=
  match cur with
  | [] => groups
  | _ =>
      match text with
      | c :: _ =>
          if isNumChar c then
            match groups with
            | group :: groups' => (cur ++ group) :: groups'
            | [] => [cur]
            end
          else cur :: groups
      | [] => [cur]
      end
  end.

(** The runs the code collects left to right are the maximal runs of
    digits and dots. *)
Lemma numberRuns_attach text : forall cur,
  numberRuns cur text = attach cur text (numberGroups text).
Proof.
  induction text as [|c rest IH]; intros cur.
  - destruct cur; reflexivity.
  - cbn [numberRuns numberGroups]. destruct (isNumChar c) eqn:Hc.
    + rewrite IH. unfold attach at 1.
      destruct (cur ++ [c]) as [|x xs] eqn:Hcur;
        [destruct cur; discriminate Hcur|]. rewrite <- Hcur. clear x xs Hcur.
      unfold attach. rewrite Hc.
      destruct rest as [|d rest'].
      * cbn [numberGroups]. destruct cur; [reflexivity|].
        reflexivity.
      * destruct (isNumChar d) eqn:Hd.
        -- destruct (numberGroups (d :: rest')) as [|group groups];
             destruct cur; try reflexivity;
             rewrite <- ?app_assoc; reflexivity.
        -- destruct cur; reflexivity.
    + rewrite IH. unfold attach. rewrite Hc. destruct cur; reflexivity.
Qed.

Lemma numberRuns_groups text : numberRuns [] text = numberGroups text.
Proof. apply numberRuns_attach. Qed.

Lemma isDigit_not_dot c : isDigit c = true -> (c =? 46) = false.
Proof.
  unfold isDigit. rewrite andb_true_iff, !Z.leb_le. intros H.
  apply Z.eqb_neq. lia.
Qed.

(** [parseFloat] gives NaN exactly on a run that does not begin a decimal
    number. *)
Lemma parseFloat_startsNumber run :
  isNaN (parseFloat run) = negb (startsNumber run).
Proof.
  unfold parseFloat, startsNumber. destruct run as [|c rest]; [reflexivity|].
  cbn [takeWhileB dropWhileB]. destruct (isDigit c) eqn:Hc; [reflexivity|].
  cbn [app orb]. destruct (c =? 46); [|reflexivity]. cbn [andb].
  destruct rest as [|d rest]; [reflexivity|]. cbn [takeWhileB].
  destruct (isDigit d); reflexivity.
Qed.

Lemma existsb_isNaN runs :
  existsb isNaN (map parseFloat runs) = negb (forallb startsNumber runs).
Proof.
  induction runs as [|run runs IH]; [reflexivity|].
  cbn [map existsb forallb]. rewrite IH, parseFloat_startsNumber.
  destruct (startsNumber run); reflexivity.
Qed.

(** Inside the [rgb(...)] shape the result is null exactly when the
    argument does not hold three numbers. *)
Lemma parseColor_rgbShape text name inner :
  trim text = name ++ [40] ++ inner ++ [41] ->
  map fold name = js "RGB" \/ map fold name = js "RGBA" ->
  inner <> [] -> ~ In 41 inner ->
  (holdsThreeNumbers inner = false -> parseColor (Some text) = None)
  /\ (holdsThreeNumbers inner = true -> is_Some (parseColor (Some text))).
Proof.
  intros Hv Hname Hne Hparen.
  assert (Hshape : rgbShaped (trim text)) by (exists name, inner; auto).
  unfold parseColor, parseHexColor, parseRgbColor.
  change (default [] (Some text)) with text.
  rewrite (rgbShaped_not_hash _ Hshape). cbn [negb].
  rewrite Hv, (execRgb_complete name inner Hname Hne Hparen).
  rewrite numberRuns_groups. cbv zeta.
  rewrite length_map, firstn_map, existsb_isNaN.
  unfold holdsThreeNumbers.
  replace (length (numberGroups inner) <? 3)%nat
    with (negb (3 <=? length (numberGroups inner))%nat)
    by (destruct (Nat.leb_spec 3 (length (numberGroups inner)));
        destruct (Nat.ltb_spec (length (numberGroups inner)) 3);
        try reflexivity; lia).
  rewrite <- negb_andb.
  destruct ((3 <=? length (numberGroups inner))%nat
            && forallb startsNumber (take 3 (numberGroups inner)));
    cbn [negb]; split; intros H; try discriminate H; eauto.
Qed.

(** C3, as stated, fails: [rgb(1;2;3)] is none of the listed forms (its
    channels are separated by semicolons) and yet parses to a color. *)
Lemma parseColor_accepts_other_separator :
  validForm (js "rgb(1;2;3)") = false
  /\ parseColor (Some (js "rgb(1;2;3)"))
     = Some {| r := ofZ 1; g := ofZ 2; b := ofZ 3; a := ofZ 1 |}
  /\ ~ (forall text : jsstring,
          validForm text = false -> parseColor (Some text) = None).
Proof.
  split; [reflexivity|]. split; [reflexivity|].
  intros H. specialize (H (js "rgb(1;2;3)") eq_refl). discriminate H.
Qed.

(** C3, amended: [parseColor] accepts every 3-, 6- and 8-digit hex form,
    with the integer channels of the reference decoder, and every
    [rgb()]/[rgba()] form with comma- or space-separated numeric channels;
    it returns null for every text that, trimmed, neither begins with [#]
    nor has the shape [rgb(...)]/[rgba(...)], for every [#]-prefixed text
    that has other than 3, 6 or 8 characters after the [#], and for every
    text of the shape [rgb(...)]/[rgba(...)] whose argument does not hold
    at least three runs of digits and dots, the first three each beginning
    a decimal number; a text of that shape whose argument does hold them
    is accepted, whatever separates the runs. *)
Theorem parseColor_forms :
  (forall text, hexForm (trim text) = true ->
     exists d, refDecode (drop 1 (trim text)) = Some d
               /\ parseColor (Some text) = Some (refColor d))
  /\ (forall text, rgbForm (trim text) = true ->
        exists inner p1 p2 p3 rest q1 q2 q3,
          rgbBody (trim text) = Some inner
          /\ splitChannels [] inner = p1 :: p2 :: p3 :: rest
          /\ parseFloat p1 = Num q1 /\ parseFloat p2 = Num q2
          /\ parseFloat p3 = Num q3
          /\ parseColor (Some text)
             = Some {| r := Num q1; g := Num q2; b := Num q3;
                       a := alphaOf rest |})
  /\ (forall text, startsWith (trim text) (js "#") = false ->
        ~ rgbShaped (trim text) -> parseColor (Some text) = None)
  /\ (forall text, startsWith (trim text) (js "#") = true ->
        length (trim text) <> 4%nat -> length (trim text) <> 7%nat ->
        length (trim text) <> 9%nat -> parseColor (Some text) = None)
  /\ (forall text name inner,
        trim text = name ++ [40] ++ inner ++ [41] ->
        map fold name = js "RGB" \/ map fold name = js "RGBA" ->
        inner <> [] -> ~ In 41 inner ->
        (holdsThreeNumbers inner = false -> parseColor (Some text) = None)
        /\ (holdsThreeNumbers inner = true -> is_Some (parseColor (Some text))))
  /\ parseColor None = None.
Proof.
  split; [exact parseColor_hexForm|]. split; [exact parseColor_rgbForm|].
  split; [exact parseColor_unshaped|]. split; [exact parseColor_hash_length|].
  split; [exact parseColor_rgbShape|]. reflexivity.
Qed.

Lemma not_rgbShaped_hsl : ~ rgbShaped (js "hsl(1,2,3)").
Proof.
  intros (name & inner & Hv & Hname & _).
  destruct Hname as [Hname|Hname];
    (destruct name as [|c1 name]; [discriminate Hname|]);
    injection Hname as E1 _; injection Hv as <- _; discriminate E1.
Qed.

Lemma parseColor_forms_witness :
  (exists d, refDecode (js "007aff80") = Some d
             /\ parseColor (Some (js " #007aff80 ")) = Some (refColor d))
  /\ (exists al, parseColor (Some (js "RGBA(10, 20.5 .3 0.5)"))
                 = Some {| r := Num 10; g := Num (205 # 10); b := Num (3 # 10);
                           a := al |})
  /\ parseColor (Some (js "hsl(1,2,3)")) = None
  /\ parseColor (Some (js "#1234")) = None
  /\ parseColor (Some (js "rgb(foo)")) = None
  /\ parseColor (Some (js "rgb(1,2)")) = None
  /\ parseColor (Some (js "rgb(1, .., 3)")) = None
  /\ is_Some (parseColor (Some (js "rgb(1;2;3)"))).
Proof.
  destruct parseColor_forms as (Hhex & Hrgb & Hun & Hlen & Hshape & _).
  assert (Hno : forall inner : jsstring,
            forallb (fun c => negb (c =? 41)) inner = true -> ~ In 41 inner).
  { intros inner Hall Hin. rewrite forallb_forall in Hall.
    apply Hall in Hin. discriminate Hin. }
  split; [exact (Hhex (js " #007aff80 ") eq_refl)|].
  split.
  - destruct (Hrgb (js "RGBA(10, 20.5 .3 0.5)") eq_refl)
      as (inner & p1 & p2 & p3 & rest & q1 & q2 & q3
          & Hb & Hs & H1 & H2 & H3 & Hp).
    injection Hb as <-. injection Hs as <- <- <- <-.
    injection H1 as <-. injection H2 as <-. injection H3 as <-.
    eexists. exact Hp.
  - split; [apply (Hun (js "hsl(1,2,3)") eq_refl); exact not_rgbShaped_hsl|].
    split; [apply (Hlen (js "#1234") eq_refl); discriminate|].
    split.
    { apply (proj1 (Hshape (js "rgb(foo)") (js "rgb") (js "foo") eq_refl
               (or_introl eq_refl) ltac:(discriminate)
               (Hno (js "foo") eq_refl))).
      reflexivity. }
    split.
    { apply (proj1 (Hshape (js "rgb(1,2)") (js "rgb") (js "1,2") eq_refl
               (or_introl eq_refl) ltac:(discriminate)
               (Hno (js "1,2") eq_refl))).
      reflexivity. }
    split.
    { apply (proj1 (Hshape (js "rgb(1, .., 3)") (js "rgb") (js "1, .., 3") eq_refl
               (or_introl eq_refl) ltac:(discriminate)
               (Hno (js "1, .., 3") eq_refl))).
      reflexivity. }
    apply (proj2 (Hshape (js "rgb(1;2;3)") (js "rgb") (js "1;2;3") eq_refl
             (or_introl eq_refl) ltac:(discriminate)
             (Hno (js "1;2;3") eq_refl))).
    reflexivity.
Defined.

End ColorFacts.

(** ** Timeline pager and detail modal *)

Module TimelineFacts.
Import Typewriter Timeline.

(** The controls of a slide written closed in a store. *)
Definition clearMap (animate : bool) (slide : list nat) (m : gmap nat PlusControl)
  : gmap nat PlusControl :=
  fold_left (fun m c => <[c := plusState false animate]> m) slide m.

Lemma withControls_withControls p a b :
  withControls (withControls p a) b = withControls p b.
Proof. reflexivity. Qed.

Lemma clearTimelinePlusInSlide_controls slide animate : forall p,
  clearTimelinePlusInSlide p slide animate
  = withControls p (clearMap animate slide (controls p)).
Proof.
  unfold clearTimelinePlusInSlide, clearMap.
  induction slide as [|c slide IH]; intros p; [destruct p; reflexivity|].
  cbn [fold_left]. rewrite IH. reflexivity.
Qed.

Lemma clearMap_lookup animate slide : forall m c,
  clearMap animate slide m !! c
  = if bool_decide (c ∈ slide) then Some (plusState false animate) else m !! c.
Proof.
  unfold clearMap. induction slide as [|d slide IH]; intros m c.
  - cbn [fold_left]. rewrite bool_decide_eq_false_2; [reflexivity|].
    apply not_elem_of_nil.
  - cbn [fold_left]. rewrite IH.
    destruct (decide (c ∈ slide)) as [Hin|Hnin].
    + rewrite !bool_decide_eq_true_2; [reflexivity| |assumption].
      apply elem_of_cons. auto.
    + rewrite (bool_decide_eq_false_2 (c ∈ slide)) by assumption.
      destruct (decide (c = d)) as [->|Hne].
      * rewrite lookup_insert_eq, bool_decide_eq_true_2; [reflexivity|].
        apply elem_of_cons. auto.
      * rewrite lookup_insert_ne by congruence.
        rewrite bool_decide_eq_false_2; [reflexivity|].
        rewrite elem_of_cons. tauto.
Qed.

(** The store after the [slides.forEach] of [setActiveSlide]; slides are
    numbered from [k]. *)
Definition clearInactive (active : Z) (k : nat) (slides : list (list nat))
    (m : gmap nat PlusControl) : gmap nat PlusControl :=
  fold_left
    (fun m '(i, slide) =>
       if Z.of_nat i =? active then m else clearMap false slide m)
    (imap (fun i slide => ((k + i)%nat, slide)) slides) m.

(** [c] sits in a slide other than the one numbered [active]. *)
Fixpoint inInactiveSlide (active : Z) (k : nat) (slides : list (list nat))
    (c : nat) : bool :=
  match slides with
  | [] => false
  | slide :: rest =>
      (negb (Z.of_nat k =? active) && bool_decide (c ∈ slide))
      || inInactiveSlide active (S k) rest c
  end.


Lemma clearInactive_cons active k slide slides m :
  clearInactive active k (slide :: slides) m
  = clearInactive active (S k) slides
      (if Z.of_nat k =? active then m else clearMap false slide m).
Proof.
  unfold clearInactive. rewrite imap_cons. cbn [fold_left].
  rewrite Nat.add_0_r. f_equal. apply imap_ext. intros i x _. simpl.
  f_equal. lia.
Qed.

Lemma clearInactive_lookup active slides : forall k m c,
  clearInactive active k slides m !! c
  = if inInactiveSlide active k slides c then Some (plusState false false)
    else m !! c.
Proof.
  induction slides as [|slide slides IH]; intros k m c; [reflexivity|].
  rewrite clearInactive_cons, IH. cbn [inInactiveSlide].
  destruct (inInactiveSlide active (S k) slides c);
    [rewrite orb_true_r; reflexivity|].
  rewrite orb_false_r. destruct (Z.of_nat k =? active); [reflexivity|].
  cbn [negb andb]. apply clearMap_lookup.
Qed.

Lemma setActiveSlide_fold active slides : forall k p,
  fold_left
    (fun q '(i, slide) =>
       if Z.of_nat i =? active then q else clearTimelinePlusInSlide q slide false)
    (imap (fun i slide => ((k + i)%nat, slide)) slides) p
  = withControls p (clearInactive active k slides (controls p)).
Proof.
  induction slides as [|slide slides IH]; intros k p; [destruct p; reflexivity|].
  rewrite clearInactive_cons, imap_cons. cbn [fold_left].
  rewrite Nat.add_0_r.
  rewrite (imap_ext _ (fun i sl => ((S k + i)%nat, sl)) slides)
    by (intros i x _; simpl; f_equal; lia).
  rewrite IH. destruct (Z.of_nat k =? active); [reflexivity|].
  rewrite clearTimelinePlusInSlide_controls. reflexivity.
Qed.

(** The index [setActiveSlide] computes. *)
Definition normalized (L : Layout) (index : Z) : Z :=
  jsrem (index + Z.of_nat (length (slides L))) (Z.of_nat (length (slides L))).

(** The page [setActiveSlide] builds before it looks at the modal. *)
Definition switched (L : Layout) (p : Page) (index : Z) : Page :=
  let n := Z.of_nat (length (slides L)) in
  let isActive (i : nat) := Z.of_nat i =? normalized L index in
  {| controls := clearInactive (normalized L index) 0 (slides L) (controls p);
     slideAttrs :=
       imap (fun i _ =>
               {| slideActive := isActive i;
                  slideAriaHidden := negb (isActive i);
                  slideTabindex := if isActive i then 0 else -1 |})
            (slides L);
     triggerAttrs :=
       imap (fun i _ =>
               {| triggerActive := isActive i;
                  triggerAriaSelected := isActive i;
                  triggerTabindex := if isActive i then 0 else -1;
                  triggerAriaCurrent := isActive i |})
            (slides L);
     activeIndex := normalized L index;
     previousDisabled := (n <=? 1);
     nextDisabled := (n <=? 1);
     timelineSingle := (n <=? 1);
     activeTimelineModalCheckbox := activeTimelineModalCheckbox p;
     modalOpen := modalOpen p; modalAriaHidden := modalAriaHidden p;
     bodyModalOpen := bodyModalOpen p; modalTitle := modalTitle p;
     modalMeta := modalMeta p; modalDescription := modalDescription p;
     focus := focus p |}.

(** Whether the modal stays open across the switch. *)
Definition ownerStays (L : Layout) (p : Page) (index : Z) : bool :=
  match activeTimelineModalCheckbox p with
  | Some owner =>
      match Projects.arrayAt (slides L) (normalized L index) with
      | Some slide => slideContains slide owner
      | None => false
      end
  | None => true
  end.

Lemma setActiveSlide_unfold L p index shouldFocusTrigger :
  setActiveSlide L p index shouldFocusTrigger
  = let p2 := if ownerStays L p index then switched L p index
              else closeTimelineJobModal L (switched L p index) false in
    if shouldFocusTrigger then
      match Projects.arrayAt (slides L) (normalized L index) with
      | Some _ => withFocus p2 (Some (TriggerElement (Z.to_nat (normalized L index))))
      | None => p2
      end
    else p2.
Proof.
  unfold setActiveSlide. cbv zeta.
  rewrite (imap_ext (fun i slide => (i, slide))
             (fun i slide => ((0 + i)%nat, slide)) (slides L))
    by reflexivity.
  rewrite setActiveSlide_fold. fold (normalized L index).
  change (controls (withControls p ?m)) with m.
  fold (switched L p index). unfold ownerStays.
  change (activeTimelineModalCheckbox (switched L p index))
    with (activeTimelineModalCheckbox p).
  destruct (activeTimelineModalCheckbox p) as [owner|]; [|reflexivity].
  destruct (Projects.arrayAt (slides L) (normalized L index)) as [slide|];
    [|reflexivity].
  destruct (slideContains slide owner); reflexivity.
Qed.

Lemma setActiveSlide_activeIndex L p index f :
  activeIndex (setActiveSlide L p index f) = normalized L index.
Proof.
  rewrite setActiveSlide_unfold. cbv zeta.
  assert (H : activeIndex (if ownerStays L p index then switched L p index
                           else closeTimelineJobModal L (switched L p index) false)
              = normalized L index).
  { destruct (ownerStays L p index); [reflexivity|].
    unfold closeTimelineJobModal.
    destruct (modalElements L); [reflexivity| |];
      destruct (activeTimelineModalCheckbox (switched L p index)); reflexivity. }
  destruct f; [|exact H].
  destruct (Projects.arrayAt (slides L) (normalized L index)); exact H.
Qed.

Lemma rem_add_normalizes i n :
  0 < n -> - n <= i ->
  Z.rem (i + n) n = i mod n /\ Z.rem (Z.rem i n + n) n = i mod n.
Proof.
  intros Hn Hi. split.
  - rewrite Z.rem_mod_nonneg by lia.
    rewrite <- (Z.mul_1_l n) at 1. apply Z_mod_plus_full.
  - pose proof (Z.rem_bound_abs i n ltac:(lia)) as Hb.
    rewrite Z.rem_mod_nonneg by lia.
    pose proof (Z.quot_rem' i n) as Hq.
    replace (Z.rem i n + n) with (i + (1 - Z.quot i n) * n) by lia.
    apply Z_mod_plus_full.
Qed.

(** C1, as stated, fails: with three slides, [setActiveSlide(-4)] leaves
    the active index at -1, not at ((-4 % 3) + 3) % 3 = 2. *)
Lemma setActiveSlide_below_minus_N :
  let L := {| slides := [[]; []; []]; renderedTimelineEntries := [];
              modalElements := ModalComplete |} in
  activeIndex (setActiveSlide L (renderedPage L) (-4) false) = -1
  /\ jsrem (jsrem (-4) 3 + 3) 3 = 2.
Proof. split; reflexivity. Qed.

(** C1, amended: for a slide count N > 0 and every integer index i not
    below -N whose sum with N does not exceed 2^53 (the range in which the
    sum [index + slides.length] of two doubles is the integer sum),
    [setActiveSlide(i)] sets the active index to ((i % N) + N) % N, which
    lies in [0, N). *)
Theorem setActiveSlide_normalizes_index :
  forall (L : Layout) (p : Page) (i : Z) (shouldFocusTrigger : bool),
    let N := Z.of_nat (length (slides L)) in
    0 < N -> - N <= i -> i + N <= 2 ^ 53 ->
    activeIndex (setActiveSlide L p i shouldFocusTrigger)
    = jsrem (jsrem i N + N) N
    /\ 0 <= activeIndex (setActiveSlide L p i shouldFocusTrigger) < N.
Proof.
  intros L p i f N HN Hi _. rewrite setActiveSlide_activeIndex.
  unfold normalized, jsrem. fold N.
  destruct (rem_add_normalizes i N HN Hi) as [-> ->].
  split; [reflexivity|]. apply Z.mod_pos_bound, HN.
Qed.

Lemma setActiveSlide_normalizes_index_witness :
  let L := {| slides := [[]; []; []]; renderedTimelineEntries := [];
              modalElements := ModalComplete |} in
  activeIndex (setActiveSlide L (renderedPage L) (-1) true) = 2.
Proof.
  exact (proj1 (setActiveSlide_normalizes_index
    {| slides := [[]; []; []]; renderedTimelineEntries := [];
       modalElements := ModalComplete |}
    (renderedPage {| slides := [[]; []; []]; renderedTimelineEntries := [];
                     modalElements := ModalComplete |})
    (-1) true ltac:(reflexivity) ltac:(discriminate) ltac:(discriminate))).
Defined.

Lemma closestSlide_found slides : forall k i c,
  closestSlide slides c k = Some i -> exists j, i = (k + j)%nat.
Proof.
  induction slides as [|sl slides IH]; intros k i c; [discriminate|].
  cbn [closestSlide]. destruct (slideContains sl c).
  - intros [= <-]. exists 0%nat. lia.
  - intros H. destruct (IH _ _ _ H) as [j ->]. exists (S j). lia.
Qed.

Lemma closestSlide_lookup slides : forall k i c,
  closestSlide slides c k = Some (k + i)%nat ->
  exists slide, slides !! i = Some slide /\ c ∈ slide.
Proof.
  induction slides as [|sl slides IH]; intros k i c; [discriminate|].
  cbn [closestSlide]. destruct (slideContains sl c) eqn:E.
  - intros [= H]. assert (i = 0%nat) as -> by lia.
    exists sl. split; [reflexivity|].
    unfold slideContains in E. apply bool_decide_eq_true in E. exact E.
  - intros H. destruct (closestSlide_found _ _ _ _ H) as [j Hj].
    destruct i as [|i]; [lia|].
    replace (k + S i)%nat with (S k + i)%nat in H by lia.
    apply IH in H. exact H.
Qed.

Lemma closestSlide_intro slides : forall k i slide c,
  slides !! i = Some slide -> c ∈ slide ->
  (forall j other, (j < i)%nat -> slides !! j = Some other -> c ∉ other) ->
  closestSlide slides c k = Some (k + i)%nat.
Proof.
  induction slides as [|sl slides IH]; intros k i slide c Hl Hin Hfirst;
    [discriminate|].
  cbn [closestSlide]. unfold slideContains. destruct i as [|i].
  - injection Hl as ->. rewrite bool_decide_eq_true_2 by assumption.
    f_equal. lia.
  - rewrite bool_decide_eq_false_2 by (apply (Hfirst 0%nat sl); [lia|reflexivity]).
    replace (k + S i)%nat with (S k + i)%nat by lia.
    apply (IH (S k) i slide c Hl Hin).
    intros j other Hj Hother. apply (Hfirst (S j) other); [lia|exact Hother].
Qed.

(** C6: for an entry whose description is blank, the change event of its
    expand control, checked or not, leaves the page as it was except for
    that control, which is written closed with no animation; the modal is
    neither opened nor touched. *)
Theorem blank_description_snaps_closed :
  forall (L : Layout) (p : Page) (checkbox index : nat) (entry : Entry),
    closestSlide (slides L) checkbox 0 = Some index ->
    renderedTimelineEntries L !! index = Some entry ->
    trim (default [] (description entry)) = [] ->
    timelinePlusGoXHandler L p checkbox
    = withControls p (<[checkbox := plusState false false]> (controls p))
    /\ controls (timelinePlusGoXHandler L p checkbox) !! checkbox
       = Some {| checked := false; ariaExpanded := false; labelChecked := false;
                 containerOpen := false; iconAnimating := false;
                 iconAnimation := AnimationNone |}
    /\ modalOpen (timelinePlusGoXHandler L p checkbox) = modalOpen p
    /\ activeTimelineModalCheckbox (timelinePlusGoXHandler L p checkbox)
       = activeTimelineModalCheckbox p
    /\ (forall other, other <> checkbox ->
          controls (timelinePlusGoXHandler L p checkbox) !! other
          = controls p !! other).
Proof.
  intros L p checkbox index entry Hslide Hentry Hblank.
  assert (H : timelinePlusGoXHandler L p checkbox
              = withControls p (<[checkbox := plusState false false]> (controls p))).
  { unfold timelinePlusGoXHandler. rewrite Hslide, Hentry, Hblank. reflexivity. }
  rewrite H. split; [reflexivity|].
  split; [apply lookup_insert_eq|]. split; [reflexivity|].
  split; [reflexivity|]. intros other Hne.
  cbn [controls withControls]. apply lookup_insert_ne. congruence.
Qed.

Definition blankEntry : Entry :=
  {| title := Some (js "Engineer"); subtitle := None; date := None;
     description := Some (js "   ") |}.

Definition blankLayout : Layout :=
  {| slides := [[7%nat]]; renderedTimelineEntries := [blankEntry];
     modalElements := ModalComplete |}.

Lemma blank_description_snaps_closed_witness :
  modalOpen (timelinePlusGoXHandler blankLayout
               (flipChecked (renderedPage blankLayout) 7) 7) = false.
Proof.
  exact (proj1 (proj2 (proj2
    (blank_description_snaps_closed blankLayout
       (flipChecked (renderedPage blankLayout) 7) 7 0 blankEntry
       eq_refl eq_refl eq_refl)))).
Defined.

Lemma truthy_nonempty s : s <> [] -> truthy s = true.
Proof. destruct s; [congruence|reflexivity]. Qed.

(** C4: with the modal open for control A, the change event that checks a
    different control B of an entry with a non-blank description first
    writes A closed without animation (unchecked, [aria-expanded] false,
    classes removed, animation none), then B open with animation (checked,
    [aria-expanded] true, classes set, the make_x animation), leaves every
    other control as it was, and records B as the owner: the one owner
    there is. *)
Theorem second_open_moves_ownership :
  forall (L : Layout) (p : Page) (A B index : nat) (entry : Entry)
         (st : PlusControl),
    modalElements L = ModalComplete ->
    activeTimelineModalCheckbox p = Some A ->
    A <> B ->
    closestSlide (slides L) B 0 = Some index ->
    renderedTimelineEntries L !! index = Some entry ->
    trim (default [] (description entry)) <> [] ->
    controls p !! B = Some st -> checked st = true ->
    let p' := timelinePlusGoXHandler L p B in
    let closedNoAnimation :=
      {| checked := false; ariaExpanded := false; labelChecked := false;
         containerOpen := false; iconAnimating := false;
         iconAnimation := AnimationNone |} in
    let openAnimated :=
      {| checked := true; ariaExpanded := true; labelChecked := true;
         containerOpen := true; iconAnimating := false;
         iconAnimation := AnimationMakeX |} in
    p' = openTimelineJobModal L p entry B
    /\ controls p' = <[B := openAnimated]> (<[A := closedNoAnimation]> (controls p))
    /\ controls p' !! A = Some closedNoAnimation
    /\ controls p' !! B = Some openAnimated
    /\ (forall c, c <> A -> c <> B -> controls p' !! c = controls p !! c)
    /\ activeTimelineModalCheckbox p' = Some B
    /\ (forall c, activeTimelineModalCheckbox p' = Some c -> c = B)
    /\ modalOpen p' = true /\ bodyModalOpen p' = true
    /\ modalAriaHidden p' = false.
Proof.
  intros L p A B index entry st Hmodal Howner Hne Hslide Hentry Hdesc HB Hchecked
    p' closedNoAnimation openAnimated.
  assert (Hp : p' = openTimelineJobModal L p entry B).
  { subst p'. unfold timelinePlusGoXHandler.
    rewrite Hslide, Hentry, (truthy_nonempty _ Hdesc), HB. cbn [negb].
    destruct st as [c ? ? ? ? ?]. simpl in Hchecked. subst c. reflexivity. }
  assert (Hc : controls p'
     = <[B := openAnimated]> (<[A := closedNoAnimation]> (controls p))).
  { rewrite Hp. unfold openTimelineJobModal. rewrite Hmodal, Howner.
    rewrite bool_decide_eq_false_2 by assumption. reflexivity. }
  split; [exact Hp|]. split; [exact Hc|].
  split; [rewrite Hc, lookup_insert_ne, lookup_insert_eq by congruence; reflexivity|].
  split; [rewrite Hc; apply lookup_insert_eq|].
  split; [intros c HcA HcB; rewrite Hc, !lookup_insert_ne by congruence;
          reflexivity|].
  assert (Ho : activeTimelineModalCheckbox p' = Some B).
  { rewrite Hp. unfold openTimelineJobModal. rewrite Hmodal. reflexivity. }
  split; [exact Ho|]. split; [intros c Hc'; congruence|].
  rewrite Hp. unfold openTimelineJobModal. rewrite Hmodal. repeat split.
Qed.

Definition jobEntry (text : string) : Entry :=
  {| title := Some (js text); subtitle := Some (js "Roole");
     date := Some (js "2024"); description := Some (js "Shipping the app.") |}.

Definition twoJobs : Layout :=
  renderIntroLayout [jobEntry "Engineer"; jobEntry "Manager"] ModalComplete.

Lemma second_open_moves_ownership_witness :
  let p := flipChecked (run twoJobs [ToggleControl 0]) 1 in
  activeTimelineModalCheckbox p = Some 0%nat
  /\ activeTimelineModalCheckbox (timelinePlusGoXHandler twoJobs p 1)
     = Some 1%nat
  /\ controls (timelinePlusGoXHandler twoJobs p 1) !! 0%nat
     = Some {| checked := false; ariaExpanded := false; labelChecked := false;
               containerOpen := false; iconAnimating := false;
               iconAnimation := AnimationNone |}
  /\ controls (timelinePlusGoXHandler twoJobs p 1) !! 1%nat
     = Some {| checked := true; ariaExpanded := true; labelChecked := true;
               containerOpen := true; iconAnimating := false;
               iconAnimation := AnimationMakeX |}.
Proof.
  pose proof (second_open_moves_ownership twoJobs
    (flipChecked (run twoJobs [ToggleControl 0]) 1) 0 1 1 (jobEntry "Manager")
    {| checked := true; ariaExpanded := false; labelChecked := false;
       containerOpen := false; iconAnimating := false;
       iconAnimation := AnimationNone |}
    eq_refl eq_refl ltac:(discriminate) eq_refl eq_refl ltac:(discriminate)
    eq_refl eq_refl) as H.
  cbv zeta in H. cbv zeta.
  split; [reflexivity|]. split; [apply H|]. split; apply H.
Defined.







End TimelineFacts.

(** ** Typewriter engine: cancellation *)

Module EngineFacts.
Import Typewriter Engine.

Lemma await_live r d :
  await false r d = Awaiting r (waitForDelay d (Some false)).
Proof. reflexivity. Qed.

(** With the signal not aborted, running a loop to its next [await] either
    suspends on a pending, cancellable wait or throws the TypeError of an
    empty line list. *)
Definition liveProgress (pr : Progress) : Prop :=
  match pr with
  | Awaiting r w => exists d, w = waitForDelay d (Some false)
  | Returned _ => False
  | Threw message _ => message = TYPE_ERROR
  end.

Ltac live_await := rewrite ?await_live; cbn [liveProgress]; eauto.

Lemma typingFrom_live pattern jitter i line count html n :
  liveProgress (typingFrom pattern jitter false i line count html n).
Proof. unfold typingFrom. destruct (count <=? length line)%nat; live_await. Qed.

Lemma erasingFrom_live pattern i line count html n :
  liveProgress (erasingFrom pattern false i line count html n).
Proof. unfold erasingFrom. destruct count; live_await. Qed.

Lemma lineLoop_live lines pattern jitter i html n :
  liveProgress (lineLoop lines pattern jitter false i html n).
Proof.
  unfold lineLoop. destruct (currentLine lines i); [|reflexivity].
  apply typingFrom_live.
Qed.

Lemma typingAnswerFrom_live pattern jitter i p count html n :
  liveProgress (typingAnswerFrom pattern jitter false i p count html n).
Proof.
  unfold typingAnswerFrom. destruct (count <=? length (answer p))%nat; live_await.
Qed.

Lemma typingQuestionFrom_live pattern jitter i p count html n :
  liveProgress (typingQuestionFrom pattern jitter false i p count html n).
Proof.
  unfold typingQuestionFrom.
  destruct (count <=? length (question p))%nat; [live_await|].
  destruct ((0 <? length (question p))%nat && (0 <? length (answer p))%nat);
    [live_await|apply typingAnswerFrom_live].
Qed.

Lemma erasingQuestionFrom_live pattern i p count html n :
  liveProgress (erasingQuestionFrom pattern false i p count html n).
Proof. unfold erasingQuestionFrom. destruct count; live_await. Qed.

Lemma erasingAnswerFrom_live pattern i p count html n :
  liveProgress (erasingAnswerFrom pattern false i p count html n).
Proof.
  unfold erasingAnswerFrom. destruct count; [live_await|].
  apply erasingQuestionFrom_live.
Qed.

Lemma pairLoop_live lines pattern jitter i html n :
  liveProgress (pairLoop lines pattern jitter false i html n).
Proof.
  unfold pairLoop. destruct (currentPair lines i); [|reflexivity].
  apply typingQuestionFrom_live.
Qed.

Lemma startRunner_live lines pattern jitter asPairs html :
  liveProgress (startRunner lines pattern jitter false asPairs html).
Proof.
  unfold startRunner.
  destruct (asPairs && (0 <? length (pairs lines))%nat);
    [apply pairLoop_live|apply lineLoop_live].
Qed.

Lemma resume_live lines pattern jitter r :
  liveProgress (resume lines pattern jitter false r).
Proof.
  unfold resume, resumeLine, resumePair.
  destruct (phase r);
    try (destruct (currentLine lines (index r)); [|reflexivity]);
    try (destruct (currentPair lines (index r)); [|reflexivity]);
    auto using typingFrom_live, erasingFrom_live, lineLoop_live,
      typingAnswerFrom_live, typingQuestionFrom_live, erasingQuestionFrom_live,
      erasingAnswerFrom_live, pairLoop_live.
Qed.

(** A running session has an unaborted signal and awaits a pending wait
    that listens for the abort. *)
Definition sessionLive (s : Session) : Prop :=
  match sessionState s with
  | Running r w => signalAborted s = false /\ exists d, w = waitForDelay d (Some false)
  | _ => True
  end.

Lemma advance_live s pr :
  signalAborted s = false -> liveProgress pr -> sessionLive (advance s pr).
Proof.
  intros Hs Hpr. destruct pr as [r w|html|m html]; cbn in *; auto.
Qed.

Lemma sessionStep_live s e : sessionLive s -> sessionLive (sessionStep s e).
Proof.
  unfold sessionLive at 1. intros Hs. destruct e; unfold sessionStep.
  - destruct (sessionState s) as [|r w|e] eqn:Hst; try exact I.
    + destruct (signalAborted s) eqn:Ha; [exact I|].
      apply advance_live; [exact Ha|]. rewrite <- Ha at 1.
      rewrite Ha. apply startRunner_live.
    + destruct Hs as [Ha (d & ->)]. cbn.
      apply advance_live; [exact Ha|]. rewrite Ha. apply resume_live.
    + unfold sessionLive. rewrite Hst. exact I.
  - destruct (sessionState s) as [|r w|e] eqn:Hst; try exact I.
    destruct Hs as [Ha (d & ->)]. rewrite Ha. exact I.
Qed.

Lemma sessionRun_live events : forall s,
  sessionLive s -> sessionLive (sessionRun s events).
Proof.
  unfold sessionRun. induction events as [|e events IH]; intros s Hs; [exact Hs|].
  cbn [fold_left]. apply IH, sessionStep_live, Hs.
Qed.

Lemma sessionStep_ended s e ending :
  sessionState s = Ended ending ->
  sessionState (sessionStep s e) = Ended ending
  /\ textHTML (sessionStep s e) = textHTML s.
Proof.
  intros Hst. destruct e; unfold sessionStep; rewrite Hst; [|split; reflexivity].
  split; [exact Hst|reflexivity].
Qed.

Lemma sessionRun_ended events : forall s ending,
  sessionState s = Ended ending ->
  sessionState (sessionRun s events) = Ended ending
  /\ textHTML (sessionRun s events) = textHTML s.
Proof.
  unfold sessionRun. induction events as [|e events IH]; intros s ending Hst;
    [split; [exact Hst|reflexivity]|].
  cbn [fold_left]. destruct (sessionStep_ended s e ending Hst) as [Hst' Htext].
  destruct (IH _ _ Hst') as [H1 H2]. split; [exact H1|congruence].
Qed.

Lemma fresh_live lines pattern asPairs jitter :
  sessionLive (freshSession lines pattern asPairs jitter).
Proof. exact I. Qed.

(** A running session that is aborted ends at once through the rejected
    wait, which the handler swallows; its text element is not written. *)
Lemma abort_running_swallowed s r w :
  sessionLive s -> sessionState s = Running r w ->
  sessionState (sessionStep s AbortCalled) = Ended AbortSwallowed
  /\ textHTML (sessionStep s AbortCalled) = textHTML s
  /\ signalAborted (sessionStep s AbortCalled) = true.
Proof.
  unfold sessionLive. intros Hlive Hst. rewrite Hst in Hlive.
  destruct Hlive as [Ha (d & ->)].
  unfold sessionStep. rewrite Hst, Ha. repeat split.
Qed.

(** C2, as stated, fails: a wait whose signal is aborted while it is
    pending does not resolve, it rejects with the abort error; and a
    session aborted in the middle of a line ends through that rejection,
    not by a return of its loop. *)
Lemma wait_aborted_while_pending_rejects :
  promise (onAbort (waitForDelay 52 (Some false))) = Rejected ABORT_MESSAGE
  /\ promise (onAbort (waitForDelay 52 (Some false))) <> Fulfilled
  /\ sessionState
       (sessionRun (freshSession [js "ab"] HERO_HIGHLIGHT_PATTERN false (fun _ => 0))
          [TimerFired; TimerFired; AbortCalled])
     = Ended AbortSwallowed
  /\ sessionState
       (sessionRun (freshSession [js "ab"] HERO_HIGHLIGHT_PATTERN false (fun _ => 0))
          [TimerFired; TimerFired; AbortCalled])
     <> Ended LoopReturned.
Proof. repeat split; discriminate. Qed.

(** C2, amended: for every duration, a wait whose signal is already
    aborted at the call rejects at once; a wait whose signal is aborted
    while it is pending rejects early with the error "Hero typewriter
    aborted", its timer cleared; and a running session that is aborted,
    whatever events it has seen, leaves its loop through that rejection,
    which the handler of [startHeroTypewriter] swallows for that message
    and for no other (any other message is logged, as the TypeError of an
    empty line list is): the session ends without an error logged and
    without writing its text element again. *)
Theorem cancelled_wait_rejects_and_is_swallowed :
  (forall durationMs,
      promise (waitForDelay durationMs (Some true)) = Rejected ABORT_MESSAGE)
  /\ (forall durationMs,
        let w := onAbort (waitForDelay durationMs (Some false)) in
        promise w = Rejected ABORT_MESSAGE /\ timerArmed w = false
        /\ promise (onTimeout w) = Rejected ABORT_MESSAGE)
  /\ (forall durationMs,
        promise (onTimeout (waitForDelay durationMs (Some false))) = Fulfilled)
  /\ catchRunner ABORT_MESSAGE = AbortSwallowed
  /\ (forall message,
        message <> ABORT_MESSAGE -> catchRunner message = ErrorLogged message)
  /\ (forall pattern asPairs jitter later,
        let s := sessionStep (freshSession [] pattern asPairs jitter) TimerFired in
        sessionState (sessionRun s later) = Ended (ErrorLogged TYPE_ERROR))
  /\ (forall lines pattern asPairs jitter events r w later,
        let s := sessionRun (freshSession lines pattern asPairs jitter) events in
        sessionState s = Running r w ->
        let s' := sessionStep s AbortCalled in
        sessionState s' = Ended AbortSwallowed
        /\ textHTML s' = textHTML s
        /\ sessionState (sessionRun s' later) = Ended AbortSwallowed
        /\ textHTML (sessionRun s' later) = textHTML s).
Proof.
  split; [reflexivity|]. split; [intros d; repeat split|].
  split; [reflexivity|]. split; [reflexivity|].
  split.
  { intros message Hne. unfold catchRunner, str_eqb.
    rewrite bool_decide_eq_false_2 by exact Hne. reflexivity. }
  split.
  { intros pattern asPairs jitter later s.
    apply (sessionRun_ended later s (ErrorLogged TYPE_ERROR)).
    subst s. destruct asPairs; reflexivity. }
  intros lines pattern asPairs jitter events r w later s Hst s'.
  assert (Hlive : sessionLive s).
  { apply sessionRun_live, fresh_live. }
  destruct (abort_running_swallowed s r w Hlive Hst) as (Hend & Htext & _).
  fold s' in Hend, Htext.
  destruct (sessionRun_ended later s' _ Hend) as [H1 H2].
  repeat split; congruence.
Qed.

Lemma cancelled_wait_rejects_and_is_swallowed_witness :
  let s := sessionRun (freshSession [js "ab"] HERO_HIGHLIGHT_PATTERN false
                         (fun _ => 0)) [TimerFired; TimerFired] in
  sessionState (sessionRun (sessionStep s AbortCalled) [TimerFired; TimerFired])
  = Ended AbortSwallowed.
Proof.
  destruct cancelled_wait_rejects_and_is_swallowed as (_ & _ & _ & _ & _ & _ & H).
  cbv zeta.
  destruct (H [js "ab"] HERO_HIGHLIGHT_PATTERN false (fun _ => 0)
              [TimerFired; TimerFired] _ _ [TimerFired; TimerFired] eq_refl)
    as (_ & _ & Hlater & _).
  exact Hlater.
Defined.

End EngineFacts.

(** ** Contrast ratio *)

Module ContrastFacts.
Import Contrast.

Set Warnings "-inexact-float".



















Lemma one_not_nan : is_nan 1%float = false.
Proof. reflexivity. Qed.








End ContrastFacts.

(** ** Timeline: what every reachable page satisfies *)

Module TimelineReach.
Import Typewriter Timeline TimelineFacts.

(** A control shown closed, whatever its animation. *)
Definition shownClosed (st : PlusControl) : Prop :=
  checked st = false /\ ariaExpanded st = false
  /\ labelChecked st = false /\ containerOpen st = false.

(** The entry behind a control has a description to show. *)
Definition describes (L : Layout) (c : nat) : Prop :=
  exists index entry,
    closestSlide (slides L) c 0 = Some index
    /\ renderedTimelineEntries L !! index = Some entry
    /\ trim (default [] (description entry)) <> [].

(** What holds between two listeners: every control sits in a slide, every
    control but the owner of the modal is shown closed, the owner's entry
    has a description, and the modal is shown exactly when it is owned. *)
Record tidy (L : Layout) (p : Page) : Prop := {
  tidy_keys : forall c st, controls p !! c = Some st -> c ∈ concat (slides L);
  tidy_others : forall c st,
      controls p !! c = Some st -> activeTimelineModalCheckbox p <> Some c ->
      shownClosed st;
  tidy_owner : forall c,
      activeTimelineModalCheckbox p = Some c ->
      describes L c
      /\ modalOpen p = true /\ bodyModalOpen p = true
      /\ modalAriaHidden p = false;
  tidy_unowned :
      activeTimelineModalCheckbox p = None ->
      modalOpen p = false /\ bodyModalOpen p = false
      /\ modalAriaHidden p = true }.

(** The owner, when there is one, is shown open. *)
Definition ownerOpen (p : Page) : Prop :=
  forall c, activeTimelineModalCheckbox p = Some c ->
            controls p !! c = Some (plusState true true).

Lemma shownClosed_plusState animate : shownClosed (plusState false animate).
Proof. repeat split. Qed.

Lemma shownClosed_rendered : shownClosed renderedControl.
Proof. repeat split. Qed.

Lemma closestSlide_elem slides : forall k i c,
  closestSlide slides c k = Some i -> c ∈ concat slides.
Proof.
  induction slides as [|sl slides IH]; intros k i c; [discriminate|].
  cbn [closestSlide concat]. unfold slideContains.
  destruct (decide (c ∈ sl)) as [Hin|Hnin].
  - intros _. apply elem_of_app. auto.
  - rewrite bool_decide_eq_false_2 by assumption. intros H.
    apply elem_of_app. right. exact (IH _ _ _ H).
Qed.

Lemma closestSlide_none slides : forall k c,
  closestSlide slides c k = None -> c ∉ concat slides.
Proof.
  induction slides as [|sl slides IH]; intros k c; [intros _; apply not_elem_of_nil|].
  cbn [closestSlide concat]. unfold slideContains.
  destruct (decide (c ∈ sl)) as [Hin|Hnin].
  - rewrite bool_decide_eq_true_2 by assumption. discriminate.
  - rewrite bool_decide_eq_false_2 by assumption. intros H.
    rewrite elem_of_app. intros [?|Hc]; [contradiction|].
    exact (IH _ _ H Hc).
Qed.

Lemma describes_elem L c : describes L c -> c ∈ concat (slides L).
Proof. intros (index & entry & H & _). exact (closestSlide_elem _ _ _ _ H). Qed.

Lemma inInactiveSlide_elem active slides : forall k c,
  inInactiveSlide active k slides c = true -> c ∈ concat slides.
Proof.
  induction slides as [|sl slides IH]; intros k c; [discriminate|].
  cbn [inInactiveSlide concat]. intros H. apply orb_true_iff in H.
  apply elem_of_app. destruct H as [H|H].
  - apply andb_true_iff in H. destruct H as [_ H].
    apply bool_decide_eq_true in H. auto.
  - right. exact (IH _ _ H).
Qed.

(** With no control in two slides, a control of the active slide is in no
    other slide. *)
Lemma active_not_inactive active slides : forall k i slide c,
  NoDup (concat slides) ->
  slides !! i = Some slide -> Z.of_nat (k + i) = active -> c ∈ slide ->
  inInactiveSlide active k slides c = false.
Proof.
  induction slides as [|sl slides IH]; intros k i slide c Hnd Hl Hact Hin;
    [reflexivity|].
  cbn [concat] in Hnd. apply NoDup_app in Hnd. destruct Hnd as (_ & Hsep & Hrest).
  cbn [inInactiveSlide]. destruct i as [|i].
  - injection Hl as ->. rewrite Nat.add_0_r in Hact.
    apply Z.eqb_eq in Hact. rewrite Hact. cbn [negb andb orb].
    destruct (inInactiveSlide active (S k) slides c) eqn:E; [|reflexivity].
    exfalso. exact (Hsep c Hin (inInactiveSlide_elem _ _ _ _ E)).
  - change (slides !! i = Some slide) in Hl.
    assert (Hc : c ∈ concat slides).
    { apply list_elem_of_In, in_concat. exists slide.
      split; apply list_elem_of_In;
        [exact (list_elem_of_lookup_2 _ _ _ Hl)|exact Hin]. }
    rewrite (bool_decide_eq_false_2 (c ∈ sl)) by (intros H; exact (Hsep c H Hc)).
    rewrite andb_false_r. cbn [orb].
    apply (IH (S k) i slide c Hrest Hl); [|exact Hin].
    rewrite <- Hact. f_equal. lia.
Qed.

Lemma ownerStays_not_inactive L p index c :
  NoDup (concat (slides L)) ->
  activeTimelineModalCheckbox p = Some c -> ownerStays L p index = true ->
  inInactiveSlide (normalized L index) 0 (slides L) c = false.
Proof.
  intros Hnd Ho Hstay. unfold ownerStays in Hstay. rewrite Ho in Hstay.
  unfold Projects.arrayAt in Hstay.
  destruct (normalized L index <? 0) eqn:Hneg; [discriminate|].
  apply Z.ltb_ge in Hneg.
  destruct (slides L !! Z.to_nat (normalized L index)) as [slide|] eqn:Hl;
    [|discriminate].
  apply bool_decide_eq_true in Hstay.
  apply (active_not_inactive _ _ 0 (Z.to_nat (normalized L index)) slide c Hnd Hl);
    [|exact Hstay].
  cbn [Nat.add]. apply Z2Nat.id, Hneg.
Qed.

(** *** The page as rendered *)

Lemma renderedPage_lookup L c st :
  controls (renderedPage L) !! c = Some st ->
  st = renderedControl /\ c ∈ concat (slides L).
Proof.
  cbn [controls renderedPage]. intros H.
  apply elem_of_list_to_map_2 in H. apply list_elem_of_fmap in H.
  destruct H as (d & [= -> ->] & Hd). auto.
Qed.

Lemma renderedPage_tidy L : tidy L (renderedPage L) /\ ownerOpen (renderedPage L).
Proof.
  split; [split|].
  - intros c st H. apply (renderedPage_lookup L c st H).
  - intros c st H _. destruct (renderedPage_lookup L c st H) as [-> _].
    apply shownClosed_rendered.
  - intros c H. discriminate H.
  - intros _. repeat split.
  - intros c H. discriminate H.
Qed.

(** *** closeTimelineJobModal *)

Lemma closeTimelineJobModal_tidy L p restoreFocus :
  modalElements L = ModalComplete -> tidy L p ->
  tidy L (closeTimelineJobModal L p restoreFocus)
  /\ activeTimelineModalCheckbox (closeTimelineJobModal L p restoreFocus) = None.
Proof.
  intros Hmodal [Hkeys Hothers Howner Hunowned].
  unfold closeTimelineJobModal. rewrite Hmodal.
  destruct (activeTimelineModalCheckbox p) as [o|] eqn:Ho.
  - assert (H : tidy L (setTimelinePlusState
        {| controls := controls p; slideAttrs := slideAttrs p;
           triggerAttrs := triggerAttrs p; activeIndex := activeIndex p;
           previousDisabled := previousDisabled p;
           nextDisabled := nextDisabled p; timelineSingle := timelineSingle p;
           activeTimelineModalCheckbox := None;
           modalOpen := false; modalAriaHidden := true; bodyModalOpen := false;
           modalTitle := modalTitle p; modalMeta := modalMeta p;
           modalDescription := modalDescription p; focus := focus p |}
        o false false)).
    { split; cbn.
      - intros c st. destruct (decide (c = o)) as [->|Hne].
        + intros _. apply describes_elem. apply (Howner o eq_refl).
        + rewrite lookup_insert_ne by congruence. apply Hkeys.
      - intros c st. destruct (decide (c = o)) as [->|Hne].
        + rewrite lookup_insert_eq. intros [= <-] _. apply shownClosed_plusState.
        + rewrite lookup_insert_ne by congruence. intros H _.
          apply (Hothers c st H). congruence.
      - intros c H. discriminate H.
      - intros _. repeat split. }
    destruct restoreFocus; (split; [|reflexivity]); [|exact H].
    destruct H as [H1 H2 H3 H4]. split; assumption.
  - split; [|reflexivity]. split; cbn.
    + exact Hkeys.
    + intros c st H _. apply (Hothers c st H). discriminate.
    + intros c H. discriminate H.
    + intros _. repeat split.
Qed.

Lemma closeTimelineJobModal_ownerOpen L p restoreFocus :
  modalElements L = ModalComplete ->
  ownerOpen (closeTimelineJobModal L p restoreFocus).
Proof.
  intros Hmodal c Hc.
  unfold closeTimelineJobModal in Hc. rewrite Hmodal in Hc.
  destruct (activeTimelineModalCheckbox p); [destruct restoreFocus|];
    discriminate Hc.
Qed.

(** *** setActiveSlide *)

Lemma switched_tidy L p index :
  tidy L p -> tidy L (switched L p index).
Proof.
  intros [Hkeys Hothers Howner Hunowned]. split.
  - intros c st. cbn [controls switched]. rewrite clearInactive_lookup.
    destruct (inInactiveSlide (normalized L index) 0 (slides L) c) eqn:E.
    + intros _. exact (inInactiveSlide_elem _ _ _ _ E).
    + apply Hkeys.
  - intros c st. cbn [controls switched activeTimelineModalCheckbox].
    rewrite clearInactive_lookup.
    destruct (inInactiveSlide (normalized L index) 0 (slides L) c).
    + intros [= <-] _. apply shownClosed_plusState.
    + apply Hothers.
  - exact Howner.
  - exact Hunowned.
Qed.

Lemma withFocus_tidy L p f : tidy L p -> tidy L (withFocus p f).
Proof. intros [H1 H2 H3 H4]. split; assumption. Qed.

Lemma setActiveSlide_tidy L p index shouldFocusTrigger :
  modalElements L = ModalComplete -> NoDup (concat (slides L)) ->
  tidy L p -> ownerOpen p ->
  tidy L (setActiveSlide L p index shouldFocusTrigger)
  /\ ownerOpen (setActiveSlide L p index shouldFocusTrigger).
Proof.
  intros Hmodal Hnd Ht Ho.
  rewrite setActiveSlide_unfold. cbv zeta.
  assert (H : tidy L (if ownerStays L p index then switched L p index
                      else closeTimelineJobModal L (switched L p index) false)
              /\ ownerOpen (if ownerStays L p index then switched L p index
                            else closeTimelineJobModal L (switched L p index) false)).
  { destruct (ownerStays L p index) eqn:Hstay.
    - split; [apply switched_tidy, Ht|].
      intros c Hc. cbn [activeTimelineModalCheckbox switched] in Hc.
      cbn [controls switched]. rewrite clearInactive_lookup.
      rewrite (ownerStays_not_inactive L p index c Hnd Hc Hstay).
      apply Ho, Hc.
    - split; [apply closeTimelineJobModal_tidy; [exact Hmodal|]; apply switched_tidy, Ht|].
      apply closeTimelineJobModal_ownerOpen, Hmodal. }
  destruct H as [H1 H2].
  destruct shouldFocusTrigger; [|split; assumption].
  destruct (Projects.arrayAt (slides L) (normalized L index)); [|split; assumption].
  split; [apply withFocus_tidy, H1|exact H2].
Qed.

(** *** The change listener *)

Lemma flipChecked_lookup_ne p c d :
  d <> c -> controls (flipChecked p c) !! d = controls p !! d.
Proof. intros H. cbn. apply lookup_alter_ne. congruence. Qed.

Lemma flipChecked_lookup_none p c :
  controls p !! c = None -> forall d, controls (flipChecked p c) !! d = controls p !! d.
Proof.
  intros H d. destruct (decide (d = c)) as [->|Hne];
    [|apply flipChecked_lookup_ne, Hne].
  cbn. rewrite lookup_alter_eq, H. reflexivity.
Qed.

Lemma flipChecked_keys p c d st :
  controls (flipChecked p c) !! d = Some st -> exists st', controls p !! d = Some st'.
Proof.
  destruct (decide (d = c)) as [->|Hne].
  - cbn. rewrite lookup_alter_eq.
    destruct (controls p !! c) as [st'|]; [eauto|discriminate].
  - rewrite flipChecked_lookup_ne by exact Hne. eauto.
Qed.

Lemma toggle_tidy L p c :
  modalElements L = ModalComplete ->
  tidy L p -> ownerOpen p ->
  tidy L (timelinePlusGoXHandler L (flipChecked p c) c)
  /\ ownerOpen (timelinePlusGoXHandler L (flipChecked p c) c).
Proof.
  intros Hmodal Ht Ho. pose proof Ht as [Hkeys Hothers Howner Hunowned].
  unfold timelinePlusGoXHandler.
  destruct (closestSlide (slides L) c 0) as [index|] eqn:Hslide.
  2:{ (* the control is in no slide: it is not on the page *)
    assert (Hc : controls p !! c = None).
    { destruct (controls p !! c) as [st|] eqn:E; [|reflexivity].
      exfalso. exact (closestSlide_none _ _ _ Hslide (Hkeys c st E)). }
    split; [split|].
    - intros d st. rewrite (flipChecked_lookup_none p c Hc). apply Hkeys.
    - intros d st. rewrite (flipChecked_lookup_none p c Hc). apply Hothers.
    - exact Howner.
    - exact Hunowned.
    - intros d Hd. rewrite (flipChecked_lookup_none p c Hc). apply Ho, Hd. }
  assert (Hin : c ∈ concat (slides L)) by exact (closestSlide_elem _ _ _ _ Hslide).
  assert (Hsnap : (forall entry, renderedTimelineEntries L !! index = Some entry ->
                                 trim (default [] (description entry)) = []) ->
                  tidy L (setTimelinePlusState (flipChecked p c) c false false)
                  /\ ownerOpen (setTimelinePlusState (flipChecked p c) c false false)).
  { intros Hblank.
    assert (Hno : activeTimelineModalCheckbox p <> Some c).
    { intros Hc. destruct (Howner c Hc) as [(i & e & Hi & He & Hd) _].
      rewrite Hslide in Hi. injection Hi as <-. exact (Hd (Hblank e He)). }
    split; [split|]; cbn [controls setTimelinePlusState withControls
                         activeTimelineModalCheckbox modalOpen bodyModalOpen
                         modalAriaHidden].
    - intros d st. destruct (decide (d = c)) as [->|Hne]; [intros _; exact Hin|].
      rewrite lookup_insert_ne by congruence.
      intros H. destruct (flipChecked_keys p c d st H) as [st' H'].
      exact (Hkeys d st' H').
    - intros d st. destruct (decide (d = c)) as [->|Hne].
      + rewrite lookup_insert_eq. intros [= <-] _. apply shownClosed_plusState.
      + rewrite lookup_insert_ne by congruence.
        rewrite (flipChecked_lookup_ne p c d Hne). apply Hothers.
    - exact Howner.
    - exact Hunowned.
    - intros d Hd. change (activeTimelineModalCheckbox p = Some d) in Hd.
      assert (d <> c) by congruence.
      cbn [controls setTimelinePlusState withControls].
      rewrite lookup_insert_ne by congruence.
      rewrite (flipChecked_lookup_ne p c d) by assumption. apply Ho, Hd. }
  destruct (renderedTimelineEntries L !! index) as [entry|] eqn:Hentry.
  2:{ apply Hsnap. intros entry H. discriminate H. }
  destruct (trim (default [] (description entry))) as [|ch rest] eqn:Hdesc.
  { cbn [truthy negb]. apply Hsnap. intros e [= <-]. exact Hdesc. }
  cbn [truthy negb].
  assert (Hdescribes : describes L c).
  { exists index, entry. rewrite Hdesc.
    split; [exact Hslide|split; [exact Hentry|discriminate]]. }
  assert (Hclose :
    tidy L (setTimelinePlusState
              (closeTimelineJobModal L (flipChecked p c) false) c false true)
    /\ ownerOpen (setTimelinePlusState
                    (closeTimelineJobModal L (flipChecked p c) false) c false true)).
  { unfold closeTimelineJobModal. rewrite Hmodal.
    change (activeTimelineModalCheckbox (flipChecked p c))
      with (activeTimelineModalCheckbox p).
    destruct (activeTimelineModalCheckbox p) as [o|] eqn:Howned.
    - split; [split|]; cbn.
      + intros d st. destruct (decide (d = c)) as [->|Hne]; [intros _; exact Hin|].
        rewrite lookup_insert_ne by congruence.
        destruct (decide (d = o)) as [->|Hne'].
        * intros _. apply describes_elem, (Howner o eq_refl).
        * rewrite lookup_insert_ne by congruence.
          rewrite lookup_alter_ne by congruence. apply Hkeys.
      + intros d st. destruct (decide (d = c)) as [->|Hne].
        * rewrite lookup_insert_eq. intros [= <-] _. repeat split.
        * rewrite lookup_insert_ne by congruence.
          destruct (decide (d = o)) as [->|Hne'].
          -- rewrite lookup_insert_eq. intros [= <-] _. repeat split.
          -- rewrite lookup_insert_ne by congruence.
             rewrite lookup_alter_ne by congruence. intros H _.
             apply (Hothers d st H). congruence.
      + intros d H. discriminate H.
      + intros _. repeat split.
      + intros d H. discriminate H.
    - split; [split|]; cbn.
      + intros d st. destruct (decide (d = c)) as [->|Hne]; [intros _; exact Hin|].
        rewrite lookup_insert_ne by congruence.
        rewrite lookup_alter_ne by congruence. apply Hkeys.
      + intros d st. destruct (decide (d = c)) as [->|Hne].
        * rewrite lookup_insert_eq. intros [= <-] _. repeat split.
        * rewrite lookup_insert_ne by congruence.
          rewrite lookup_alter_ne by congruence. intros H _.
          apply (Hothers d st H). discriminate.
      + intros d H. discriminate H.
      + intros _. repeat split.
      + intros d H. discriminate H. }
  destruct (controls (flipChecked p c) !! c) as [[[|] ? ? ? ? ?]|] eqn:Hst;
    [|exact Hclose|exact Hclose].
  (* the control is now checked: the modal opens for it *)
  unfold openTimelineJobModal. rewrite Hmodal.
  change (activeTimelineModalCheckbox (flipChecked p c))
    with (activeTimelineModalCheckbox p).
  assert (Hopen : forall q : Page,
    (forall d, d <> c -> forall st, controls q !! d = Some st ->
               d ∈ concat (slides L) /\ shownClosed st) ->
    let p2 := setTimelinePlusState q c true true in
    let p' :=
      {| controls := controls p2; slideAttrs := slideAttrs p2;
         triggerAttrs := triggerAttrs p2; activeIndex := activeIndex p2;
         previousDisabled := previousDisabled p2;
         nextDisabled := nextDisabled p2; timelineSingle := timelineSingle p2;
         activeTimelineModalCheckbox := Some c;
         modalOpen := true; modalAriaHidden := false; bodyModalOpen := true;
         modalTitle := fieldText (title entry);
         modalMeta :=
           join (js " " ++ [183] ++ js " ")
             (List.filter truthy [fieldText (subtitle entry); fieldText (date entry)]);
         modalDescription :=
           concat (map (fun line => js "<p>" ++ escapeHTML line ++ js "</p>")
                     (descriptionLines entry));
         focus := focus p2 |} in
    tidy L p' /\ ownerOpen p').
  { intros q Hq p2 p'. split; [split|]; cbn.
    - intros d st. destruct (decide (d = c)) as [->|Hne]; [intros _; exact Hin|].
      rewrite lookup_insert_ne by congruence. intros H.
      apply (Hq d Hne st H).
    - intros d st. destruct (decide (d = c)) as [->|Hne]; [congruence|].
      rewrite lookup_insert_ne by congruence. intros H _.
      apply (Hq d Hne st H).
    - intros d [= <-]. split; [exact Hdescribes|]. repeat split.
    - discriminate.
    - intros d [= <-]. apply lookup_insert_eq. }
  destruct (activeTimelineModalCheckbox p) as [o|] eqn:Howned.
  - destruct (decide (o = c)) as [->|Hne].
    + rewrite bool_decide_eq_true_2 by reflexivity. apply Hopen.
      intros d Hd st. rewrite (flipChecked_lookup_ne p c d Hd). intros H.
      split; [exact (Hkeys d st H)|]. apply (Hothers d st H). congruence.
    + rewrite bool_decide_eq_false_2 by exact Hne. apply Hopen.
      intros d Hd st. cbn [controls setTimelinePlusState withControls].
      destruct (decide (d = o)) as [->|Hne'].
      * rewrite lookup_insert_eq. intros [= <-].
        split; [apply describes_elem, (Howner o eq_refl)|repeat split].
      * rewrite lookup_insert_ne by congruence.
        rewrite (flipChecked_lookup_ne p c d Hd). intros H.
        split; [exact (Hkeys d st H)|]. apply (Hothers d st H). congruence.
  - apply Hopen.
    intros d Hd st. rewrite (flipChecked_lookup_ne p c d Hd). intros H.
    split; [exact (Hkeys d st H)|]. apply (Hothers d st H). discriminate.
Qed.

Lemma handle_tidy L p e :
  modalElements L = ModalComplete -> NoDup (concat (slides L)) ->
  tidy L p -> ownerOpen p ->
  tidy L (handle L p e) /\ ownerOpen (handle L p e).
Proof.
  intros Hmodal Hnd Ht Ho.
  destruct e; cbn [handle];
    try (apply setActiveSlide_tidy; assumption);
    try (split; [apply closeTimelineJobModal_tidy; assumption
                |apply closeTimelineJobModal_ownerOpen; assumption]).
  apply toggle_tidy; assumption.
Qed.

Lemma run_tidy L events :
  modalElements L = ModalComplete -> NoDup (concat (slides L)) ->
  tidy L (run L events) /\ ownerOpen (run L events).
Proof.
  intros Hmodal Hnd. unfold run.
  assert (Hstart : tidy L (setupTimelinePager L) /\ ownerOpen (setupTimelinePager L)).
  { destruct (renderedPage_tidy L) as [Ht Ho].
    pose proof (setActiveSlide_tidy L (renderedPage L) 0 false Hmodal Hnd Ht Ho)
      as Hset.
    unfold setupTimelinePager. destruct (slides L); [split; assumption|exact Hset]. }
  revert Hstart. generalize (setupTimelinePager L).
  induction events as [|e events IH]; intros p [Ht Ho]; [split; assumption|].
  cbn [fold_left]. apply IH. apply handle_tidy; assumption.
Qed.

(** After any sequence of clicks, key presses and toggles on a page whose
    modal is complete and whose slides share no control: a control that
    shows open in any way (checked, [aria-expanded], or one of the two
    classes) is the owner of the modal and is fully open; so at most one
    control shows open; and the modal is shown exactly when it has an
    owner. *)
Theorem one_open_control_at_most :
  forall (L : Layout) (events : list Event),
    modalElements L = ModalComplete ->
    NoDup (concat (slides L)) ->
    let p := run L events in
    (forall c st,
        controls p !! c = Some st ->
        checked st = true \/ ariaExpanded st = true
        \/ labelChecked st = true \/ containerOpen st = true ->
        activeTimelineModalCheckbox p = Some c
        /\ st = {| checked := true; ariaExpanded := true; labelChecked := true;
                   containerOpen := true; iconAnimating := false;
                   iconAnimation := AnimationMakeX |})
    /\ (forall c d stc std,
          controls p !! c = Some stc -> controls p !! d = Some std ->
          checked stc = true -> checked std = true -> c = d)
    /\ (forall c, activeTimelineModalCheckbox p = Some c ->
          controls p !! c
          = Some {| checked := true; ariaExpanded := true; labelChecked := true;
                    containerOpen := true; iconAnimating := false;
                    iconAnimation := AnimationMakeX |}
          /\ modalOpen p = true /\ bodyModalOpen p = true
          /\ modalAriaHidden p = false)
    /\ (activeTimelineModalCheckbox p = None ->
          modalOpen p = false /\ bodyModalOpen p = false
          /\ modalAriaHidden p = true).
Proof.
  intros L events Hmodal Hnd p.
  destruct (run_tidy L events Hmodal Hnd) as [[Hkeys Hothers Howner Hunowned] Ho].
  fold p in Hkeys, Hothers, Howner, Hunowned, Ho.
  assert (Hshown : forall c st,
    controls p !! c = Some st ->
    checked st = true \/ ariaExpanded st = true
    \/ labelChecked st = true \/ containerOpen st = true ->
    activeTimelineModalCheckbox p = Some c /\ st = plusState true true).
  { intros c st Hst Hopen.
    destruct (decide (activeTimelineModalCheckbox p = Some c)) as [Hc|Hc].
    - split; [exact Hc|]. specialize (Ho c Hc). congruence.
    - destruct (Hothers c st Hst Hc) as (H1 & H2 & H3 & H4).
      destruct Hopen as [H|[H|[H|H]]]; congruence. }
  split; [exact Hshown|]. split; [|split; [|exact Hunowned]].
  - intros c d stc std Hc Hd Hcc Hdc.
    destruct (Hshown c stc Hc (or_introl Hcc)) as [H1 _].
    destruct (Hshown d std Hd (or_introl Hdc)) as [H2 _]. congruence.
  - intros c Hc. split; [exact (Ho c Hc)|]. apply (Howner c Hc).
Qed.

Lemma one_open_control_at_most_witness :
  let p := run twoJobs [ToggleControl 0; ToggleControl 1] in
  controls p !! 1%nat
  = Some {| checked := true; ariaExpanded := true; labelChecked := true;
            containerOpen := true; iconAnimating := false;
            iconAnimation := AnimationMakeX |}
  /\ modalOpen p = true.
Proof.
  assert (Hnd : NoDup (concat (slides twoJobs))).
  { apply (bool_decide_unpack (NoDup (concat (slides twoJobs)))).
    vm_compute. exact I. }
  destruct (one_open_control_at_most twoJobs [ToggleControl 0; ToggleControl 1]
              eq_refl Hnd) as (_ & _ & H & _).
  destruct (H 1%nat ltac:(vm_compute; reflexivity)) as (H1 & H2 & _).
  cbv zeta. split; assumption.
Defined.

(** *** The pager *)

(** The slide and trigger attributes show the active index. *)
Definition pagerShown (L : Layout) (p : Page) : Prop :=
  slideAttrs p
  = imap (fun i _ =>
            {| slideActive := Z.of_nat i =? activeIndex p;
               slideAriaHidden := negb (Z.of_nat i =? activeIndex p);
               slideTabindex := if Z.of_nat i =? activeIndex p then 0 else -1 |})
         (slides L)
  /\ triggerAttrs p
     = imap (fun i _ =>
               {| triggerActive := Z.of_nat i =? activeIndex p;
                  triggerAriaSelected := Z.of_nat i =? activeIndex p;
                  triggerTabindex := if Z.of_nat i =? activeIndex p then 0 else -1;
                  triggerAriaCurrent := Z.of_nat i =? activeIndex p |})
            (slides L).

Definition inRange (L : Layout) (p : Page) : Prop :=
  0 <= activeIndex p < Z.of_nat (length (slides L)).

Lemma normalized_mod L index :
  slides L <> [] -> - Z.of_nat (length (slides L)) <= index ->
  normalized L index = index mod Z.of_nat (length (slides L))
  /\ 0 <= normalized L index < Z.of_nat (length (slides L)).
Proof.
  intros Hne Hlow.
  assert (HN : 0 < Z.of_nat (length (slides L))).
  { destruct (slides L); [congruence|cbn [length]; lia]. }
  unfold normalized, jsrem.
  destruct (rem_add_normalizes index _ HN Hlow) as [-> _].
  split; [reflexivity|]. apply Z.mod_pos_bound, HN.
Qed.

Lemma closeTimelineJobModal_pager L p restoreFocus :
  activeIndex (closeTimelineJobModal L p restoreFocus) = activeIndex p
  /\ slideAttrs (closeTimelineJobModal L p restoreFocus) = slideAttrs p
  /\ triggerAttrs (closeTimelineJobModal L p restoreFocus) = triggerAttrs p.
Proof.
  unfold closeTimelineJobModal.
  destruct (modalElements L), (activeTimelineModalCheckbox p), restoreFocus;
    repeat split.
Qed.

Lemma timelinePlusGoXHandler_pager L p c :
  activeIndex (timelinePlusGoXHandler L p c) = activeIndex p
  /\ slideAttrs (timelinePlusGoXHandler L p c) = slideAttrs p
  /\ triggerAttrs (timelinePlusGoXHandler L p c) = triggerAttrs p.
Proof.
  unfold timelinePlusGoXHandler.
  destruct (closestSlide (slides L) c 0); [|repeat split].
  destruct (renderedTimelineEntries L !! n) as [entry|]; [|repeat split].
  destruct (negb (truthy (trim (default [] (description entry)))));
    [repeat split|].
  assert (Hclose :
    activeIndex (setTimelinePlusState (closeTimelineJobModal L p false) c false true)
    = activeIndex p
    /\ slideAttrs (setTimelinePlusState (closeTimelineJobModal L p false) c false true)
       = slideAttrs p
    /\ triggerAttrs
         (setTimelinePlusState (closeTimelineJobModal L p false) c false true)
       = triggerAttrs p).
  { exact (closeTimelineJobModal_pager L p false). }
  destruct (controls p !! c) as [[[|] ? ? ? ? ?]|]; try exact Hclose.
  unfold openTimelineJobModal.
  destruct (modalElements L); try (repeat split).
  all: destruct (activeTimelineModalCheckbox p) as [o|]; [|reflexivity].
  all: destruct (bool_decide (o = c)); reflexivity.
Qed.

Lemma setActiveSlide_pager L p index shouldFocusTrigger :
  pagerShown L (setActiveSlide L p index shouldFocusTrigger).
Proof.
  unfold pagerShown. rewrite setActiveSlide_activeIndex.
  rewrite setActiveSlide_unfold. cbv zeta.
  assert (H : forall q,
    q = (if ownerStays L p index then switched L p index
         else closeTimelineJobModal L (switched L p index) false) ->
    slideAttrs q = slideAttrs (switched L p index)
    /\ triggerAttrs q = triggerAttrs (switched L p index)).
  { intros q ->. destruct (ownerStays L p index); [split; reflexivity|].
    destruct (closeTimelineJobModal_pager L (switched L p index) false)
      as (_ & H1 & H2). split; assumption. }
  specialize (H _ eq_refl).
  destruct shouldFocusTrigger;
    [destruct (Projects.arrayAt (slides L) (normalized L index))|]; exact H.
Qed.

Lemma handle_pager L p e :
  slides L <> [] -> inRange L p -> pagerShown L p ->
  inRange L (handle L p e) /\ pagerShown L (handle L p e).
Proof.
  intros Hne Hr Hs. unfold inRange in *.
  assert (Hset : forall index f,
    - Z.of_nat (length (slides L)) <= index ->
    0 <= activeIndex (setActiveSlide L p index f) < Z.of_nat (length (slides L))
    /\ pagerShown L (setActiveSlide L p index f)).
  { intros index f Hlow. split; [|apply setActiveSlide_pager].
    rewrite setActiveSlide_activeIndex. apply normalized_mod; assumption. }
  assert (Hkeep : forall q,
    activeIndex q = activeIndex p /\ slideAttrs q = slideAttrs p
    /\ triggerAttrs q = triggerAttrs p ->
    0 <= activeIndex q < Z.of_nat (length (slides L)) /\ pagerShown L q).
  { intros q (H1 & H2 & H3). unfold pagerShown. rewrite H1, H2, H3.
    split; assumption. }
  destruct e; cbn [handle]; try (apply Hset; lia).
  - apply Hkeep, closeTimelineJobModal_pager.
  - apply Hkeep, closeTimelineJobModal_pager.
  - apply Hkeep. apply (timelinePlusGoXHandler_pager L (flipChecked p c) c).
Qed.

Lemma run_pager L events :
  slides L <> [] -> inRange L (run L events) /\ pagerShown L (run L events).
Proof.
  intros Hne. unfold run.
  assert (Hstart : inRange L (setupTimelinePager L)
                   /\ pagerShown L (setupTimelinePager L)).
  { unfold setupTimelinePager.
    assert (H : inRange L (setActiveSlide L (renderedPage L) 0 false)
                /\ pagerShown L (setActiveSlide L (renderedPage L) 0 false)).
    { split; [|apply setActiveSlide_pager]. unfold inRange.
      rewrite setActiveSlide_activeIndex. apply normalized_mod; [exact Hne|lia]. }
    destruct (slides L); [congruence|exact H]. }
  revert Hstart. generalize (setupTimelinePager L).
  induction events as [|e events IH]; intros p [Hr Hs]; [split; assumption|].
  cbn [fold_left]. apply IH. apply handle_pager; assumption.
Qed.

(** After any sequence of events on a pager with slides, the active index
    is the position of a slide, and exactly that slide is marked active,
    exposed ([aria-hidden] false) and reachable by tabulation; every other
    slide is hidden with [tabindex] -1; the triggers are marked the same
    way. *)
Theorem one_active_slide :
  forall (L : Layout) (events : list Event),
    slides L <> [] ->
    let p := run L events in
    0 <= activeIndex p < Z.of_nat (length (slides L))
    /\ length (slideAttrs p) = length (slides L)
    /\ length (triggerAttrs p) = length (slides L)
    /\ (forall i attrs,
          slideAttrs p !! i = Some attrs ->
          if Z.of_nat i =? activeIndex p
          then attrs = {| slideActive := true; slideAriaHidden := false;
                          slideTabindex := 0 |}
          else attrs = {| slideActive := false; slideAriaHidden := true;
                          slideTabindex := -1 |})
    /\ (forall i attrs,
          triggerAttrs p !! i = Some attrs ->
          if Z.of_nat i =? activeIndex p
          then attrs = {| triggerActive := true; triggerAriaSelected := true;
                          triggerTabindex := 0; triggerAriaCurrent := true |}
          else attrs = {| triggerActive := false; triggerAriaSelected := false;
                          triggerTabindex := -1; triggerAriaCurrent := false |}).
Proof.
  intros L events Hne p.
  destruct (run_pager L events Hne) as [Hr [Hs Ht]]. fold p in Hr, Hs, Ht.
  split; [exact Hr|]. rewrite Hs, Ht.
  split; [apply length_imap|]. split; [apply length_imap|]. split.
  - intros i attrs H. rewrite list_lookup_imap in H.
    destruct (slides L !! i); [|discriminate]. injection H as <-.
    destruct (Z.of_nat i =? activeIndex p); reflexivity.
  - intros i attrs H. rewrite list_lookup_imap in H.
    destruct (slides L !! i); [|discriminate]. injection H as <-.
    destruct (Z.of_nat i =? activeIndex p); reflexivity.
Qed.

Lemma one_active_slide_witness :
  0 <= activeIndex (run twoJobs [ClickNext; ClickNext; ClickPrevious])
  < Z.of_nat (length (slides twoJobs)).
Proof.
  exact (proj1 (one_active_slide twoJobs [ClickNext; ClickNext; ClickPrevious]
                  ltac:(discriminate))).
Defined.

(** The previous and next buttons and the arrow keys step the active index
    by one modulo the number of slides: next from the last slide gives the
    first, previous from the first gives the last, and one undoes the
    other. *)
Theorem pager_wraps_around :
  forall (L : Layout) (events : list Event),
    slides L <> [] ->
    let p := run L events in
    let N := Z.of_nat (length (slides L)) in
    activeIndex (handle L p ClickNext) = (activeIndex p + 1) mod N
    /\ activeIndex (handle L p ClickPrevious) = (activeIndex p - 1) mod N
    /\ activeIndex (handle L p KeyArrowRight) = (activeIndex p + 1) mod N
    /\ activeIndex (handle L p KeyArrowLeft) = (activeIndex p - 1) mod N
    /\ (activeIndex p = N - 1 -> activeIndex (handle L p ClickNext) = 0)
    /\ (activeIndex p = 0 -> activeIndex (handle L p ClickPrevious) = N - 1)
    /\ activeIndex (handle L (handle L p ClickNext) ClickPrevious) = activeIndex p
    /\ activeIndex (handle L (handle L p ClickPrevious) ClickNext) = activeIndex p.
Proof.
  intros L events Hne p N.
  destruct (run_pager L events Hne) as [Hr _]. fold p in Hr.
  unfold inRange in Hr. fold N in Hr.
  assert (Hstep : forall q index f,
    - N <= index -> activeIndex (setActiveSlide L q index f) = index mod N).
  { intros q index f Hlow. rewrite setActiveSlide_activeIndex.
    apply normalized_mod; assumption. }
  cbn [handle]. rewrite !Hstep by lia.
  assert (Hup : 0 <= (activeIndex p + 1) mod N < N) by (apply Z.mod_pos_bound; lia).
  assert (Hdown : 0 <= (activeIndex p - 1) mod N < N) by (apply Z.mod_pos_bound; lia).
  rewrite !Hstep by lia.
  repeat split.
  - intros H. rewrite H. replace (N - 1 + 1) with (1 * N) by lia.
    apply Z.mod_mul. lia.
  - intros H. rewrite H. replace (0 - 1) with (N - 1 + (-1) * N) by lia.
    rewrite Z.mod_add by lia. apply Z.mod_small. lia.
  - rewrite Zminus_mod_idemp_l. replace (activeIndex p + 1 - 1) with (activeIndex p) by lia.
    apply Z.mod_small, Hr.
  - rewrite Zplus_mod_idemp_l. replace (activeIndex p - 1 + 1) with (activeIndex p) by lia.
    apply Z.mod_small, Hr.
Qed.

Lemma pager_wraps_around_witness :
  activeIndex (handle twoJobs (run twoJobs [ClickNext]) ClickNext) = 0.
Proof.
  destruct (pager_wraps_around twoJobs [ClickNext] ltac:(discriminate))
    as (_ & _ & _ & _ & H & _).
  apply H. vm_compute. reflexivity.
Defined.

(** *** Closing the modal *)

Lemma closeTimelineJobModal_unowned L p restoreFocus :
  activeTimelineModalCheckbox p = None ->
  modalOpen p = false -> bodyModalOpen p = false -> modalAriaHidden p = true ->
  closeTimelineJobModal L p restoreFocus = p.
Proof.
  intros Ho H1 H2 H3. destruct p. cbn in Ho, H1, H2, H3. subst.
  unfold closeTimelineJobModal. cbn. destruct (modalElements L); reflexivity.
Qed.

(** The Escape key and the close button of the modal, on any reachable
    page: when the modal is owned, it is hidden, its owner forgotten and
    written closed with no animation, focus goes back to that control and
    no other control changes; when it is not owned, nothing changes; so
    closing twice is closing once. *)
Theorem escape_closes_and_restores_focus :
  forall (L : Layout) (events : list Event),
    modalElements L = ModalComplete ->
    NoDup (concat (slides L)) ->
    let p := run L events in
    let p' := handle L p KeyEscape in
    handle L p ClickModalClose = p'
    /\ (forall c,
          activeTimelineModalCheckbox p = Some c ->
          activeTimelineModalCheckbox p' = None
          /\ modalOpen p' = false /\ bodyModalOpen p' = false
          /\ modalAriaHidden p' = true
          /\ controls p' !! c
             = Some {| checked := false; ariaExpanded := false;
                       labelChecked := false; containerOpen := false;
                       iconAnimating := false; iconAnimation := AnimationNone |}
          /\ focus p' = Some (CheckboxElement c)
          /\ (forall d, d <> c -> controls p' !! d = controls p !! d))
    /\ (activeTimelineModalCheckbox p = None -> p' = p)
    /\ handle L p' KeyEscape = p'.
Proof.
  intros L events Hmodal Hnd p p'.
  destruct (run_tidy L events Hmodal Hnd) as [[_ _ _ Hunowned] _].
  fold p in Hunowned.
  split; [reflexivity|]. split; [|split].
  - intros c Hc. subst p'. cbn [handle]. unfold closeTimelineJobModal.
    rewrite Hmodal, Hc. cbn. repeat split.
    + apply lookup_insert_eq.
    + intros d Hd. apply lookup_insert_ne. congruence.
  - intros Ho. destruct (Hunowned Ho) as (H1 & H2 & H3).
    subst p'. cbn [handle]. apply closeTimelineJobModal_unowned; assumption.
  - subst p'. cbn [handle]. apply closeTimelineJobModal_unowned.
    + unfold closeTimelineJobModal. rewrite Hmodal.
      destruct (activeTimelineModalCheckbox p); reflexivity.
    + unfold closeTimelineJobModal. rewrite Hmodal.
      destruct (activeTimelineModalCheckbox p); reflexivity.
    + unfold closeTimelineJobModal. rewrite Hmodal.
      destruct (activeTimelineModalCheckbox p); reflexivity.
    + unfold closeTimelineJobModal. rewrite Hmodal.
      destruct (activeTimelineModalCheckbox p); reflexivity.
Qed.

Lemma escape_closes_and_restores_focus_witness :
  focus (handle twoJobs (run twoJobs [ToggleControl 0]) KeyEscape)
  = Some (CheckboxElement 0).
Proof.
  assert (Hnd : NoDup (concat (slides twoJobs))).
  { apply (bool_decide_unpack (NoDup (concat (slides twoJobs)))).
    vm_compute. exact I. }
  destruct (escape_closes_and_restores_focus twoJobs [ToggleControl 0]
              eq_refl Hnd) as (_ & H & _).
  destruct (H 0%nat ltac:(vm_compute; reflexivity)) as (_ & _ & _ & _ & _ & Hf & _).
  exact Hf.
Defined.

(** *** Checking and unchecking a control *)



End TimelineReach.

(** ** Typewriter engine: what a session does *)

Module EngineRuns.
Import Typewriter Engine EngineFacts.

(** The phases of [runHeroTypewriter]. *)
Definition linePhase (ph : Phase) : bool :=
  match ph with
  | Typing _ | Holding | Erasing _ | BetweenLines => true
  | _ => false
  end.

(** A loop suspended on a pending, cancellable wait, in a runner that has
    what it reads: the pair runner runs only over a non-empty pair list. *)
Definition suspended (lines : list jsstring) (pr : Progress) : Prop :=
  match pr with
  | Awaiting r w =>
      (exists d, w = waitForDelay d (Some false))
      /\ (linePhase (phase r) = true \/ pairs lines <> [])
  | _ => False
  end.

Lemma currentLine_some lines i :
  lines <> [] -> exists line, currentLine lines i = Some line.
Proof.
  intros Hne. unfold currentLine. destruct lines as [|l lines]; [congruence|].
  apply lookup_lt_is_Some. apply Nat.mod_upper_bound. discriminate.
Qed.

Lemma currentPair_some lines i :
  pairs lines <> [] -> exists p, currentPair lines i = Some p.
Proof.
  intros Hne. unfold currentPair. destruct (pairs lines) as [|p ps]; [congruence|].
  apply lookup_lt_is_Some. apply Nat.mod_upper_bound. discriminate.
Qed.

Ltac suspend :=
  rewrite ?await_live; cbn [suspended phase linePhase]; split; eauto.

Lemma typingFrom_suspended lines pattern jitter i line count html n :
  suspended lines (typingFrom pattern jitter false i line count html n).
Proof. unfold typingFrom. destruct (count <=? length line)%nat; suspend. Qed.

Lemma erasingFrom_suspended lines pattern i line count html n :
  suspended lines (erasingFrom pattern false i line count html n).
Proof. unfold erasingFrom. destruct count; suspend. Qed.

Lemma lineLoop_suspended lines pattern jitter i html n :
  lines <> [] -> suspended lines (lineLoop lines pattern jitter false i html n).
Proof.
  intros Hne. unfold lineLoop.
  destruct (currentLine_some lines i Hne) as [line ->].
  apply typingFrom_suspended.
Qed.

Lemma typingAnswerFrom_suspended lines pattern jitter i p count html n :
  pairs lines <> [] ->
  suspended lines (typingAnswerFrom pattern jitter false i p count html n).
Proof.
  intros Hp. unfold typingAnswerFrom.
  destruct (count <=? length (answer p))%nat; suspend.
Qed.

Lemma typingQuestionFrom_suspended lines pattern jitter i p count html n :
  pairs lines <> [] ->
  suspended lines (typingQuestionFrom pattern jitter false i p count html n).
Proof.
  intros Hp. unfold typingQuestionFrom.
  destruct (count <=? length (question p))%nat; [suspend|].
  destruct ((0 <? length (question p))%nat && (0 <? length (answer p))%nat);
    [suspend|apply typingAnswerFrom_suspended, Hp].
Qed.

Lemma erasingQuestionFrom_suspended lines pattern i p count html n :
  pairs lines <> [] ->
  suspended lines (erasingQuestionFrom pattern false i p count html n).
Proof. intros Hp. unfold erasingQuestionFrom. destruct count; suspend. Qed.

Lemma erasingAnswerFrom_suspended lines pattern i p count html n :
  pairs lines <> [] ->
  suspended lines (erasingAnswerFrom pattern false i p count html n).
Proof.
  intros Hp. unfold erasingAnswerFrom. destruct count; [suspend|].
  apply erasingQuestionFrom_suspended, Hp.
Qed.

Lemma pairLoop_suspended lines pattern jitter i html n :
  pairs lines <> [] ->
  suspended lines (pairLoop lines pattern jitter false i html n).
Proof.
  intros Hp. unfold pairLoop.
  destruct (currentPair_some lines i Hp) as [p ->].
  apply typingQuestionFrom_suspended, Hp.
Qed.

Lemma startRunner_suspended lines pattern jitter asPairs html :
  lines <> [] ->
  suspended lines (startRunner lines pattern jitter false asPairs html).
Proof.
  intros Hne. unfold startRunner.
  destruct asPairs; cbn [andb]; [|apply lineLoop_suspended, Hne].
  destruct (pairs lines) as [|p ps] eqn:Hp; cbn [length Nat.ltb Nat.leb];
    [apply lineLoop_suspended, Hne|].
  change (0 <? S (length ps))%nat with true. cbn iota.
  apply pairLoop_suspended. rewrite Hp. discriminate.
Qed.

Lemma resume_suspended lines pattern jitter r :
  lines <> [] -> linePhase (phase r) = true \/ pairs lines <> [] ->
  suspended lines (resume lines pattern jitter false r).
Proof.
  intros Hne Hmode. unfold resume.
  destruct (linePhase (phase r)) eqn:Hph.
  - assert (Hres : suspended lines (resumeLine lines pattern jitter false r)).
    { unfold resumeLine.
      destruct (currentLine_some lines (index r) Hne) as [line ->].
      destruct (phase r);
        auto using typingFrom_suspended, erasingFrom_suspended, lineLoop_suspended. }
    destruct (phase r); try discriminate Hph; exact Hres.
  - assert (Hp : pairs lines <> []) by (destruct Hmode; [discriminate|assumption]).
    assert (Hres : suspended lines (resumePair lines pattern jitter false r)).
    { unfold resumePair.
      destruct (currentPair_some lines (index r) Hp) as [p ->].
      destruct (phase r);
        auto using typingQuestionFrom_suspended, typingAnswerFrom_suspended,
          erasingAnswerFrom_suspended, erasingQuestionFrom_suspended,
          pairLoop_suspended. }
    destruct (phase r); try discriminate Hph; exact Hres.
Qed.

(** A session whose loop is suspended on a pending wait. *)
Definition running (s : Session) : Prop :=
  signalAborted s = false /\ sessionLines s <> []
  /\ exists r w,
       sessionState s = Running r w /\ textHTML s = innerHTML r
       /\ (exists d, w = waitForDelay d (Some false))
       /\ (linePhase (phase r) = true \/ pairs (sessionLines s) <> []).

Lemma advance_running s pr :
  signalAborted s = false -> sessionLines s <> [] ->
  suspended (sessionLines s) pr -> running (advance s pr).
Proof.
  intros Ha Hne Hpr. destruct pr as [r w|html|m html]; try contradiction.
  destruct Hpr as [Hw Hmode]. split; [exact Ha|]. split; [exact Hne|].
  exists r, w. repeat split; assumption.
Qed.

Lemma timer_running s : running s -> running (sessionStep s TimerFired).
Proof.
  intros (Ha & Hne & r & w & Hst & _ & (d & ->) & Hmode).
  unfold sessionStep. rewrite Hst. cbn [onTimeout waitForDelay timerArmed promise settle].
  apply advance_running; [exact Ha|exact Hne|]. rewrite Ha.
  apply resume_suspended; assumption.
Qed.

Lemma timers_running n : forall s,
  running s -> running (sessionRun s (repeat TimerFired n)).
Proof.
  induction n as [|n IH]; intros s Hs; [exact Hs|].
  cbn [repeat]. unfold sessionRun. cbn [fold_left]. apply IH, timer_running, Hs.
Qed.

Lemma start_running lines pattern asPairs jitter :
  lines <> [] ->
  running (sessionStep (freshSession lines pattern asPairs jitter) TimerFired).
Proof.
  intros Hne. unfold sessionStep. cbn [sessionState freshSession signalAborted].
  apply advance_running; [reflexivity|exact Hne|].
  apply startRunner_suspended, Hne.
Qed.

(** A session over a non-empty line list that is never aborted never ends:
    once its start delay has run out, after any number of timers it is
    suspended on a pending wait whose timer is armed, with the abort
    listener installed, and nothing was logged. *)
Theorem session_runs_until_aborted :
  forall (lines : list jsstring) (pattern : HighlightPattern) (asPairs : bool)
         (jitter : nat -> Z) (n : nat),
    lines <> [] ->
    let s := sessionRun (freshSession lines pattern asPairs jitter)
               (repeat TimerFired (S n)) in
    exists r w,
      sessionState s = Running r w
      /\ promise w = Pending /\ timerArmed w = true /\ abortListener w = true
      /\ textHTML s = innerHTML r
      /\ signalAborted s = false.
Proof.
  intros lines pattern asPairs jitter n Hne s.
  assert (Hs : running s).
  { subst s. cbn [repeat]. unfold sessionRun. cbn [fold_left].
    apply (timers_running n), start_running, Hne. }
  destruct Hs as (Ha & _ & r & w & Hst & Htext & (d & ->) & _).
  exists r, (waitForDelay d (Some false)). repeat split; assumption.
Qed.

Lemma session_runs_until_aborted_witness :
  exists r w,
    sessionState
      (sessionRun (freshSession [js "ab"] HERO_HIGHLIGHT_PATTERN false (fun _ => 0))
         (repeat TimerFired 40))
    = Running r w
    /\ promise w = Pending.
Proof.
  destruct (session_runs_until_aborted [js "ab"] HERO_HIGHLIGHT_PATTERN false
              (fun _ => 0) 39 ltac:(discriminate)) as (r & w & H1 & H2 & _).
  exists r, w. split; assumption.
Defined.

(** *** One line, typed and erased *)

(** A session of the line runner suspended in state [r] on a wait of [d]
    milliseconds. *)
Definition suspendedAt (lines : list jsstring) (pattern : HighlightPattern)
    (asPairs : bool) (jitter : nat -> Z) (r : Runner) (d : Z) : Session :=
  {| sessionLines := lines; sessionPattern := pattern; sessionPairs := asPairs;
     sessionJitter := jitter; signalAborted := false;
     sessionState := Running r (waitForDelay d (Some false));
     textHTML := innerHTML r |}.

Lemma sessionRun_snoc s k :
  sessionRun s (repeat TimerFired (S k))
  = sessionStep (sessionRun s (repeat TimerFired k)) TimerFired.
Proof.
  unfold sessionRun.
  change (repeat TimerFired (S k)) with (TimerFired :: repeat TimerFired k).
  rewrite repeat_cons, fold_left_app. reflexivity.
Qed.

Section OneLine.

Variable lines : list jsstring.
Variable pattern : HighlightPattern.
Variable jitter : nat -> Z.
Variable line : jsstring.
Hypothesis first_line : lines !! 0%nat = Some line.

Lemma currentLine_first : currentLine lines 0 = Some line.
Proof.
  unfold currentLine. destruct lines as [|l ls]; [discriminate|].
  rewrite Nat.Div0.mod_0_l. exact first_line.
Qed.

Let at_ (r : Runner) (d : Z) : Session := suspendedAt lines pattern false jitter r d.

Let after (k : nat) : Session :=
  sessionRun (freshSession lines pattern false jitter) (repeat TimerFired k).

(** The text element while the line is held: the whole line, or nothing
    yet written when the line is empty. *)
Definition heldText : jsstring :=
  match line with
  | [] => []
  | _ => renderTypewriterLine line pattern
  end.

(** The text element once the line is erased. *)
Definition erasedText : jsstring :=
  match line with
  | [] => []
  | _ => renderTypewriterLine [] pattern
  end.

Lemma step_typing c h n d :
  (S c <= length line)%nat ->
  sessionStep (at_ {| index := 0; phase := Typing c; innerHTML := h; draws := n |} d)
    TimerFired
  = at_ {| index := 0; phase := Typing (S c);
           innerHTML := renderTypewriterLine (take (S c) line) pattern;
           draws := S n |}
        (HERO_TYPING_DELAY_MS + jitter n).
Proof.
  intros Hc. unfold at_, suspendedAt, sessionStep.
  cbn [sessionState onTimeout waitForDelay timerArmed promise settle
       sessionLines sessionPattern sessionJitter signalAborted].
  unfold resume, resumeLine. cbn [phase index innerHTML draws].
  rewrite currentLine_first. unfold typingFrom.
  apply Nat.leb_le in Hc. rewrite Hc. reflexivity.
Qed.

Lemma step_typed h n d :
  sessionStep
    (at_ {| index := 0; phase := Typing (length line); innerHTML := h; draws := n |} d)
    TimerFired
  = at_ {| index := 0; phase := Holding; innerHTML := h; draws := n |}
        HERO_HOLD_DELAY_MS.
Proof.
  unfold at_, suspendedAt, sessionStep.
  cbn [sessionState onTimeout waitForDelay timerArmed promise settle
       sessionLines sessionPattern sessionJitter signalAborted].
  unfold resume, resumeLine. cbn [phase index innerHTML draws].
  rewrite currentLine_first. unfold typingFrom.
  assert (H : (S (length line) <=? length line)%nat = false)
    by (apply Nat.leb_gt; lia).
  rewrite H. reflexivity.
Qed.

Lemma step_erase ph c h n d :
  (ph = Holding /\ length line = S c) \/ ph = Erasing (S c) ->
  sessionStep (at_ {| index := 0; phase := ph; innerHTML := h; draws := n |} d)
    TimerFired
  = at_ {| index := 0; phase := Erasing c;
           innerHTML := renderTypewriterLine (take c line) pattern; draws := n |}
        HERO_ERASE_DELAY_MS.
Proof.
  intros Hph. unfold at_, suspendedAt, sessionStep.
  cbn [sessionState onTimeout waitForDelay timerArmed promise settle
       sessionLines sessionPattern sessionJitter signalAborted].
  unfold resume, resumeLine. cbn [phase index innerHTML draws].
  destruct Hph as [[-> Hlen]| ->]; rewrite currentLine_first;
    rewrite ?Hlen; reflexivity.
Qed.

Lemma step_erased ph h n d :
  (ph = Holding /\ length line = 0%nat) \/ ph = Erasing 0 ->
  sessionStep (at_ {| index := 0; phase := ph; innerHTML := h; draws := n |} d)
    TimerFired
  = at_ {| index := 0; phase := BetweenLines; innerHTML := h; draws := n |}
        HERO_BETWEEN_LINES_DELAY_MS.
Proof.
  intros Hph. unfold at_, suspendedAt, sessionStep.
  cbn [sessionState onTimeout waitForDelay timerArmed promise settle
       sessionLines sessionPattern sessionJitter signalAborted].
  unfold resume, resumeLine. cbn [phase index innerHTML draws].
  destruct Hph as [[-> Hlen]| ->]; rewrite currentLine_first;
    rewrite ?Hlen; reflexivity.
Qed.

Lemma after_typing k :
  (1 <= k <= length line)%nat ->
  after k
  = at_ {| index := 0; phase := Typing k;
           innerHTML := renderTypewriterLine (take k line) pattern; draws := k |}
        (HERO_TYPING_DELAY_MS + jitter (k - 1)).
Proof.
  induction k as [|k IH]; [lia|]. intros Hk. unfold after.
  rewrite sessionRun_snoc. destruct k as [|k].
  - unfold sessionRun. cbn [repeat fold_left].
    unfold sessionStep. cbn [sessionState freshSession signalAborted sessionLines
                             sessionPattern sessionJitter sessionPairs textHTML].
    unfold startRunner. cbn [andb]. unfold lineLoop.
    rewrite currentLine_first. unfold typingFrom.
    assert (H : (1 <=? length line)%nat = true) by (apply Nat.leb_le; lia).
    rewrite H. reflexivity.
  - fold (after (S k)). rewrite IH by lia.
    rewrite step_typing by lia.
    replace (S k - 0)%nat with (S k) by lia. reflexivity.
Qed.

Lemma after_held :
  after (S (length line))
  = at_ {| index := 0; phase := Holding; innerHTML := heldText;
           draws := length line |}
        HERO_HOLD_DELAY_MS.
Proof.
  unfold after. rewrite sessionRun_snoc. fold (after (length line)).
  destruct (length line) as [|m] eqn:Hlen.
  - unfold after, sessionRun. cbn [repeat fold_left].
    unfold sessionStep. cbn [sessionState freshSession signalAborted sessionLines
                             sessionPattern sessionJitter sessionPairs textHTML].
    unfold startRunner. cbn [andb]. unfold lineLoop.
    rewrite currentLine_first. unfold typingFrom. rewrite Hlen.
    unfold heldText. destruct line; [reflexivity|discriminate].
  - rewrite after_typing by lia. rewrite <- Hlen. rewrite step_typed.
    rewrite firstn_all. unfold heldText.
    destruct line; [discriminate|reflexivity].
Qed.

Lemma after_erasing j :
  (j < length line)%nat ->
  after (length line + 2 + j)
  = at_ {| index := 0; phase := Erasing (length line - 1 - j);
           innerHTML :=
             renderTypewriterLine (take (length line - 1 - j) line) pattern;
           draws := length line |}
        HERO_ERASE_DELAY_MS.
Proof.
  induction j as [|j IH]; intros Hj.
  - replace (length line + 2 + 0)%nat with (S (S (length line))) by lia.
    unfold after. rewrite sessionRun_snoc. fold (after (S (length line))).
    rewrite after_held.
    rewrite (step_erase Holding (length line - 1 - 0)); [reflexivity|].
    left. split; [reflexivity|lia].
  - replace (length line + 2 + S j)%nat with (S (length line + 2 + j)) by lia.
    unfold after. rewrite sessionRun_snoc. fold (after (length line + 2 + j)).
    rewrite IH by lia.
    rewrite (step_erase _ (length line - 1 - S j)); [reflexivity|].
    right. f_equal. lia.
Qed.

Lemma after_erased :
  after (2 * length line + 2)
  = at_ {| index := 0; phase := BetweenLines; innerHTML := erasedText;
           draws := length line |}
        HERO_BETWEEN_LINES_DELAY_MS.
Proof.
  destruct (length line) as [|m] eqn:Hlen.
  - cbn [Nat.mul Nat.add]. unfold after. rewrite sessionRun_snoc.
    fold (after 1). pose proof after_held as H. rewrite Hlen in H. rewrite H.
    rewrite step_erased by (left; split; [reflexivity|exact Hlen]).
    unfold heldText, erasedText. destruct line; [reflexivity|discriminate].
  - replace (2 * S m + 2)%nat with (S (S m + 2 + m)) by lia.
    unfold after. rewrite sessionRun_snoc. fold (after (S m + 2 + m)).
    pose proof (after_erasing m) as H. rewrite Hlen in H. rewrite H by lia.
    replace (S m - 1 - m)%nat with 0%nat by lia.
    rewrite step_erased by (right; reflexivity).
    unfold erasedText. destruct line; [discriminate|reflexivity].
Qed.

End OneLine.

(** The line runner on its first line, timer by timer: after [k] timers,
    for [k] from 1 to the length of the line, the text element shows the
    first [k] characters with the cursor and the runner waits the typing
    delay plus the jitter of its draw; then it holds the whole line for
    3600 ms; then each erase step of 16 ms shows one character less, down
    to none; then it waits 120 ms before the next line. *)
Theorem first_line_typed_then_erased :
  forall (lines : list jsstring) (pattern : HighlightPattern)
         (jitter : nat -> Z) (line : jsstring),
    lines !! 0%nat = Some line ->
    let after k :=
      sessionRun (freshSession lines pattern false jitter) (repeat TimerFired k) in
    let m := length line in
    (forall k, (1 <= k <= m)%nat ->
       textHTML (after k) = renderTypewriterLine (take k line) pattern
       /\ sessionState (after k)
          = Running {| index := 0; phase := Typing k;
                       innerHTML := renderTypewriterLine (take k line) pattern;
                       draws := k |}
              (waitForDelay (HERO_TYPING_DELAY_MS + jitter (k - 1)%nat) (Some false)))
    /\ (textHTML (after (S m)) = heldText pattern line
        /\ sessionState (after (S m))
           = Running {| index := 0; phase := Holding;
                        innerHTML := heldText pattern line; draws := m |}
               (waitForDelay HERO_HOLD_DELAY_MS (Some false)))
    /\ (forall j, (j < m)%nat ->
          textHTML (after (m + 2 + j)%nat)
          = renderTypewriterLine (take (m - 1 - j) line) pattern
          /\ sessionState (after (m + 2 + j)%nat)
             = Running {| index := 0; phase := Erasing (m - 1 - j);
                          innerHTML :=
                            renderTypewriterLine (take (m - 1 - j) line) pattern;
                          draws := m |}
                 (waitForDelay HERO_ERASE_DELAY_MS (Some false)))
    /\ (textHTML (after (2 * m + 2)%nat) = erasedText pattern line
        /\ sessionState (after (2 * m + 2)%nat)
           = Running {| index := 0; phase := BetweenLines;
                        innerHTML := erasedText pattern line; draws := m |}
               (waitForDelay HERO_BETWEEN_LINES_DELAY_MS (Some false))).
Proof.
  intros lines pattern jitter line Hfirst after m.
  split; [|split; [|split]].
  - intros k Hk. unfold after.
    rewrite (after_typing lines pattern jitter line Hfirst k Hk).
    split; reflexivity.
  - unfold after, m. rewrite (after_held lines pattern jitter line Hfirst).
    split; reflexivity.
  - intros j Hj. unfold after, m.
    rewrite (after_erasing lines pattern jitter line Hfirst j Hj).
    split; reflexivity.
  - unfold after, m. rewrite (after_erased lines pattern jitter line Hfirst).
    split; reflexivity.
Qed.

Lemma first_line_typed_then_erased_witness :
  textHTML
    (sessionRun (freshSession [js "ab"; js "cd"] HERO_HIGHLIGHT_PATTERN false
                   (fun _ => 0))
       (repeat TimerFired 2))
  = renderTypewriterLine (js "ab") HERO_HIGHLIGHT_PATTERN.
Proof.
  destruct (first_line_typed_then_erased [js "ab"; js "cd"] HERO_HIGHLIGHT_PATTERN
              (fun _ => 0) (js "ab") eq_refl) as (H & _).
  exact (proj1 (H 2%nat ltac:(cbn; lia))).
Defined.

(** *** One pair, typed and erased *)

Section OnePair.

Variable lines : list jsstring.
Variable pattern : HighlightPattern.
Variable jitter : nat -> Z.
Variable pair : Pair.
Hypothesis first_pair : buildTypewriterPairs lines !! 0%nat = Some pair.
Hypothesis has_question : question pair <> [].
Hypothesis has_answer : answer pair <> [].

Let q := question pair.
Let a := answer pair.

Lemma currentPair_first : currentPair lines 0 = Some pair.
Proof.
  unfold currentPair, pairs.
  destruct (buildTypewriterPairs lines) as [|p ps]; [discriminate|].
  rewrite Nat.Div0.mod_0_l. exact first_pair.
Qed.

Lemma pairs_nonempty : (0 <? length (pairs lines))%nat = true.
Proof.
  unfold pairs. destruct (buildTypewriterPairs lines); [discriminate|reflexivity].
Qed.

Lemma question_length : (1 <= length q)%nat.
Proof. subst q. destruct (question pair); [congruence|cbn; lia]. Qed.

Lemma answer_length : (1 <= length a)%nat.
Proof. subst a. destruct (answer pair); [congruence|cbn; lia]. Qed.

Let at_ (r : Runner) (d : Z) : Session := suspendedAt lines pattern true jitter r d.

Let after (k : nat) : Session :=
  sessionRun (freshSession lines pattern true jitter) (repeat TimerFired k).

Ltac step_pair :=
  unfold at_, suspendedAt, sessionStep;
  cbn [sessionState onTimeout waitForDelay timerArmed promise settle
       sessionLines sessionPattern sessionJitter signalAborted];
  unfold resume, resumePair; cbn [phase index innerHTML draws];
  rewrite currentPair_first.

Lemma step_typingQuestion c h n d :
  (S c <= length q)%nat ->
  sessionStep
    (at_ {| index := 0; phase := TypingQuestion c; innerHTML := h; draws := n |} d)
    TimerFired
  = at_ {| index := 0; phase := TypingQuestion (S c);
           innerHTML := renderTypewriterPair (take (S c) q) [] pattern CursorQuestion;
           draws := S n |}
        (HERO_TYPING_DELAY_MS + jitter n).
Proof.
  intros Hc. step_pair. unfold typingQuestionFrom. fold q.
  apply Nat.leb_le in Hc. rewrite Hc. reflexivity.
Qed.

Lemma step_questionTyped h n d :
  sessionStep
    (at_ {| index := 0; phase := TypingQuestion (length q); innerHTML := h;
            draws := n |} d)
    TimerFired
  = at_ {| index := 0; phase := AnswerStartDelay; innerHTML := h; draws := n |}
        HERO_ANSWER_START_DELAY_MS.
Proof.
  step_pair. unfold typingQuestionFrom. fold q a.
  assert (H : (S (length q) <=? length q)%nat = false) by (apply Nat.leb_gt; lia).
  rewrite H.
  assert (H1 : (0 <? length q)%nat = true)
    by (apply Nat.ltb_lt; pose proof question_length; lia).
  assert (H2 : (0 <? length a)%nat = true)
    by (apply Nat.ltb_lt; pose proof answer_length; lia).
  rewrite H1, H2. reflexivity.
Qed.

Lemma step_typingAnswer ph c h n d :
  (ph = AnswerStartDelay /\ c = 0%nat) \/ ph = TypingAnswer c ->
  (S c <= length a)%nat ->
  sessionStep (at_ {| index := 0; phase := ph; innerHTML := h; draws := n |} d)
    TimerFired
  = at_ {| index := 0; phase := TypingAnswer (S c);
           innerHTML := renderTypewriterPair q (take (S c) a) pattern CursorAnswer;
           draws := S n |}
        (HERO_TYPING_DELAY_MS + jitter n).
Proof.
  intros Hph Hc. apply Nat.leb_le in Hc.
  destruct Hph as [[-> ->]| ->]; step_pair; unfold typingAnswerFrom; fold q a;
    rewrite Hc; reflexivity.
Qed.

Lemma step_answerTyped h n d :
  sessionStep
    (at_ {| index := 0; phase := TypingAnswer (length a); innerHTML := h;
            draws := n |} d)
    TimerFired
  = at_ {| index := 0; phase := HoldingPair; innerHTML := h; draws := n |}
        HERO_HOLD_DELAY_MS.
Proof.
  step_pair. unfold typingAnswerFrom. fold q a.
  assert (H : (S (length a) <=? length a)%nat = false) by (apply Nat.leb_gt; lia).
  rewrite H. reflexivity.
Qed.

Lemma step_erasingAnswer ph c h n d :
  (ph = HoldingPair /\ length a = S c) \/ ph = ErasingAnswer (S c) ->
  sessionStep (at_ {| index := 0; phase := ph; innerHTML := h; draws := n |} d)
    TimerFired
  = at_ {| index := 0; phase := ErasingAnswer c;
           innerHTML := renderTypewriterPair q (take c a) pattern CursorAnswer;
           draws := n |}
        HERO_ERASE_DELAY_MS.
Proof.
  intros Hph.
  destruct Hph as [[-> Hlen]| ->]; step_pair; fold q a; rewrite ?Hlen; reflexivity.
Qed.

Lemma step_erasingQuestion ph c h n d :
  (ph = ErasingAnswer 0 /\ length q = S c) \/ ph = ErasingQuestion (S c) ->
  sessionStep (at_ {| index := 0; phase := ph; innerHTML := h; draws := n |} d)
    TimerFired
  = at_ {| index := 0; phase := ErasingQuestion c;
           innerHTML := renderTypewriterPair (take c q) [] pattern CursorQuestion;
           draws := n |}
        HERO_ERASE_DELAY_MS.
Proof.
  intros Hph.
  destruct Hph as [[-> Hlen]| ->]; step_pair; [|reflexivity].
  unfold erasingAnswerFrom. cbn [countDown]. fold q. rewrite Hlen. reflexivity.
Qed.

Lemma step_questionErased h n d :
  sessionStep
    (at_ {| index := 0; phase := ErasingQuestion 0; innerHTML := h; draws := n |} d)
    TimerFired
  = at_ {| index := 0; phase := BetweenPairs; innerHTML := h; draws := n |}
        HERO_BETWEEN_LINES_DELAY_MS.
Proof. step_pair. reflexivity. Qed.

Lemma after_typingQuestion k :
  (1 <= k <= length q)%nat ->
  after k
  = at_ {| index := 0; phase := TypingQuestion k;
           innerHTML := renderTypewriterPair (take k q) [] pattern CursorQuestion;
           draws := k |}
        (HERO_TYPING_DELAY_MS + jitter (k - 1)).
Proof.
  induction k as [|k IH]; [lia|]. intros Hk. unfold after.
  rewrite sessionRun_snoc. destruct k as [|k].
  - unfold sessionRun. cbn [repeat fold_left].
    unfold sessionStep. cbn [sessionState freshSession signalAborted sessionLines
                             sessionPattern sessionJitter sessionPairs textHTML].
    unfold startRunner. rewrite pairs_nonempty. cbn [andb]. unfold pairLoop.
    rewrite currentPair_first. unfold typingQuestionFrom. fold q.
    assert (H : (1 <=? length q)%nat = true) by (apply Nat.leb_le; lia).
    rewrite H. reflexivity.
  - fold (after (S k)). rewrite IH by lia.
    rewrite step_typingQuestion by lia.
    replace (S k - 0)%nat with (S k) by lia. reflexivity.
Qed.

Lemma after_answerDelay :
  after (S (length q))
  = at_ {| index := 0; phase := AnswerStartDelay;
           innerHTML := renderTypewriterPair q [] pattern CursorQuestion;
           draws := length q |}
        HERO_ANSWER_START_DELAY_MS.
Proof.
  unfold after. rewrite sessionRun_snoc. fold (after (length q)).
  pose proof question_length.
  rewrite after_typingQuestion by lia. rewrite step_questionTyped.
  rewrite firstn_all. reflexivity.
Qed.

Lemma after_typingAnswer j :
  (1 <= j <= length a)%nat ->
  after (S (length q) + j)
  = at_ {| index := 0; phase := TypingAnswer j;
           innerHTML := renderTypewriterPair q (take j a) pattern CursorAnswer;
           draws := length q + j |}
        (HERO_TYPING_DELAY_MS + jitter (length q + j - 1)).
Proof.
  induction j as [|j IH]; [lia|]. intros Hj.
  replace (S (length q) + S j)%nat with (S (S (length q) + j)) by lia.
  unfold after. rewrite sessionRun_snoc. fold (after (S (length q) + j)).
  destruct j as [|j].
  - rewrite Nat.add_0_r, after_answerDelay.
    rewrite (step_typingAnswer AnswerStartDelay 0) by (auto; lia).
    replace (length q + 1 - 1)%nat with (length q) by lia.
    replace (length q + 1)%nat with (S (length q)) by lia. reflexivity.
  - rewrite IH by lia.
    rewrite (step_typingAnswer (TypingAnswer (S j)) (S j)) by (auto; lia).
    replace (length q + S (S j) - 1)%nat with (length q + S j)%nat by lia.
    replace (S (length q + S j)) with (length q + S (S j))%nat by lia.
    reflexivity.
Qed.

Lemma after_heldPair :
  after (length q + length a + 2)
  = at_ {| index := 0; phase := HoldingPair;
           innerHTML := renderTypewriterPair q a pattern CursorAnswer;
           draws := length q + length a |}
        HERO_HOLD_DELAY_MS.
Proof.
  replace (length q + length a + 2)%nat with (S (S (length q) + length a)) by lia.
  unfold after. rewrite sessionRun_snoc. fold (after (S (length q) + length a)).
  pose proof answer_length.
  rewrite after_typingAnswer by lia. rewrite step_answerTyped.
  rewrite firstn_all. reflexivity.
Qed.

Lemma after_erasingAnswer i :
  (i < length a)%nat ->
  after (length q + length a + 3 + i)
  = at_ {| index := 0; phase := ErasingAnswer (length a - 1 - i);
           innerHTML :=
             renderTypewriterPair q (take (length a - 1 - i) a) pattern CursorAnswer;
           draws := length q + length a |}
        HERO_ERASE_DELAY_MS.
Proof.
  induction i as [|i IH]; intros Hi.
  - replace (length q + length a + 3 + 0)%nat
      with (S (length q + length a + 2)) by lia.
    unfold after. rewrite sessionRun_snoc. fold (after (length q + length a + 2)).
    rewrite after_heldPair.
    rewrite (step_erasingAnswer HoldingPair (length a - 1 - 0)); [reflexivity|].
    left. split; [reflexivity|lia].
  - replace (length q + length a + 3 + S i)%nat
      with (S (length q + length a + 3 + i)) by lia.
    unfold after. rewrite sessionRun_snoc.
    fold (after (length q + length a + 3 + i)).
    rewrite IH by lia.
    rewrite (step_erasingAnswer _ (length a - 1 - S i)); [reflexivity|].
    right. f_equal. lia.
Qed.

Lemma after_erasingQuestion i :
  (i < length q)%nat ->
  after (length q + 2 * length a + 3 + i)
  = at_ {| index := 0; phase := ErasingQuestion (length q - 1 - i);
           innerHTML :=
             renderTypewriterPair (take (length q - 1 - i) q) [] pattern
               CursorQuestion;
           draws := length q + length a |}
        HERO_ERASE_DELAY_MS.
Proof.
  pose proof answer_length as Ha.
  induction i as [|i IH]; intros Hi.
  - replace (length q + 2 * length a + 3 + 0)%nat
      with (S (length q + length a + 3 + (length a - 1))) by lia.
    unfold after. rewrite sessionRun_snoc.
    fold (after (length q + length a + 3 + (length a - 1))).
    rewrite after_erasingAnswer by lia.
    replace (length a - 1 - (length a - 1))%nat with 0%nat by lia.
    rewrite (step_erasingQuestion (ErasingAnswer 0) (length q - 1 - 0));
      [reflexivity|].
    left. split; [reflexivity|lia].
  - replace (length q + 2 * length a + 3 + S i)%nat
      with (S (length q + 2 * length a + 3 + i)) by lia.
    unfold after. rewrite sessionRun_snoc.
    fold (after (length q + 2 * length a + 3 + i)).
    rewrite IH by lia.
    rewrite (step_erasingQuestion _ (length q - 1 - S i)); [reflexivity|].
    right. f_equal. lia.
Qed.

Lemma after_pairErased :
  after (2 * length q + 2 * length a + 3)
  = at_ {| index := 0; phase := BetweenPairs;
           innerHTML := renderTypewriterPair [] [] pattern CursorQuestion;
           draws := length q + length a |}
        HERO_BETWEEN_LINES_DELAY_MS.
Proof.
  pose proof question_length as Hq.
  replace (2 * length q + 2 * length a + 3)%nat
    with (S (length q + 2 * length a + 3 + (length q - 1))) by lia.
  unfold after. rewrite sessionRun_snoc.
  fold (after (length q + 2 * length a + 3 + (length q - 1))).
  rewrite after_erasingQuestion by lia.
  replace (length q - 1 - (length q - 1))%nat with 0%nat by lia.
  rewrite step_questionErased. reflexivity.
Qed.

End OnePair.

(** The pair runner on its first pair, when it has a question and an
    answer, timer by timer: the question is typed character by character
    with the cursor in it; the runner then waits 2000 ms; the answer is
    typed under the whole question with the cursor in it; the pair is held
    for 3600 ms; the answer is erased, then the question, one character
    every 16 ms; and the runner waits 120 ms before the next pair. *)
Theorem first_pair_typed_then_erased :
  forall (lines : list jsstring) (pattern : HighlightPattern)
         (jitter : nat -> Z) (pair : Pair),
    buildTypewriterPairs lines !! 0%nat = Some pair ->
    question pair <> [] -> answer pair <> [] ->
    let after k :=
      sessionRun (freshSession lines pattern true jitter) (repeat TimerFired k) in
    let q := question pair in
    let a := answer pair in
    let m := length q in
    let n := length a in
    (forall k, (1 <= k <= m)%nat ->
       textHTML (after k)
       = renderTypewriterPair (take k q) [] pattern CursorQuestion
       /\ exists r,
            sessionState (after k)
            = Running r (waitForDelay (HERO_TYPING_DELAY_MS + jitter (k - 1)%nat)
                           (Some false))
            /\ phase r = TypingQuestion k)
    /\ (textHTML (after (S m)) = renderTypewriterPair q [] pattern CursorQuestion
        /\ exists r,
             sessionState (after (S m))
             = Running r (waitForDelay HERO_ANSWER_START_DELAY_MS (Some false))
             /\ phase r = AnswerStartDelay)
    /\ (forall j, (1 <= j <= n)%nat ->
          textHTML (after (S m + j)%nat)
          = renderTypewriterPair q (take j a) pattern CursorAnswer
          /\ exists r,
               sessionState (after (S m + j)%nat)
               = Running r
                   (waitForDelay (HERO_TYPING_DELAY_MS + jitter (m + j - 1)%nat)
                      (Some false))
               /\ phase r = TypingAnswer j)
    /\ (textHTML (after (m + n + 2)%nat)
        = renderTypewriterPair q a pattern CursorAnswer
        /\ exists r,
             sessionState (after (m + n + 2)%nat)
             = Running r (waitForDelay HERO_HOLD_DELAY_MS (Some false))
             /\ phase r = HoldingPair)
    /\ (forall i, (i < n)%nat ->
          textHTML (after (m + n + 3 + i)%nat)
          = renderTypewriterPair q (take (n - 1 - i) a) pattern CursorAnswer
          /\ exists r,
               sessionState (after (m + n + 3 + i)%nat)
               = Running r (waitForDelay HERO_ERASE_DELAY_MS (Some false))
               /\ phase r = ErasingAnswer (n - 1 - i))
    /\ (forall i, (i < m)%nat ->
          textHTML (after (m + 2 * n + 3 + i)%nat)
          = renderTypewriterPair (take (m - 1 - i) q) [] pattern CursorQuestion
          /\ exists r,
               sessionState (after (m + 2 * n + 3 + i)%nat)
               = Running r (waitForDelay HERO_ERASE_DELAY_MS (Some false))
               /\ phase r = ErasingQuestion (m - 1 - i))
    /\ (textHTML (after (2 * m + 2 * n + 3)%nat) = []
        /\ exists r,
             sessionState (after (2 * m + 2 * n + 3)%nat)
             = Running r (waitForDelay HERO_BETWEEN_LINES_DELAY_MS (Some false))
             /\ phase r = BetweenPairs).
Proof.
  intros lines pattern jitter pair Hfirst Hq Ha after q a m n.
  unfold after, m, n, q, a.
  split; [|split; [|split; [|split; [|split; [|split]]]]].
  - intros k Hk.
    rewrite (after_typingQuestion lines pattern jitter pair Hfirst k Hk).
    split; [reflexivity|eexists; split; reflexivity].
  - rewrite (after_answerDelay lines pattern jitter pair Hfirst Hq Ha).
    split; [reflexivity|eexists; split; reflexivity].
  - intros k Hk.
    rewrite (after_typingAnswer lines pattern jitter pair Hfirst Hq Ha k Hk).
    split; [reflexivity|eexists; split; reflexivity].
  - rewrite (after_heldPair lines pattern jitter pair Hfirst Hq Ha).
    split; [reflexivity|eexists; split; reflexivity].
  - intros k Hk.
    rewrite (after_erasingAnswer lines pattern jitter pair Hfirst Hq Ha k Hk).
    split; [reflexivity|eexists; split; reflexivity].
  - intros k Hk.
    rewrite (after_erasingQuestion lines pattern jitter pair Hfirst Hq Ha k Hk).
    split; [reflexivity|eexists; split; reflexivity].
  - rewrite (after_pairErased lines pattern jitter pair Hfirst Hq Ha).
    split; [reflexivity|eexists; split; reflexivity].
Qed.

Lemma first_pair_typed_then_erased_witness :
  textHTML
    (sessionRun (freshSession [js "Q1"; js "A1"; js "Q2"] HERO_HIGHLIGHT_PATTERN
                   true (fun _ => 0))
       (repeat TimerFired 5))
  = renderTypewriterPair (js "Q1") (js "A1") HERO_HIGHLIGHT_PATTERN CursorAnswer.
Proof.
  destruct (first_pair_typed_then_erased [js "Q1"; js "A1"; js "Q2"]
              HERO_HIGHLIGHT_PATTERN (fun _ => 0)
              {| question := js "Q1"; answer := js "A1" |}
              ltac:(vm_compute; reflexivity) ltac:(discriminate)
              ltac:(discriminate))
    as (_ & _ & H & _).
  exact (proj1 (H 2%nat ltac:(cbn; lia))).
Defined.

End EngineRuns.

(** ** Typewriter engine: starting and restarting *)

Module HeroStart.
Import Typewriter Engine EngineFacts EngineRuns Hero.

Lemma truthy_spec (s : jsstring) : truthy s = true <-> s <> [].
Proof. destruct s; cbn; split; congruence. Qed.

Lemma fallback_lines_nonempty :
  HERO_FALLBACK_ROTATING_LINES <> []
  /\ Forall (fun line => line <> [] /\ trim line = line) HERO_FALLBACK_ROTATING_LINES.
Proof.
  split; [discriminate|].
  unfold HERO_FALLBACK_ROTATING_LINES. cbn [map].
  repeat (apply Forall_cons; split; [split; [discriminate|vm_compute; reflexivity]|]).
  apply Forall_nil. trivial.
Qed.

Lemma resolveHeroRotatingLines_nonempty content :
  resolveHeroRotatingLines content <> [].
Proof.
  unfold resolveHeroRotatingLines. cbv zeta.
  match goal with |- context [(0 <? length ?l)%nat] => destruct l as [|x xs] end.
  - cbn [length Nat.ltb Nat.leb].
    destruct (truthy (trim (default [] (heading content))));
      [discriminate|apply fallback_lines_nonempty].
  - discriminate.
Qed.

(** [resolveHeroRotatingLines] always gives lines to rotate: the list is
    never empty and none of its lines is empty; it is the configured
    lines, trimmed, when one of them is not blank, else the trimmed
    heading when it is not blank, else the built-in lines. *)
Theorem resolveHeroRotatingLines_gives_lines :
  forall content : Content,
    let lines := resolveHeroRotatingLines content in
    let configured :=
      List.filter (fun line => negb (str_eqb line []))
        (map (fun line => trim (default [] line))
           (default [] (typewriter_lines content))) in
    lines <> []
    /\ Forall (fun line => line <> []) lines
    /\ (configured <> [] -> lines = configured)
    /\ (configured = [] -> trim (default [] (heading content)) <> [] ->
        lines = [trim (default [] (heading content))])
    /\ (configured = [] -> trim (default [] (heading content)) = [] ->
        lines = HERO_FALLBACK_ROTATING_LINES).
Proof.
  intros content lines configured.
  assert (Hsame : forall l : list jsstring,
    List.filter truthy l = List.filter (fun line => negb (str_eqb line [])) l).
  { intros l. apply filter_ext. intros [|c s]; reflexivity. }
  assert (Hconf : match typewriter_lines content with
                  | Some ls =>
                      List.filter truthy (map (fun line => trim (default [] line)) ls)
                  | None => []
                  end = configured).
  { unfold configured. destruct (typewriter_lines content); [apply Hsame|reflexivity]. }
  unfold lines, resolveHeroRotatingLines. cbv zeta. rewrite Hconf.
  assert (Hall : Forall (fun line : jsstring => line <> []) configured).
  { unfold configured. apply Forall_forall. intros line Hin.
    apply list_elem_of_In, filter_In in Hin. destruct Hin as [_ Hin].
    destruct line; [discriminate Hin|discriminate]. }
  destruct configured as [|l ls] eqn:Hc.
  - cbn [length Nat.ltb Nat.leb].
    destruct (trim (default [] (heading content))) as [|c s] eqn:Hh; cbn [truthy].
    + split; [apply fallback_lines_nonempty|].
      split.
      { eapply Forall_impl; [apply fallback_lines_nonempty|].
        intros line [H _]. exact H. }
      split; [congruence|]. split; [congruence|reflexivity].
    + split; [discriminate|].
      split; [apply Forall_cons; split; [discriminate|apply Forall_nil; trivial]|].
      split; [congruence|]. split; [reflexivity|congruence].
  - change (0 <? length (l :: ls))%nat with true. cbn iota.
    split; [discriminate|]. split; [exact Hall|].
    split; [reflexivity|]. split; congruence.
Qed.

(** *** startHeroTypewriter *)

(** The lines and options a start resolves. *)
Definition resolvedLines (lines : list jsstring) : list jsstring :=
  match lines with [] => HERO_FALLBACK_ROTATING_LINES | _ => lines end.

Lemma resolvedLines_nonempty lines : resolvedLines lines <> [].
Proof. destruct lines; [apply fallback_lines_nonempty|discriminate]. Qed.

(** Starting the animation on a heading whose registered session is
    running aborts that session: it ends through the swallowed rejection,
    with nothing logged, and never writes again whatever timers of its own
    are still to fire; the heading gets an empty text element and a new
    session over the given lines, or over the built-in lines when none are
    given, with the default pattern and mode when the options give none. *)
Theorem restart_supersedes_running_session :
  forall (h : Heading) (lines : list jsstring) (options : TypewriterOptions)
         (jitter : nat -> Z)
         (lines0 : list jsstring) (pattern0 : HighlightPattern) (asPairs0 : bool)
         (jitter0 : nat -> Z) (events : list SessionEvent) (r : Runner) (w : Wait),
    let old := sessionRun (freshSession lines0 pattern0 asPairs0 jitter0) events in
    controller h = Some old ->
    sessionState old = Running r w ->
    let h' := startHeroTypewriter h lines options jitter false in
    controller h'
    = Some (freshSession (resolvedLines lines)
              (default HERO_HIGHLIGHT_PATTERN (highlightPattern options))
              (default false (renderAsPairs options)) jitter)
    /\ attachedText h' = [] /\ typewriterStatic h' = false
    /\ typewriterTarget h' = true
    /\ typewriterAccent h'
       = Some (default DEFAULT_TYPEWRITER_ACCENT (accentColor options))
    /\ exists old',
         detached h' = old' :: detached h
         /\ signalAborted old' = true
         /\ forall later,
              sessionState (sessionRun old' later) = Ended AbortSwallowed
              /\ textHTML (sessionRun old' later) = textHTML old.
Proof.
  intros h lines options jitter lines0 pattern0 asPairs0 jitter0 events r w old
    Hctl Hst h'.
  assert (Hlive : sessionLive old) by (apply sessionRun_live, fresh_live).
  destruct (abort_running_swallowed old r w Hlive Hst) as (Hend & Htext & Hab).
  subst h'. unfold startHeroTypewriter. rewrite Hctl. cbv zeta.
  cbn [controller attachedText typewriterStatic typewriterTarget typewriterAccent
       detached].
  split; [destruct lines; reflexivity|]. repeat (split; [reflexivity|]).
  exists (sessionStep old AbortCalled). split; [reflexivity|].
  split; [exact Hab|]. intros later.
  destruct (sessionRun_ended later _ _ Hend) as [H1 H2].
  split; [exact H1|congruence].
Qed.

Definition sampleHeading : Heading :=
  {| typewriterTarget := false; typewriterStatic := false;
     typewriterAccent := None; ariaLabel := None; ariaLive := None;
     attachedText := []; controller := None; detached := [] |}.

Definition noOptions : TypewriterOptions :=
  {| accentColor := None; highlightPattern := None; renderAsPairs := None |}.

Lemma restart_supersedes_running_session_witness :
  let h := headingStep
             (startHeroTypewriter sampleHeading [js "ab"] noOptions (fun _ => 0) false)
             TimerFired in
  controller (startHeroTypewriter h [] noOptions (fun _ => 0) false)
  = Some (freshSession HERO_FALLBACK_ROTATING_LINES HERO_HIGHLIGHT_PATTERN false
            (fun _ => 0)).
Proof.
  exact (proj1 (restart_supersedes_running_session
    (headingStep
       (startHeroTypewriter sampleHeading [js "ab"] noOptions (fun _ => 0) false)
       TimerFired)
    [] noOptions (fun _ => 0) [js "ab"] HERO_HIGHLIGHT_PATTERN false (fun _ => 0)
    [TimerFired] _ _ eq_refl eq_refl)).
Defined.

(** A session aborted before its start delay has run out never runs: the
    timer callback returns at once, nothing is written and nothing is
    logged, whatever comes later. *)
Theorem aborted_before_start_never_runs :
  forall (lines : list jsstring) (pattern : HighlightPattern) (asPairs : bool)
         (jitter : nat -> Z) (later : list SessionEvent),
    let s := sessionRun (freshSession lines pattern asPairs jitter)
               (AbortCalled :: TimerFired :: later) in
    sessionState s = Ended NeverRan /\ textHTML s = [].
Proof.
  intros lines pattern asPairs jitter later s. subst s.
  unfold sessionRun. cbn [fold_left].
  exact (sessionRun_ended later
           (sessionStep (sessionStep (freshSession lines pattern asPairs jitter)
                           AbortCalled) TimerFired)
           NeverRan eq_refl).
Qed.

(** With reduced motion the heading is static: it shows the first line,
    highlighted, or the first pair without a cursor; no session is
    registered, so no later event changes the heading; a session that was
    registered is aborted. *)
Theorem reduced_motion_is_static :
  forall (h : Heading) (lines : list jsstring) (options : TypewriterOptions)
         (jitter : nat -> Z) (events : list SessionEvent),
    let h' := startHeroTypewriter h lines options jitter true in
    let pattern := default HERO_HIGHLIGHT_PATTERN (highlightPattern options) in
    controller h' = None
    /\ typewriterStatic h' = true
    /\ fold_left headingStep events h' = h'
    /\ (default false (renderAsPairs options) = false ->
        attachedText h'
        = highlightHeroLine (default [] (head (resolvedLines lines))) pattern
        /\ ariaLabel h' = Some (default [] (head (resolvedLines lines))))
    /\ (forall old, controller h = Some old ->
          detached h' = sessionStep old AbortCalled :: detached h).
Proof.
  intros h lines options jitter events h' pattern.
  assert (Hc : controller h' = None) by reflexivity.
  split; [exact Hc|]. split; [reflexivity|]. split.
  { generalize dependent h'. intros h' Hc.
    induction events as [|e events IH]; [reflexivity|].
    cbn [fold_left]. unfold headingStep at 2. rewrite Hc. exact IH. }
  split.
  - intros Hmode. subst h'. unfold startHeroTypewriter. cbv zeta.
    rewrite Hmode. cbn [attachedText ariaLabel].
    destruct lines; split; reflexivity.
  - intros old Hold. subst h'. unfold startHeroTypewriter. rewrite Hold.
    reflexivity.
Qed.

(** The heading animation as the page starts it, on the lines
    [resolveHeroRotatingLines] gives: the session never lacks a line to
    read, so with no abort it is still running after any number of timers
    and no error is logged. *)
Theorem hero_animation_keeps_running :
  forall (content : Content) (options : TypewriterOptions) (jitter : nat -> Z)
         (h : Heading) (n : nat),
    let h' := startHeroTypewriter h (resolveHeroRotatingLines content) options
                jitter false in
    exists s,
      controller h' = Some s
      /\ sessionLines s = resolveHeroRotatingLines content
      /\ exists r w,
           sessionState (sessionRun s (repeat TimerFired (S n))) = Running r w
           /\ promise w = Pending
           /\ controller (fold_left headingStep (repeat TimerFired (S n)) h')
              = Some (sessionRun s (repeat TimerFired (S n))).
Proof.
  intros content options jitter h n h'.
  pose proof (resolveHeroRotatingLines_nonempty content) as Hne.
  set (pattern := default HERO_HIGHLIGHT_PATTERN (highlightPattern options)).
  set (asPairs := default false (renderAsPairs options)).
  exists (freshSession (resolveHeroRotatingLines content) pattern asPairs jitter).
  assert (Hctl : controller h'
    = Some (freshSession (resolveHeroRotatingLines content) pattern asPairs jitter)).
  { subst h'. unfold startHeroTypewriter. cbv zeta. cbn [controller].
    destruct (resolveHeroRotatingLines content); [congruence|reflexivity]. }
  split; [exact Hctl|]. split; [reflexivity|].
  assert (Hs : running (sessionRun
    (freshSession (resolveHeroRotatingLines content) pattern asPairs jitter)
    (repeat TimerFired (S n)))).
  { cbn [repeat]. unfold sessionRun. cbn [fold_left].
    apply (timers_running n), start_running, Hne. }
  destruct Hs as (_ & _ & r & w & Hst & _ & (d & ->) & _).
  exists r, (waitForDelay d (Some false)).
  split; [exact Hst|]. split; [reflexivity|].
  generalize (repeat TimerFired (S n)).
  revert Hctl. generalize h'.
  generalize (freshSession (resolveHeroRotatingLines content) pattern asPairs jitter).
  intros s0 h0 H0 events. revert s0 h0 H0.
  induction events as [|e events IH]; intros s0 h0 H0; [exact H0|].
  cbn [fold_left]. unfold sessionRun. cbn [fold_left].
  apply IH. unfold headingStep. rewrite H0. reflexivity.
Qed.

End HeroStart.

(** ** Further properties of the text and color helpers *)

Module TextFacts.
Import Typewriter Markup MarkupFacts PairsSpec PairsFacts Engine.

Definition reserved (c : Z) : bool :=
  (c =? AMP) || (c =? LT) || (c =? GT) || (c =? QUOT) || (c =? APOS).

Lemma entityOf_clean c d :
  d ∈ entityOf c -> d <> LT /\ d <> GT /\ d <> QUOT /\ d <> APOS.
Proof.
  unfold entityOf, AMP, LT, GT, QUOT, APOS. intros Hin.
  destruct (Z.eqb_spec c 38);
    [|destruct (Z.eqb_spec c 60);
      [|destruct (Z.eqb_spec c 62);
        [|destruct (Z.eqb_spec c 34); [|destruct (Z.eqb_spec c 39)]]]];
    apply list_elem_of_In in Hin; vm_compute in Hin;
    repeat (destruct Hin as [<-|Hin]; [repeat split; lia|]);
    contradiction.
Qed.

Lemma entityOf_plain c : reserved c = false -> entityOf c = [c].
Proof.
  unfold reserved, entityOf. intros H.
  repeat (apply orb_false_iff in H; destruct H as [H ?]).
  rewrite H. repeat match goal with E : _ = false |- _ => rewrite E; clear E end.
  reflexivity.
Qed.

Lemma entityOf_length c : (1 <= length (entityOf c))%nat.
Proof.
  unfold entityOf.
  repeat match goal with |- context [if ?b then _ else _] => destruct b end;
    cbn; lia.
Qed.

(** [escapeHTML] leaves none of [<], [>], the double quote and the
    apostrophe in its output; it keeps a text without reserved characters
    as it is and never shortens a text; and it loses nothing: two texts
    with the same escaped form are the same text. *)
Theorem escapeHTML_is_clean_and_injective :
  (forall (text : jsstring) (c : Z),
      c ∈ escapeHTML text -> c <> LT /\ c <> GT /\ c <> QUOT /\ c <> APOS)
  /\ (forall text : jsstring,
        forallb (fun c => negb (reserved c)) text = true ->
        escapeHTML text = text)
  /\ (forall text : jsstring, (length text <= length (escapeHTML text))%nat)
  /\ (forall first second : jsstring,
        escapeHTML first = escapeHTML second -> first = second).
Proof.
  split; [|split; [|split]].
  - intros text c. rewrite escapeHTML_charwise.
    induction text as [|d text IH]; cbn [flat_map].
    + intros H. apply elem_of_nil in H. contradiction.
    + rewrite elem_of_app. intros [H|H]; [exact (entityOf_clean d c H)|auto].
  - intros text. rewrite escapeHTML_charwise.
    induction text as [|d text IH]; [reflexivity|].
    cbn [forallb flat_map]. intros H. apply andb_true_iff in H.
    destruct H as [Hd Hrest]. apply negb_true_iff in Hd.
    rewrite (entityOf_plain d Hd), (IH Hrest). reflexivity.
  - intros text. rewrite escapeHTML_charwise.
    induction text as [|d text IH]; [reflexivity|].
    cbn [flat_map length]. rewrite length_app.
    pose proof (entityOf_length d). lia.
  - intros first second H.
    pose proof (parseMarkup_escaped first false [] [] [] eq_refl) as H1.
    pose proof (parseMarkup_escaped second false [] [] [] eq_refl) as H2.
    rewrite !app_nil_r in H1, H2. rewrite H in H1. congruence.
Qed.

(** *** Pairs *)

Lemma groupTwo_ind (P : list jsstring -> Prop) :
  P [] -> (forall q, P [q]) ->
  (forall q a rest, P rest -> P (q :: a :: rest)) ->
  forall lines, P lines.
Proof.
  intros H0 H1 H2 lines.
  assert (H : P lines /\ forall q, P (q :: lines)).
  { induction lines as [|l lines [IH1 IH2]]; [split; [exact H0|exact H1]|].
    split; [apply IH2|]. intros q. apply H2, IH1. }
  apply H.
Qed.

(** Every pair [buildTypewriterPairs] gives has a question or an answer,
    both trimmed of white space at the ends already; there are at most
    half as many pairs as lines, rounded up; and there is no pair exactly
    when every line is blank, the case in which the pair runner hands over
    to the line runner. *)
Theorem buildTypewriterPairs_keeps_content :
  forall lines : list jsstring,
    Forall (fun p => question p <> [] \/ answer p <> [])
      (buildTypewriterPairs lines)
    /\ (length (buildTypewriterPairs lines) <= Nat.div2 (S (length lines)))%nat
    /\ (buildTypewriterPairs lines = [] <-> Forall (fun l => trim l = []) lines).
Proof.
  intros lines. unfold buildTypewriterPairs. rewrite pairsLoop_spec.
  rewrite drop_0. cbn [app]. unfold specPairs.
  induction lines as [|q|q a rest (IH1 & IH2 & IH3)] using groupTwo_ind.
  - split; [apply Forall_nil; trivial|]. split; [cbn; lia|].
    split; [intros _; apply Forall_nil; trivial|reflexivity].
  - cbn [groupTwo map List.filter]. unfold bothEmpty, trimPair.
    cbn [question answer]. rewrite trim_nil. cbn [truthy negb andb].
    rewrite andb_true_r, negb_involutive.
    destruct (trim q) as [|c s] eqn:Hq; cbn [truthy].
    + split; [apply Forall_nil; trivial|]. split; [cbn; lia|].
      split; [intros _; apply Forall_cons; split; [exact Hq|apply Forall_nil; trivial]
             |reflexivity].
    + split; [apply Forall_cons; split; [left; discriminate|apply Forall_nil; trivial]|].
      split; [cbn; lia|]. split; [discriminate|].
      intros H. apply Forall_cons in H. destruct H as [H _]. congruence.
  - cbn [groupTwo map List.filter].
    set (tail := List.filter (fun p => negb (bothEmpty p))
                   (map trimPair (groupTwo rest))) in *.
    change (Nat.div2 (S (length (q :: a :: rest))))
      with (S (Nat.div2 (S (length rest)))).
    unfold bothEmpty, trimPair. cbn [question answer].
    destruct (trim q) as [|c s] eqn:Hq; cbn [truthy negb andb].
    + destruct (trim a) as [|c s] eqn:Ha; cbn [truthy negb].
      * split; [exact IH1|]. split; [lia|].
        rewrite IH3. split.
        -- intros H. repeat (apply Forall_cons; split; [assumption|]). exact H.
        -- intros H. apply Forall_cons in H. destruct H as [_ H].
           apply Forall_cons in H. apply H.
      * split; [apply Forall_cons; split; [right; discriminate|exact IH1]|].
        split; [cbn [length]; lia|]. split; [discriminate|].
        intros H. apply Forall_cons in H. destruct H as [_ H].
        apply Forall_cons in H. destruct H as [H _]. congruence.
    + split; [apply Forall_cons; split; [left; discriminate|exact IH1]|].
      split; [cbn [length]; lia|]. split; [discriminate|].
      intros H. apply Forall_cons in H. destruct H as [H _]. congruence.
Qed.

(** *** Waits *)

(** A wait settles once: with no signal it can only be fulfilled, by its
    timer; with a signal, whichever of the timer and the abort comes first
    settles it, clears the timer and removes the listener, and the other
    changes nothing afterwards. *)
Theorem wait_settles_once :
  forall durationMs : Z,
    (let w := waitForDelay durationMs None in
     onAbort w = w /\ promise (onTimeout w) = Fulfilled
     /\ onAbort (onTimeout w) = onTimeout w)
    /\ (let w := waitForDelay durationMs (Some false) in
        promise w = Pending /\ timerArmed w = true /\ abortListener w = true
        /\ onTimeout w
           = {| duration := durationMs; promise := Fulfilled;
                timerArmed := false; abortListener := false |}
        /\ onAbort w
           = {| duration := durationMs; promise := Rejected ABORT_MESSAGE;
                timerArmed := false; abortListener := false |}
        /\ onAbort (onTimeout w) = onTimeout w
        /\ onTimeout (onAbort w) = onAbort w
        /\ onTimeout (onTimeout w) = onTimeout w
        /\ onAbort (onAbort w) = onAbort w)
    /\ (let w := waitForDelay durationMs (Some true) in
        onTimeout w = w /\ onAbort w = w).
Proof. intros durationMs. repeat split. Qed.

End TextFacts.

Module ColorMore.
Import ColorModel ColorFacts Contrast ContrastFacts.

Set Warnings "-inexact-float".

(** The three-digit form of a hex color is the six-digit form with every
    digit doubled: [#abc] parses as [#aabbcc] does, whatever the three
    characters are. *)
Theorem short_hex_doubles_digits :
  forall a b c : Z,
    parseHexColor (js "#" ++ [a; b; c])
    = parseHexColor (js "#" ++ [a; a; b; b; c; c])
    /\ parseColor (Some (js "#" ++ [a; b; c]))
       = parseColor (Some (js "#" ++ [a; a; b; b; c; c])).
Proof.
  intros a b c.
  assert (H : parseHexColor (js "#" ++ [a; b; c])
              = parseHexColor (js "#" ++ [a; a; b; b; c; c])
              /\ parseRgbColor (js "#" ++ [a; b; c]) = None
              /\ parseRgbColor (js "#" ++ [a; a; b; b; c; c]) = None).
  { unfold parseHexColor, parseRgbColor, trim, trimEnd.
    change (js "#") with [35]. cbn [app trimStart rev].
    change (isWhiteSpace 35) with false. cbn iota. cbn [rev app trimStart].
    destruct (isWhiteSpace c); [|repeat split];
      destruct (isWhiteSpace b); try (repeat split; fail);
      destruct (isWhiteSpace a); repeat split. }
  destruct H as (H1 & H2 & H3). split; [exact H1|].
  unfold parseColor. change (default [] (Some ?x)) with x.
  rewrite H1, H2, H3. reflexivity.
Qed.

Definition white : Rgb := {| Contrast.r := 255; Contrast.g := 255; Contrast.b := 255 |}.
Definition black : Rgb := {| Contrast.r := 0; Contrast.g := 0; Contrast.b := 0 |}.

(** White against black has the greatest contrast ratio, 21, in either
    order, for any exponentiation that gives 1 for the base 1: black has
    luminance 0 and white luminance 1. *)
Theorem contrastRatio_white_black :
  forall pow : float -> float -> float,
    pow 1%float 2.4%float = 1%float ->
    relativeLuminance pow black = 0%float
    /\ relativeLuminance pow white = 1%float
    /\ contrastRatio pow white black = 21%float
    /\ contrastRatio pow black white = 21%float.
Proof.
  intros pow Hpow.
  assert (Hb : relativeLuminance pow black = 0%float) by reflexivity.
  assert (Hw : relativeLuminance pow white = 1%float).
  { unfold relativeLuminance, toLinearChannel, white. cbn [Contrast.r Contrast.g Contrast.b].
    cbv zeta.
    change (255 / 255)%float with 1%float.
    change (1 <=? 0.03928)%float with false. cbn iota.
    change ((1 + 0.055) / 1.055)%float with 1%float.
    rewrite Hpow. reflexivity. }
  split; [exact Hb|]. split; [exact Hw|].
  unfold contrastRatio. cbv zeta. rewrite Hb, Hw. split; reflexivity.
Qed.

Lemma contrastRatio_white_black_witness :
  contrastRatio (fun x _ => x) white black = 21%float.
Proof.
  exact (proj1 (proj2 (proj2 (contrastRatio_white_black (fun x _ => x) eq_refl)))).
Defined.

End ColorMore.
